(** * recur_scan.features: a shallow embedding and its verified properties

    The development follows [src/recur_scan/features.py].  Python values are
    modelled as the interpreter has them:

    - [int] is [Z];
    - [float] is IEEE-754 binary64, taken from Rocq's primitive floats, whose
      operations are specified by [SpecFloat] (round to nearest, ties to even,
      as CPython's C doubles);
    - [str] is [string] (the model reads ASCII text; Python's Unicode-aware
      [lower], [split] and digit classes coincide with it on ASCII input);
    - exceptions are an explicit [outcome];
    - the process-wide [lru_cache] of [_parse_date] is an explicit store that
      every date-parsing computation threads.

    Library code follows CPython 3.12 ([statistics.mean], [statistics.stdev],
    [datetime.strptime], [int], float [%], int [/]). *)

From Stdlib Require Import ZArith List String Ascii Bool Lia Floats.
From Stdlib Require Import Permutation Sorted.
Import ListNotations.

#[local] Set Warnings "-inexact-float".
#[local] Open Scope string_scope.
#[local] Open Scope Z_scope.

(** ** Exceptions and fallible computations *)

Inductive exn : Type :=
| ValueError
| ZeroDivisionError
| IndexError
| OverflowError
| StatisticsError
| AttributeError.

Inductive outcome (A : Type) : Type :=
| Ok (a : A)
| Raise (e : exn).
Arguments Ok {A} a.
Arguments Raise {A} e.

Definition obind {A B} (m : outcome A) (k : A -> outcome B) : outcome B :=
  match m with
  | Ok a => k a
  | Raise e => Raise e
  end.

Declare Scope outcome_scope.
Delimit Scope outcome_scope with outcome.
Notation "x <- m ;; k" := (obind m (fun x => k))
  (at level 61, m at next level, right associativity) : outcome_scope.

Definition is_raise {A} (o : outcome A) : bool :=
  match o with Ok _ => false | Raise _ => true end.

(** [[f(x) for x in l]] where [f] may raise: elements are visited left to
    right and the first exception aborts the comprehension. *)
Fixpoint omap {A B} (f : A -> outcome B) (l : list A) : outcome (list B) :=
  match l with
  | [] => Ok []
  | x :: l' =>
      (y <- f x ;; ys <- omap f l' ;; Ok (y :: ys))%outcome
  end.

(** [[x for x in l if p(x)]] where [p] may raise. *)
Fixpoint ofilter {A} (p : A -> outcome bool) (l : list A) : outcome (list A) :=
  match l with
  | [] => Ok []
  | x :: l' =>
      (b <- p x ;; ys <- ofilter p l' ;; Ok (if b then x :: ys else ys))%outcome
  end.

(** ** Python floats (binary64) *)

Module PyFloat.

#[local] Open Scope float_scope.

(** [float(z)] for an int: the nearest binary64 value, ties to even.
    CPython raises [OverflowError] above the largest finite float. *)
Definition of_int (z : Z) : outcome float :=
  let r := binary_normalize prec emax z 0 false in
  match r with
  | S754_infinity _ => Raise OverflowError
  | _ => Ok (SF2Prim r)
  end.

(** The exact rational value [m * 2^e] of a finite float, as the pair
    [(m, e)] with [m] signed. *)
Definition scaled (x : spec_float) : option (Z * Z) :=
  match x with
  | S754_zero _ => Some (0%Z, 0%Z)
  | S754_finite s m e => Some (cond_Zopp s (Zpos m), e)
  | _ => None
  end.

(** C's [fmod]: the exact remainder of the truncated division, with the
    sign of the dividend.  The result is representable, so the final
    rounding is exact. *)
Definition fmod (x y : float) : float :=
  match Prim2SF x, Prim2SF y with
  | S754_nan, _ | _, S754_nan => nan
  | S754_infinity _, _ => nan
  | _, S754_zero _ => nan
  | _, S754_infinity _ => x
  | S754_zero _, _ => x
  | S754_finite sx mx ex, S754_finite sy my ey =>
      let e := Z.min ex ey in
      let X := (Zpos mx * 2 ^ (ex - e))%Z in
      let Y := (Zpos my * 2 ^ (ey - e))%Z in
      SF2Prim (binary_normalize prec emax (cond_Zopp sx (X mod Y)) e sx)
  end.

(** [float.__mod__] (CPython [float_rem]): the remainder takes the sign of
    the divisor; a zero divisor raises. *)
Definition mod_ (vx wx : float) : outcome float :=
  if is_zero wx then Raise ZeroDivisionError
  else
    let m := fmod vx wx in
    if is_nan m then Ok m
    else if is_zero m then Ok (if get_sign wx then neg_zero else zero)
    else if Bool.eqb (wx <? 0) (m <? 0) then Ok m
    else Ok (m + wx).

(** [float.__truediv__]: a zero divisor raises instead of producing an
    infinity or a NaN. *)
Definition truediv (x y : float) : outcome float :=
  if is_zero y then Raise ZeroDivisionError else Ok (x / y).

(** [a / b] on ints (CPython [long_true_divide]): the correctly rounded
    quotient, whatever the size of the operands. *)
Definition int_truediv (a b : Z) : outcome float :=
  if (b =? 0)%Z then Raise ZeroDivisionError
  else
    let s := xorb (a <? 0)%Z (b <? 0)%Z in
    if (a =? 0)%Z then Ok (if s then neg_zero else zero)
    else
      let '(q, e, l) := SFdiv_core_binary prec emax (Z.abs a) 0 (Z.abs b) 0 in
      match binary_round_aux prec emax s q e l with
      | S754_infinity _ => Raise OverflowError
      | r => Ok (SF2Prim r)
      end.

End PyFloat.

(** ** Python strings *)

Module PyStr.

Definition chars : string -> list ascii := list_ascii_of_string.
Definition of_chars : list ascii -> string := string_of_list_ascii.

Definition is_digit (c : ascii) : bool :=
  let n := nat_of_ascii c in (48 <=? n)%nat && (n <=? 57)%nat.

Definition digit_val (c : ascii) : Z := Z.of_nat (nat_of_ascii c) - 48.

(** [str.isspace] on ASCII: tab, line feed, vertical tab, form feed,
    carriage return, the four separators 0x1c-0x1f and space. *)
Definition is_space (c : ascii) : bool :=
  let n := nat_of_ascii c in
  ((9 <=? n)%nat && (n <=? 13)%nat) || ((28 <=? n)%nat && (n <=? 32)%nat).

Definition lower_char (c : ascii) : ascii :=
  let n := nat_of_ascii c in
  if ((65 <=? n)%nat && (n <=? 90)%nat)%bool then ascii_of_nat (n + 32) else c.

(** [s.lower()] *)
Definition lower (s : string) : string := of_chars (map lower_char (chars s)).

(** [s.split(sep)] for a one-character separator: empty fields are kept
    and the result is never empty. *)
Fixpoint split_on_aux (sep : ascii) (cur : list ascii) (l : list ascii)
  : list string :=
  match l with
  | [] => [of_chars (rev cur)]
  | c :: l' =>
      if Ascii.eqb c sep then of_chars (rev cur) :: split_on_aux sep [] l'
      else split_on_aux sep (c :: cur) l'
  end.

Definition split_on (sep : ascii) (s : string) : list string :=
  split_on_aux sep [] (chars s).

(** [s.split()]: fields are the maximal runs of non-whitespace. *)
Fixpoint split_ws_aux (cur : list ascii) (l : list ascii) : list string :=
  match l with
  | [] => match cur with [] => [] | _ => [of_chars (rev cur)] end
  | c :: l' =>
      if is_space c then
        match cur with
        | [] => split_ws_aux [] l'
        | _ => of_chars (rev cur) :: split_ws_aux [] l'
        end
      else split_ws_aux (c :: cur) l'
  end.

Definition split (s : string) : list string := split_ws_aux [] (chars s).

Fixpoint lstrip (l : list ascii) : list ascii :=
  match l with
  | c :: l' => if is_space c then lstrip l' else l
  | [] => []
  end.

Definition strip (l : list ascii) : list ascii := rev (lstrip (rev (lstrip l))).

(** Decimal digits with single underscores between them, read left to
    right; [prev_digit] tells whether a digit came just before. *)
Fixpoint digits_value (acc : Z) (prev_digit : bool) (l : list ascii)
  : option Z :=
  match l with
  | [] => if prev_digit then Some acc else None
  | c :: l' =>
      if is_digit c then digits_value (10 * acc + digit_val c) true l'
      else if (Ascii.eqb c "_"%char && prev_digit)%bool then digits_value acc false l'
      else None
  end.

(** [int(s)] in base ten: surrounding whitespace, an optional sign, then
    digits.  Anything else raises [ValueError]. *)
Definition to_int (s : string) : outcome Z :=
  let body := strip (chars s) in
  let '(neg, ds) :=
    match body with
    | c :: r => if Ascii.eqb c "-"%char then (true, r)
                else if Ascii.eqb c "+"%char then (false, r)
                else (false, body)
    | [] => (false, body)
    end in
  match digits_value 0 false ds with
  | Some v => Ok (if neg then - v else v)
  | None => Raise ValueError
  end.

(** [set(l)] as a duplicate-free list, and the sizes of [a & b], [a | b]. *)
Fixpoint mem (x : string) (l : list string) : bool :=
  match l with
  | [] => false
  | y :: l' => String.eqb x y || mem x l'
  end.

Fixpoint to_set (l : list string) : list string :=
  match l with
  | [] => []
  | x :: l' => let r := to_set l' in if mem x r then r else x :: r
  end.

Definition inter (a b : list string) : list string :=
  filter (fun x => mem x b) a.

Definition union (a b : list string) : list string :=
  a ++ filter (fun x => negb (mem x a)) b.

End PyStr.

(** ** Calendar dates *)

Record date_ : Type := mkDate { year : Z; month : Z; day : Z }.

Module PyDate.

Definition is_leap (y : Z) : bool :=
  ((y mod 4 =? 0) && (negb (y mod 100 =? 0) || (y mod 400 =? 0)))%bool.

Definition days_in_month (y m : Z) : Z :=
  match m with
  | 2 => if is_leap y then 29 else 28
  | 4 | 6 | 9 | 11 => 30
  | _ => 31
  end.

Definition days_before_year (y : Z) : Z :=
  let p := y - 1 in p * 365 + p / 4 - p / 100 + p / 400.

Definition days_before_month (y m : Z) : Z :=
  fold_left (fun acc k => acc + days_in_month y k)
            (map Z.of_nat (seq 1 (Z.to_nat (m - 1)))) 0.

(** [date.toordinal()]: day 1 is 0001-01-01. *)
Definition toordinal (d : date_) : Z :=
  days_before_year (year d) + days_before_month (year d) (month d) + day d.

(** [(a - b).days] *)
Definition sub_days (a b : date_) : Z := toordinal a - toordinal b.

(** The key order [sorted] uses on dates. *)
Definition leb (a b : date_) : bool := toordinal a <=? toordinal b.

Definition dv := PyStr.digit_val.
Definition dg := PyStr.is_digit.

(** The [%m] field, [1[0-2]|0[1-9]|[1-9]]: the first alternative that
    the dash can follow. *)
Definition parse_month (l : list ascii) : option (Z * list ascii) :=
  let two :=
    match l with
    | a :: b :: "-"%char :: r =>
        if (Ascii.eqb a "1"%char && dg b && (dv b <=? 2))%bool
        then Some (10 + dv b, r)
        else if (Ascii.eqb a "0"%char && dg b && (1 <=? dv b))%bool
        then Some (dv b, r)
        else None
    | _ => None
    end in
  match two, l with
  | Some v, _ => Some v
  | None, a :: "-"%char :: r =>
      if (dg a && (1 <=? dv a))%bool then Some (dv a, r) else None
  | None, _ => None
  end.

(** The [%d] field, [3[01]|[12]\d|0[1-9]|[1-9]| [1-9]]: the first
    alternative that matches; what follows it must be the end of the
    string ("unconverted data remains" otherwise). *)
Definition parse_day (l : list ascii) : option Z :=
  let two a b :=
    if (Ascii.eqb a "3"%char && dg b && (dv b <=? 1))%bool then Some (30 + dv b)
    else if (dg a && (1 <=? dv a) && (dv a <=? 2) && dg b)%bool
         then Some (10 * dv a + dv b)
    else if (Ascii.eqb a "0"%char && dg b && (1 <=? dv b))%bool then Some (dv b)
    else None in
  let one a := if (dg a && (1 <=? dv a))%bool then Some (dv a) else None in
  match l with
  | [a] => one a
  | [a; b] =>
      match two a b with
      | Some d => Some d
      | None => if (Ascii.eqb a " "%char && dg b && (1 <=? dv b))%bool
                then Some (dv b) else None
      end
  | _ => None
  end.

(** [datetime.strptime(s, "%Y-%m-%d").date()]: four digits, a dash, the
    month, a dash, the day; then the calendar check of [datetime]
    (years start at 1, the day exists in the month). *)
Definition strptime (s : string) : outcome date_ :=
  match PyStr.chars s with
  | y1 :: y2 :: y3 :: y4 :: "-"%char :: r =>
      if (dg y1 && dg y2 && dg y3 && dg y4)%bool then
        let y := 1000 * dv y1 + 100 * dv y2 + 10 * dv y3 + dv y4 in
        match parse_month r with
        | Some (m, r') =>
            match parse_day r' with
            | Some d =>
                if ((1 <=? y) && (d <=? days_in_month y m))%bool
                then Ok (mkDate y m d)
                else Raise ValueError
            | None => Raise ValueError
            end
        | None => Raise ValueError
        end
      else Raise ValueError
  | _ => Raise ValueError
  end.

End PyDate.

(** ** Python numbers: ints and floats mixed at run time *)

Inductive num : Type :=
| NInt (z : Z)
| NFloat (f : float).

Module Num.

Definition to_float (x : num) : outcome float :=
  match x with
  | NInt z => PyFloat.of_int z
  | NFloat f => Ok f
  end.

(** A binary arithmetic operator: exact on two ints, otherwise both
    operands are converted to float. *)
Definition arith (iop : Z -> Z -> Z) (fop : float -> float -> float)
           (x y : num) : outcome num :=
  match x, y with
  | NInt a, NInt b => Ok (NInt (iop a b))
  | _, _ =>
      (a <- to_float x ;; b <- to_float y ;; Ok (NFloat (fop a b)))%outcome
  end.

Definition add := arith Z.add PrimFloat.add.
Definition sub := arith Z.sub PrimFloat.sub.
Definition mul := arith Z.mul PrimFloat.mul.

(** [x / y]: true division, always a float. *)
Definition div (x y : num) : outcome num :=
  match x, y with
  | NInt a, NInt b =>
      (r <- PyFloat.int_truediv a b ;; Ok (NFloat r))%outcome
  | _, _ =>
      (a <- to_float x ;; b <- to_float y ;;
       r <- PyFloat.truediv a b ;; Ok (NFloat r))%outcome
  end.

Definition abs (x : num) : num :=
  match x with
  | NInt z => NInt (Z.abs z)
  | NFloat f => NFloat (PrimFloat.abs f)
  end.

(** Comparison of an int with a float is exact: the int is never
    rounded.  [None] is the unordered case (a NaN operand). *)
Definition compare_int_float (a : Z) (f : float) : option comparison :=
  match Prim2SF f with
  | S754_nan => None
  | S754_infinity s => Some (if s then Gt else Lt)
  | S754_zero _ => Some (a ?= 0)
  | S754_finite s m e =>
      let v := cond_Zopp s (Zpos m) in
      Some (if 0 <=? e then a ?= v * 2 ^ e else a * 2 ^ (- e) ?= v)
  end.

Definition compare (x y : num) : option comparison :=
  match x, y with
  | NInt a, NInt b => Some (a ?= b)
  | NInt a, NFloat f => compare_int_float a f
  | NFloat f, NInt b => option_map CompOpp (compare_int_float b f)
  | NFloat f, NFloat g =>
      match PrimFloat.compare f g with
      | FEq => Some Eq
      | FLt => Some Lt
      | FGt => Some Gt
      | FNotComparable => None
      end
  end.

Definition eqb (x y : num) : bool :=
  match compare x y with Some Eq => true | _ => false end.
Definition ltb (x y : num) : bool :=
  match compare x y with Some Lt => true | _ => false end.
Definition leb (x y : num) : bool :=
  match compare x y with Some (Lt | Eq) => true | _ => false end.
Definition gtb (x y : num) : bool := ltb y x.

(** [max(a, b)] keeps [a] unless [b > a]; [min(a, b)] keeps [a] unless
    [b < a]. *)
Definition max (a b : num) : num := if gtb b a then b else a.
Definition min (a b : num) : num := if ltb b a then b else a.

End Num.

(** ** The [statistics] module and the built-in [sum] *)

Module Statistics.

Definition sumZ (l : list Z) : Z := fold_left Z.add l 0.

(** [int.bit_length] of a non-negative int. *)
Definition bit_length (n : Z) : Z := if n =? 0 then 0 else Z.log2 n + 1.

(** [_integer_sqrt_of_frac_rto(n, m)]: the square root of [n/m] rounded
    to an integer, to odd when inexact. *)
Definition integer_sqrt_of_frac_rto (n m : Z) : Z :=
  let a := Z.sqrt (n / m) in
  Z.lor a (if a * a * m =? n then 0 else 1).

Definition sqrt_bit_width : Z := 2 * 53 + 3.

(** [_float_sqrt_of_frac(n, m)]: the correctly rounded square root of the
    fraction [n/m]. *)
Definition float_sqrt_of_frac (n m : Z) : outcome float :=
  let q := (bit_length n - bit_length m - sqrt_bit_width) / 2 in
  if 0 <=? q then
    PyFloat.int_truediv
      (Z.shiftl (integer_sqrt_of_frac_rto n (Z.shiftl m (2 * q))) q) 1
  else
    PyFloat.int_truediv
      (integer_sqrt_of_frac_rto (Z.shiftl n (- 2 * q)) m) (Z.shiftl 1 (- q)).

(** A [Fraction] is kept in lowest terms with a positive denominator. *)
Definition reduce (n d : Z) : Z * Z :=
  let g := Z.gcd n d in (n / g, d / g).

(** [statistics.mean] on ints: the exact mean, an int when it is whole
    and the nearest float otherwise. *)
Definition mean (data : list Z) : outcome num :=
  match data with
  | [] => Raise StatisticsError
  | _ =>
      let '(n, d) := reduce (sumZ data) (Z.of_nat (List.length data)) in
      if d =? 1 then Ok (NInt n)
      else (r <- PyFloat.int_truediv n d ;; Ok (NFloat r))%outcome
  end.

(** The exact sample variance of values [m_i * 2^e], as a fraction:
    [(n * sum m_i^2 - (sum m_i)^2) * 2^(2e) / (n * (n - 1))]. *)
Definition variance_frac (ms : list Z) (e : Z) : Z * Z :=
  let n := Z.of_nat (List.length ms) in
  let sx := sumZ ms in
  let sxx := sumZ (map (fun m => m * m) ms) in
  let v := n * sxx - sx * sx in
  if 0 <=? e then reduce (v * 2 ^ (2 * e)) (n * (n - 1))
  else reduce v (n * (n - 1) * 2 ^ (- 2 * e)).

(** [statistics.stdev] on ints. *)
Definition stdev (data : list Z) : outcome float :=
  if (List.length data <? 2)%nat then Raise StatisticsError
  else
    let '(n, d) := variance_frac data 0 in
    float_sqrt_of_frac n d.

(** [statistics.stdev] on floats: the data are read as exact ratios; a
    NaN or an infinity among them has none and the call fails. *)
Definition stdev_floats (data : list float) : outcome float :=
  if (List.length data <? 2)%nat then Raise StatisticsError
  else
    let sc := map (fun x => PyFloat.scaled (Prim2SF x)) data in
    if forallb (fun o => match o with Some _ => true | None => false end) sc
    then
      let ps := map (fun o => match o with Some p => p | None => (0, 0) end) sc in
      let e := fold_left Z.min (map snd ps) 0 in
      let ms := map (fun '(m, ex) => m * 2 ^ (ex - e)) ps in
      let '(n, d) := variance_frac ms e in
      float_sqrt_of_frac n d
    else Raise AttributeError.

(** The built-in [sum] on floats, starting from the int [0]: the first
    item is added to it, the others by Neumaier's compensated
    summation, and a finite non-zero compensation is added last. *)
Fixpoint neumaier (f_result c : float) (l : list float) : float :=
  match l with
  | [] =>
      if (negb (is_zero c) && is_finite c)%bool
      then (f_result + c)%float else f_result
  | x :: l' =>
      let t := (f_result + x)%float in
      let c' :=
        if (PrimFloat.abs x <=? PrimFloat.abs f_result)%float
        then (c + ((f_result - t) + x))%float
        else (c + ((x - t) + f_result))%float in
      neumaier t c' l'
  end.

Definition sum (l : list float) : num :=
  match l with
  | [] => NInt 0
  | x :: l' => NFloat (neumaier (0 + x)%float 0%float l')
  end.

End Statistics.

(** ** The data model *)

(** [recur_scan.transactions.Transaction]: the three fields the features
    read.  [amount] is a Python float, [date] a [YYYY-MM-DD] string. *)
Record Transaction : Type := mkTransaction {
  name : string;
  amount : float;
  date : string
}.

(** A value stored in the feature mapping. *)
Inductive value : Type :=
| VBool (b : bool)
| VNum (n : num).

(** The mapping [detect_sequence_patterns] returns, with its three keys. *)
Record SequenceFeatures : Type := mkSequenceFeatures {
  sequence_confidence : num;
  sequence_pattern : string;
  sequence_length : Z
}.

(** ** The store and the computations over it

    Python passes objects by reference.  The store holds what a feature
    call can reach: the two objects the caller owns (the reference
    transaction and the history list) and the memo table that
    [functools.lru_cache] attaches to [_parse_date], most recently used
    entry first. *)

Record Store : Type := mkStore {
  obj_transaction : Transaction;
  obj_all_transactions : list Transaction;
  parse_cache : list (string * date_)
}.

Definition M (A : Type) : Type := Store -> outcome A * Store.

Definition ret {A} (a : A) : M A := fun s => (Ok a, s).

Definition raise {A} (e : exn) : M A := fun s => (Raise e, s).

Definition lift {A} (o : outcome A) : M A := fun s => (o, s).

Definition bind {A B} (m : M A) (k : A -> M B) : M B :=
  fun s =>
    match m s with
    | (Ok a, s') => k a s'
    | (Raise e, s') => (Raise e, s')
    end.

Declare Scope py_scope.
Delimit Scope py_scope with py.
Notation "x <- m ;; k" := (bind m (fun x => k))
  (at level 61, m at next level, right associativity) : py_scope.
Notation "' p <- m ;; k" := (bind m (fun x => let 'p := x in k))
  (at level 61, p pattern, m at next level, right associativity) : py_scope.

(** A comprehension whose element expression runs in the store. *)
Fixpoint mapM {A B} (f : A -> M B) (l : list A) : M (list B) :=
  match l with
  | [] => ret []
  | x :: l' => (y <- f x ;; ys <- mapM f l' ;; ret (y :: ys))%py
  end.

(** A comprehension whose condition runs in the store. *)
Fixpoint filterM {A} (p : A -> M bool) (l : list A) : M (list A) :=
  match l with
  | [] => ret []
  | x :: l' =>
      (b <- p x ;; ys <- filterM p l' ;; ret (if b then x :: ys else ys))%py
  end.

(** A [for] loop that updates one local variable. *)
Fixpoint foldM {A B} (body : B -> A -> M B) (l : list A) (acc : B) : M B :=
  match l with
  | [] => ret acc
  | x :: l' => (acc' <- body acc x ;; foldM body l' acc')%py
  end.

Fixpoint ofold {A B} (body : B -> A -> outcome B) (l : list A) (acc : B)
  : outcome B :=
  match l with
  | [] => Ok acc
  | x :: l' => (acc' <- body acc x ;; ofold body l' acc')%outcome
  end.

(** [sorted]: a stable sort, smallest first. *)
Fixpoint insert_sorted {A} (le : A -> A -> bool) (x : A) (l : list A) : list A :=
  match l with
  | [] => [x]
  | y :: l' => if le x y then x :: l else y :: insert_sorted le x l'
  end.

Definition sorted {A} (le : A -> A -> bool) (l : list A) : list A :=
  fold_right (insert_sorted le) [] l.

(** The pairs [(l[i-1], l[i])] for [i] in [range(1, len(l))]. *)
Fixpoint adjacent {A} (l : list A) : list (A * A) :=
  match l with
  | x :: (y :: _) as l' => (x, y) :: adjacent l'
  | _ => []
  end.

Definition len {A} (l : list A) : Z := Z.of_nat (List.length l).

(** [a % b] on ints: the remainder has the sign of [b]. *)
Definition int_mod (a b : Z) : outcome Z :=
  if b =? 0 then Raise ZeroDivisionError else Ok (a mod b).

(** ** _parse_date and its cache *)

Definition lru_maxsize : nat := 1024.

Fixpoint cache_lookup (k : string) (c : list (string * date_)) : option date_ :=
  match c with
  | [] => None
  | (k', d) :: c' => if String.eqb k k' then Some d else cache_lookup k c'
  end.

Fixpoint cache_remove (k : string) (c : list (string * date_))
  : list (string * date_) :=
  match c with
  | [] => []
  | (k', d) :: c' => if String.eqb k k' then c' else (k', d) :: cache_remove k c'
  end.

Definition set_cache (s : Store) (c : list (string * date_)) : Store :=
  mkStore (obj_transaction s) (obj_all_transactions s) c.

(** A hit returns the stored date and makes the entry the most recent one.
    A miss parses; a failed parse stores nothing, a successful one is
    stored and the least recently used entry leaves a full table. *)
Definition _parse_date (date_str : string) : M date_ :=
  fun s =>
    match cache_lookup date_str (parse_cache s) with
    | Some d =>
        (Ok d, set_cache s ((date_str, d) :: cache_remove date_str (parse_cache s)))
    | None =>
        match PyDate.strptime date_str with
        | Ok d =>
            (Ok d, set_cache s (firstn lru_maxsize ((date_str, d) :: parse_cache s)))
        | Raise e => (Raise e, s)
        end
    end.

(** ** detect_sequence_patterns *)

Definition no_sequence : SequenceFeatures :=
  mkSequenceFeatures (NFloat 0) "none" 0.

(** The amount test of the comprehension:
    [abs(t.amount - transaction.amount) / transaction.amount < 0.05]. *)
Definition amount_close (transaction t : Transaction) : outcome bool :=
  (r <- PyFloat.truediv (abs (amount t - amount transaction)) (amount transaction) ;;
   Ok (r <? 0.05)%float)%outcome.

Definition same_vendor (transaction t : Transaction) : bool :=
  String.eqb (PyStr.lower (name t)) (PyStr.lower (name transaction)).

(** The local [vendor_txs]. *)
Definition vendor_txs (transaction : Transaction)
           (all_transactions : list Transaction) : outcome (list Transaction) :=
  ofilter (fun t => if same_vendor transaction t
                    then amount_close transaction t else Ok false)
          all_transactions.

Definition patterns : list (string * Z) :=
  [("weekly", 7); ("monthly", 30); ("yearly", 365)].

(** One turn of the loop over [patterns]; [best] is the pair
    [(best_pattern, best_confidence)]. *)
Definition pattern_step (avg_interval stdev_interval : num)
           (best : string * num) (p : string * Z) : outcome (string * num) :=
  let '(pname, expected_interval) := p in
  (d <- Num.sub avg_interval (NInt expected_interval) ;;
   let deviation := Num.abs d in
   tol <- Num.mul (NInt expected_interval) (NFloat 0.1) ;;
   let tolerance := Num.max (NInt 2) tol in
   if Num.leb deviation tolerance then
     den <- Num.add (NInt expected_interval) (NFloat 1e-6) ;;
     q <- Num.div stdev_interval den ;;
     confidence <- Num.sub (NInt 1) q ;;
     if Num.gtb confidence (snd best)
     then Ok (pname, Num.max (NInt 0) (Num.min (NInt 1) confidence))
     else Ok best
   else Ok best)%outcome.

Definition best_pattern_of (avg_interval stdev_interval : num)
  : outcome (string * num) :=
  ofold (pattern_step avg_interval stdev_interval) patterns ("none", NFloat 0).

(** [sorted(vendor_txs, key=lambda x: _parse_date(x.date))]: the keys are
    computed first, one per element, then the list is sorted on them. *)
Definition sorted_by_date (txs : list Transaction) : M (list Transaction) :=
  (keys <- mapM (fun t => _parse_date (date t)) txs ;;
   ret (map snd (sorted (fun a b => PyDate.leb (fst a) (fst b))
                        (combine keys txs))))%py.

Definition day_gaps (txs_sorted : list Transaction) : M (list Z) :=
  mapM (fun '(prev, cur) =>
          (a <- _parse_date (date cur) ;;
           b <- _parse_date (date prev) ;;
           ret (PyDate.sub_days a b))%py)
       (adjacent txs_sorted).

Definition detect_sequence_patterns (transaction : Transaction)
           (all_transactions : list Transaction) (min_occurrences : Z)
  : M SequenceFeatures :=
  if (amount transaction =? 0)%float then ret no_sequence
  else
    (vendor <- lift (vendor_txs transaction all_transactions) ;;
     if len vendor <? min_occurrences then ret no_sequence
     else
       vendor_txs_sorted <- sorted_by_date vendor ;;
       intervals <- day_gaps vendor_txs_sorted ;;
       avg_interval <- lift (Statistics.mean intervals) ;;
       stdev_interval <-
         (if 1 <? len intervals
          then (sd <- lift (Statistics.stdev intervals) ;; ret (NFloat sd))
          else ret (NInt 0)) ;;
       best <- lift (best_pattern_of avg_interval stdev_interval) ;;
       ret (mkSequenceFeatures (snd best) (fst best) (len vendor)))%py.

(** ** Vendor heuristics *)

Definition get_is_always_recurring (transaction : Transaction) : bool :=
  existsb (String.eqb (PyStr.lower (name transaction)))
          ["google storage"; "netflix"; "hulu"; "spotify"].

(** [\w] on ASCII. *)
Definition is_word_char (c : ascii) : bool :=
  let n := nat_of_ascii c in
  (((48 <=? n) && (n <=? 57)) || ((65 <=? n) && (n <=? 90))
   || ((97 <=? n) && (n <=? 122)) || (n =? 95))%nat.

Fixpoint starts_with (w l : list ascii) : option (list ascii) :=
  match w, l with
  | [], _ => Some l
  | a :: w', b :: l' => if Ascii.eqb a b then starts_with w' l' else None
  | _ :: _, [] => None
  end.

(** [re.search(r"\b(w1|w2|...)\b", text, re.IGNORECASE)] for words that
    begin and end with a word character: some occurrence of a word has no
    word character just before it and none just after it. *)
Fixpoint word_search_from (words : list (list ascii)) (prev_is_word : bool)
         (l : list ascii) : bool :=
  let here :=
    negb prev_is_word &&
    existsb (fun w => match starts_with w l with
                      | Some (c :: _) => negb (is_word_char c)
                      | Some [] => true
                      | None => false
                      end) words in
  match l with
  | [] => false
  | c :: l' => here || word_search_from words (is_word_char c) l'
  end.

Definition word_search (words : list string) (text : string) : bool :=
  word_search_from (map PyStr.chars words) false
                   (map PyStr.lower_char (PyStr.chars text)).

Definition get_is_insurance (transaction : Transaction) : bool :=
  word_search ["insurance"; "insur"; "insuranc"] (name transaction).

Definition get_is_utility (transaction : Transaction) : bool :=
  word_search ["utility"; "utilit"; "energy"] (name transaction).

Definition get_is_phone (transaction : Transaction) : bool :=
  word_search ["at&t"; "t-mobile"; "verizon"] (name transaction).

(** ** Interval and day-of-month matching *)

Definition get_n_transactions_days_apart (transaction : Transaction)
           (all_transactions : list Transaction) (n_days_apart n_days_off : Z)
  : M Z :=
  (transaction_date <- _parse_date (date transaction) ;;
   let lower_remainder := n_days_apart - n_days_off in
   let upper_remainder := n_days_off in
   foldM (fun n_txs t =>
            t_date <- _parse_date (date t) ;;
            let days_diff := Z.abs (PyDate.sub_days t_date transaction_date) in
            if days_diff <? n_days_apart - n_days_off then ret n_txs
            else
              remainder <- lift (int_mod days_diff n_days_apart) ;;
              if (remainder <=? upper_remainder) || (lower_remainder <=? remainder)
              then ret (n_txs + 1)
              else ret n_txs)
         all_transactions 0)%py.

Definition get_pct_transactions_days_apart (transaction : Transaction)
           (all_transactions : list Transaction) (n_days_apart n_days_off : Z)
  : M float :=
  (n <- get_n_transactions_days_apart transaction all_transactions
                                      n_days_apart n_days_off ;;
   lift (PyFloat.int_truediv n (len all_transactions)))%py.

Definition _get_day (date : string) : outcome Z :=
  match nth_error (PyStr.split_on "-"%char date) 2 with
  | Some field => PyStr.to_int field
  | None => Raise IndexError
  end.

Definition get_n_transactions_same_day (transaction : Transaction)
           (all_transactions : list Transaction) (n_days_off : Z) : outcome Z :=
  (l <- ofilter (fun t =>
                   a <- _get_day (date t) ;;
                   b <- _get_day (date transaction) ;;
                   Ok (Z.abs (a - b) <=? n_days_off))
                all_transactions ;;
   Ok (len l))%outcome.

Definition get_pct_transactions_same_day (transaction : Transaction)
           (all_transactions : list Transaction) (n_days_off : Z) : outcome float :=
  (n <- get_n_transactions_same_day transaction all_transactions n_days_off ;;
   PyFloat.int_truediv n (len all_transactions))%outcome.

(** ** get_ends_in_99 *)

Definition get_ends_in_99 (transaction : Transaction) : outcome bool :=
  (r <- PyFloat.mod_ (amount transaction * 100)%float 100%float ;;
   Ok (r =? 99)%float)%outcome.

(** ** get_is_recurring *)

Definition is_similar (transaction t : Transaction) : bool :=
  (amount t =? amount transaction)%float
  && String.eqb (name t) (name transaction)
  && negb (String.eqb (date t) (date transaction)).

Definition periodic (interval : Z) : bool :=
  (interval mod 7 =? 0) || (interval mod 14 =? 0) || (interval mod 30 =? 0).

Definition get_is_recurring (transaction : Transaction)
           (all_transactions : list Transaction) : M bool :=
  (transaction_date <- _parse_date (date transaction) ;;
   let similar_transactions := filter (is_similar transaction) all_transactions in
   match similar_transactions with
   | [] => ret false
   | _ =>
       gaps <- mapM (fun t =>
                       d <- _parse_date (date t) ;;
                       ret (Z.abs (PyDate.sub_days transaction_date d)))
                    similar_transactions ;;
       let intervals := sorted Z.leb gaps in
       ret (existsb periodic intervals)
   end)%py.

(** ** get_recurring_transaction_confidence *)

(** The condition shared by the comparison comprehensions:
    [t.name == transaction.name and t.date != transaction.date]. *)
Definition is_comparison (transaction t : Transaction) : bool :=
  String.eqb (name t) (name transaction)
  && negb (String.eqb (date t) (date transaction)).

(** 1. Amount stability *)
Definition amount_stability (transaction : Transaction)
           (all_transactions : list Transaction) : outcome num :=
  let similar_transactions :=
    map amount (filter (is_comparison transaction) all_transactions) in
  if len similar_transactions <? 2 then Ok (NFloat 1)
  else
    (mean <- Num.div (Statistics.sum similar_transactions)
                     (NInt (len similar_transactions)) ;;
     stdev <- Statistics.stdev_floats similar_transactions ;;
     if negb (Num.eqb mean (NInt 0)) then Num.div (NFloat stdev) mean
     else Ok (NFloat 1))%outcome.

(** 2. Interval regularity *)
Definition interval_regularities (transaction : Transaction)
           (all_transactions : list Transaction) : M num :=
  (similar_dates <- mapM (fun t => _parse_date (date t))
                         (filter (is_comparison transaction) all_transactions) ;;
   if len similar_dates <? 2 then ret (NFloat infinity)
   else
     let intervals :=
       map (fun '(prev, cur) => PyDate.sub_days cur prev) (adjacent similar_dates) in
     if len intervals <? 2 then ret (NFloat infinity)
     else (sd <- lift (Statistics.stdev intervals) ;; ret (NFloat sd)))%py.

(** 3. Transaction frequency *)
Definition transaction_frequency (transaction : Transaction)
           (all_transactions : list Transaction) : M Z :=
  (transaction_date <- _parse_date (date transaction) ;;
   near <- filterM (fun t =>
                      if String.eqb (name t) (name transaction)
                      then (d <- _parse_date (date t) ;;
                            ret (Z.abs (PyDate.sub_days d transaction_date) <=? 30))
                      else ret false)
                   all_transactions ;;
   ret (len near))%py.

(** 4. Metadata similarity *)
Definition jaccard_similarity (set1 set2 : list string) : outcome float :=
  let intersection := len (PyStr.inter set1 set2) in
  let union := len (PyStr.union set1 set2) in
  if negb (union =? 0) then PyFloat.int_truediv intersection union
  else Ok 0%float.

Definition metadata_similarity (transaction : Transaction)
           (all_transactions : list Transaction) : outcome num :=
  (metadata_similarities <-
     omap (fun t => jaccard_similarity
                      (PyStr.to_set (PyStr.split (name transaction)))
                      (PyStr.to_set (PyStr.split (name t))))
          (filter (is_comparison transaction) all_transactions) ;;
   match metadata_similarities with
   | [] => Ok (NFloat 0)
   | _ => Num.div (Statistics.sum metadata_similarities)
                  (NInt (len metadata_similarities))
   end)%outcome.

(** One weighted term [(1 / (1 + x)) * w]. *)
Definition inverse_term (x : num) (w : float) : outcome num :=
  (d <- Num.add (NInt 1) x ;;
   q <- Num.div (NInt 1) d ;;
   Num.mul q (NFloat w))%outcome.

Definition frequency_term (transaction_frequency : Z) : outcome num :=
  (q <- Num.div (NInt transaction_frequency)
                (Num.max (NInt transaction_frequency) (NInt 1)) ;;
   Num.mul q (NFloat 0.2))%outcome.

(** 5. The weighted sum, its terms evaluated and added left to right. *)
Definition confidence_score (amount_stability interval_regularities : num)
           (transaction_frequency : Z) (metadata_similarity : num)
  : outcome num :=
  (t1 <- inverse_term amount_stability 0.3 ;;
   t2 <- inverse_term interval_regularities 0.3 ;;
   s2 <- Num.add t1 t2 ;;
   t3 <- frequency_term transaction_frequency ;;
   s3 <- Num.add s2 t3 ;;
   t4 <- Num.mul metadata_similarity (NFloat 0.2) ;;
   Num.add s3 t4)%outcome.

Definition get_recurring_transaction_confidence (transaction : Transaction)
           (all_transactions : list Transaction) : M num :=
  (stability <- lift (amount_stability transaction all_transactions) ;;
   regularity <- interval_regularities transaction all_transactions ;;
   frequency <- transaction_frequency transaction all_transactions ;;
   similarity <- lift (metadata_similarity transaction all_transactions) ;;
   lift (confidence_score stability regularity frequency similarity))%py.

(** ** Same-amount counts *)

Definition same_amount (transaction t : Transaction) : bool :=
  (amount t =? amount transaction)%float.

Definition get_n_transactions_same_amount (transaction : Transaction)
           (all_transactions : list Transaction) : Z :=
  len (filter (same_amount transaction) all_transactions).

Definition get_percent_transactions_same_amount (transaction : Transaction)
           (all_transactions : list Transaction) : outcome float :=
  match all_transactions with
  | [] => Ok 0%float
  | _ =>
      let n_same_amount := len (filter (same_amount transaction) all_transactions) in
      PyFloat.int_truediv n_same_amount (len all_transactions)
  end.

(** ** get_features *)

Definition one_hot (b : bool) : value := VNum (NFloat (if b then 1 else 0)).

(** The dict display, its entries evaluated in the order written. *)
Definition get_features (transaction : Transaction)
           (all_transactions : list Transaction) : M (list (string * value)) :=
  let t := transaction in
  let h := all_transactions in
  (sequence_features <- detect_sequence_patterns t h 3 ;;
   let f01 := get_n_transactions_same_amount t h in
   f02 <- lift (get_percent_transactions_same_amount t h) ;;
   f03 <- lift (get_ends_in_99 t) ;;
   let f04 := amount t in
   f05 <- lift (get_n_transactions_same_day t h 0) ;;
   f06 <- lift (get_pct_transactions_same_day t h 0) ;;
   f07 <- lift (get_n_transactions_same_day t h 1) ;;
   f08 <- lift (get_n_transactions_same_day t h 2) ;;
   f09 <- get_n_transactions_days_apart t h 14 0 ;;
   f10 <- get_pct_transactions_days_apart t h 14 0 ;;
   f11 <- get_n_transactions_days_apart t h 14 1 ;;
   f12 <- get_pct_transactions_days_apart t h 14 1 ;;
   f13 <- get_n_transactions_days_apart t h 7 0 ;;
   f14 <- get_pct_transactions_days_apart t h 7 0 ;;
   f15 <- get_n_transactions_days_apart t h 7 1 ;;
   f16 <- get_pct_transactions_days_apart t h 7 1 ;;
   let f17 := get_is_insurance t in
   let f18 := get_is_utility t in
   let f19 := get_is_phone t in
   let f20 := get_is_always_recurring t in
   f21 <- get_is_recurring t h ;;
   f22 <- get_recurring_transaction_confidence t h ;;
   ret [ ("n_transactions_same_amount", VNum (NInt f01));
         ("percent_transactions_same_amount", VNum (NFloat f02));
         ("ends_in_99", VBool f03);
         ("amount", VNum (NFloat f04));
         ("same_day_exact", VNum (NInt f05));
         ("pct_transactions_same_day", VNum (NFloat f06));
         ("same_day_off_by_1", VNum (NInt f07));
         ("same_day_off_by_2", VNum (NInt f08));
         ("14_days_apart_exact", VNum (NInt f09));
         ("pct_14_days_apart_exact", VNum (NFloat f10));
         ("14_days_apart_off_by_1", VNum (NInt f11));
         ("pct_14_days_apart_off_by_1", VNum (NFloat f12));
         ("7_days_apart_exact", VNum (NInt f13));
         ("pct_7_days_apart_exact", VNum (NFloat f14));
         ("7_days_apart_off_by_1", VNum (NInt f15));
         ("pct_7_days_apart_off_by_1", VNum (NFloat f16));
         ("is_insurance", VBool f17);
         ("is_utility", VBool f18);
         ("is_phone", VBool f19);
         ("is_always_recurring", VBool f20);
         ("is_recurring", VBool f21);
         ("recurring_transaction_confidence", VNum f22);
         ("sequence_confidence", VNum (sequence_confidence sequence_features));
         ("is_sequence_weekly",
          one_hot (String.eqb (sequence_pattern sequence_features) "weekly"));
         ("is_sequence_monthly",
          one_hot (String.eqb (sequence_pattern sequence_features) "monthly"));
         ("sequence_length", VNum (NInt (sequence_length sequence_features))) ])%py.

(** A call [f(transaction, all_transactions)] by a caller that owns the
    two objects: the callee is handed what the store holds for them. *)
Definition call {A} (f : Transaction -> list Transaction -> M A) : M A :=
  fun s => f (obj_transaction s) (obj_all_transactions s) s.

Definition empty_store (transaction : Transaction)
           (all_transactions : list Transaction) : Store :=
  mkStore transaction all_transactions [].

(** * Specification vocabulary

    The predicates and functions the theorems are stated with, and the
    concrete inputs the examples run on. *)

(** Every entry of the memo table is a date [strptime] gives for its key:
    the table starts empty and only [_parse_date] writes to it. *)
Definition coherent (s : Store) : Prop :=
  Forall (fun kd => PyDate.strptime (fst kd) = Ok (snd kd)) (parse_cache s).

(** The caller's two objects are the same in [s'] as in [s]. *)
Definition same_objects (s s' : Store) : Prop :=
  obj_transaction s' = obj_transaction s
  /\ obj_all_transactions s' = obj_all_transactions s.

(** [yields m o]: from every coherent store, [m] ends with the outcome
    [o], leaves the caller's objects as they were and the memo table
    coherent. *)
Definition yields {A} (m : M A) (o : outcome A) : Prop :=
  forall s, coherent s ->
    exists s', m s = (o, s') /\ coherent s' /\ same_objects s s'.

(** The store of a fresh process, for computations that take their
    arguments as values: the memo table is empty. *)
Definition initial_store : Store := empty_store (mkTransaction "" 0 "") [].

(** The outcome of [m] in a fresh process. *)
Definition result {A} (m : M A) : outcome A := fst (m initial_store).

(** Spec-level reading of dates. *)
Definition valid_date (s : string) : bool := negb (is_raise (PyDate.strptime s)).

(** The date a well-formed string denotes, and its day number. *)
Definition date_of (s : string) : date_ :=
  match PyDate.strptime s with
  | Ok d => d
  | Raise _ => mkDate 1 1 1
  end.

Definition ordinal_of (s : string) : Z := PyDate.toordinal (date_of s).

(** [|daysBetween(a.date, b.date)|] *)
Definition days_between (a b : Transaction) : Z :=
  Z.abs (ordinal_of (date a) - ordinal_of (date b)).

(** The member test of the claim: same name, same amount, another date
    string, and a day distance that 7, 14 or 30 divides. *)
Definition recurring_match (R t : Transaction) : bool :=
  is_similar R t && periodic (days_between R t).

(** Concrete transactions for the examples. *)
Definition R_netflix : Transaction := mkTransaction "Netflix" 15.99 "2024-01-01".

Definition T_netflix_14 : Transaction := mkTransaction "Netflix" 15.99 "2024-01-15".

(** The subset of the claim, in its words: the name is the reference's
    (as strings), the amount equals the reference's (as numbers) and the
    date string is another one. *)
Definition matches_reference (R t : Transaction) : Prop :=
  name t = name R
  /\ (amount t =? amount R)%float = true
  /\ date t <> date R.

(** Evenly divisible by 7, 14 or 30. *)
Definition divisible_by_period (d : Z) : Prop :=
  (7 | d) \/ (14 | d) \/ (30 | d).

(** A history around [R_netflix]: another vendor and another amount 14
    days away, a charge on the reference's own date and a charge of the
    reference's name and amount 10 days away; then the same with one
    more charge, 30 days away. *)
Definition H_recurring_near : list Transaction :=
  [ mkTransaction "Hulu" 15.99 "2024-01-15";
    mkTransaction "Netflix" 9.99 "2024-01-15";
    mkTransaction "Netflix" 15.99 "2024-01-01";
    mkTransaction "Netflix" 15.99 "2024-01-11" ].

Definition H_recurring_month : list Transaction :=
  H_recurring_near ++ [ mkTransaction "Netflix" 15.99 "2024-01-31" ].

(** The match test of the claim on a day distance [diff]. *)
Definition near_multiple (n_days_apart n_days_off diff : Z) : bool :=
  negb (diff <? n_days_apart - n_days_off)
  && ((diff mod n_days_apart <=? n_days_off)
      || (n_days_apart - n_days_off <=? diff mod n_days_apart)).

(** The same test on a transaction [t] of the history. *)
Definition counted (R : Transaction) (n_days_apart n_days_off : Z)
           (t : Transaction) : bool :=
  near_multiple n_days_apart n_days_off (days_between t R).

(** One turn of the loop of [get_n_transactions_days_apart], the memo
    table set aside. *)
Definition days_apart_step (p tol : Z) (td : date_) (n_txs : Z)
           (t : Transaction) : outcome Z :=
  (d <- PyDate.strptime (date t) ;;
   let days_diff := Z.abs (PyDate.sub_days d td) in
   if days_diff <? p - tol then Ok n_txs
   else
     remainder <- int_mod days_diff p ;;
     if (remainder <=? tol) || (p - tol <=? remainder)
     then Ok (n_txs + 1) else Ok n_txs)%outcome.

(** The outcomes of the two date-parsing blocks, the memo table set
    aside. *)
Definition interval_regularities_outcome (R : Transaction)
           (H : list Transaction) : outcome num :=
  (similar_dates <- omap (fun t => PyDate.strptime (date t))
                         (filter (is_comparison R) H) ;;
   if len similar_dates <? 2 then Ok (NFloat infinity)
   else
     let intervals :=
       map (fun '(prev, cur) => PyDate.sub_days cur prev)
           (adjacent similar_dates) in
     if len intervals <? 2 then Ok (NFloat infinity)
     else (sd <- Statistics.stdev intervals ;; Ok (NFloat sd)))%outcome.

Definition transaction_frequency_outcome (R : Transaction)
           (H : list Transaction) : outcome Z :=
  (transaction_date <- PyDate.strptime (date R) ;;
   near <- ofilter (fun t =>
                      if String.eqb (name t) (name R)
                      then (d <- PyDate.strptime (date t) ;;
                            Ok (Z.abs (PyDate.sub_days d transaction_date) <=? 30))
                      else Ok false)
                   H ;;
   Ok (len near))%outcome.

(** Three earlier charges of one vendor, of amounts 0, -1 and -2. *)
Definition R_refunds : Transaction := mkTransaction "Acme" 5 "2024-01-01".

Definition H_refunds : list Transaction :=
  [ mkTransaction "Acme" 0 "2024-01-02";
    mkTransaction "Acme" (-1) "2024-01-03";
    mkTransaction "Acme" (-2) "2024-01-04" ].

(** [signed s x]: [x] is a zero, an infinity or a finite number of sign
    [s]; in particular [x] is not a NaN. *)
Inductive signed (s : bool) : spec_float -> Prop :=
| signed_zero : signed s (S754_zero s)
| signed_infinity : signed s (S754_infinity s)
| signed_finite m e : signed s (S754_finite s m e).

(** Zero or finite. *)
Definition sf_finite (x : spec_float) : bool :=
  match x with
  | S754_zero _ | S754_finite _ _ _ => true
  | _ => false
  end.

(** Not a NaN. *)
Definition sf_not_nan (x : spec_float) : Prop := exists s, signed s x.

(** Every element is below its right neighbour. *)
Fixpoint in_order {A} (le : A -> A -> bool) (l : list A) : bool :=
  match l with
  | x :: (y :: _) as l' => le x y && in_order le l'
  | _ => true
  end.

(** The transactions of a group, earliest first. *)
Definition chronological (txs : list Transaction) : list Transaction :=
  sorted (fun a b => ordinal_of (date a) <=? ordinal_of (date b)) txs.

(** [gaps_of txs]: the day gaps between chronological neighbours. *)
Definition gaps_of (txs : list Transaction) : list Z :=
  map (fun '(prev, cur) => ordinal_of (date cur) - ordinal_of (date prev))
      (adjacent (chronological txs)).

(** The outcomes of the blocks of [detect_sequence_patterns], the memo
    table set aside. *)
Definition sorted_by_date_outcome (txs : list Transaction)
  : outcome (list Transaction) :=
  (keys <- omap (fun t => PyDate.strptime (date t)) txs ;;
   Ok (map snd (sorted (fun a b => PyDate.leb (fst a) (fst b))
                       (combine keys txs))))%outcome.

Definition day_gaps_outcome (txs_sorted : list Transaction) : outcome (list Z) :=
  omap (fun '(prev, cur) =>
          (a <- PyDate.strptime (date cur) ;;
           b <- PyDate.strptime (date prev) ;;
           Ok (PyDate.sub_days a b))%outcome)
       (adjacent txs_sorted).

(** The classification of a group from its gaps. *)
Definition classify (intervals : list Z) (group_size : Z)
  : outcome SequenceFeatures :=
  (avg_interval <- Statistics.mean intervals ;;
   stdev_interval <-
     (if 1 <? len intervals
      then (sd <- Statistics.stdev intervals ;; Ok (NFloat sd))
      else Ok (NInt 0)) ;;
   best <- best_pattern_of avg_interval stdev_interval ;;
   Ok (mkSequenceFeatures (snd best) (fst best) group_size))%outcome.

Definition detect_sequence_patterns_outcome (R : Transaction)
           (H : list Transaction) (min_occurrences : Z)
  : outcome SequenceFeatures :=
  if (amount R =? 0)%float then Ok no_sequence
  else
    (vendor <- vendor_txs R H ;;
     if len vendor <? min_occurrences then Ok no_sequence
     else
       vendor_txs_sorted <- sorted_by_date_outcome vendor ;;
       intervals <- day_gaps_outcome vendor_txs_sorted ;;
       classify intervals (len vendor))%outcome.

(** Membership in the candidate group, in the claim's words: the
    lower-cased names are equal and the amount differs from the
    reference's by less than 5% of the reference's. *)
Definition candidate (R t : Transaction) : bool :=
  String.eqb (PyStr.lower (name t)) (PyStr.lower (name R))
  && (abs (amount t - amount R) / amount R <? 0.05)%float.

Definition candidate_group (R : Transaction) (H : list Transaction)
  : list Transaction :=
  filter (candidate R) H.

(** A transaction that is not a candidate: another vendor, or an amount
    that is not within 5%. *)
Definition outside_group (R o : Transaction) : Prop :=
  PyStr.lower (name o) <> PyStr.lower (name R)
  \/ (abs (amount o - amount R) / amount R <? 0.05)%float = false.

(** The confidence of the monthly pattern for a gap deviation [sd]. *)
Definition monthly_confidence (sd : float) : num :=
  NFloat (1 - sd / (30 + 1e-6))%float.

(** [max(0, min(1, c))] *)
Definition clamp (c : num) : num := Num.max (NInt 0) (Num.min (NInt 1) c).

(** A refund as reference, and charges of other amounts. *)
Definition R_refund : Transaction := mkTransaction "Netflix" (-15.99) "2024-01-01".

Definition H_refund : list Transaction :=
  [ mkTransaction "NETFLIX" 1000 "2024-02-01";
    mkTransaction "Hulu" (-15.99) "2024-02-01";
    mkTransaction "netflix" (-0.01) "2024-03-01" ].

(** Four well-formed dates. *)
Definition monthly_dates (d0 d1 d2 d3 : string) : Prop :=
  valid_date d0 = true /\ valid_date d1 = true
  /\ valid_date d2 = true /\ valid_date d3 = true.

(** Each date is 30 days after the one before. *)
Definition thirty_apart (d0 d1 d2 d3 : string) : Prop :=
  ordinal_of d1 = ordinal_of d0 + 30
  /\ ordinal_of d2 = ordinal_of d1 + 30
  /\ ordinal_of d3 = ordinal_of d2 + 30.

Definition four_charges (n : string) (a : float) (d0 d1 d2 d3 : string)
  : list Transaction :=
  [ mkTransaction n a d0; mkTransaction n a d1;
    mkTransaction n a d2; mkTransaction n a d3 ].

(** Gaps of 1 and 65 days: their mean is 33. *)
Definition R_uneven : Transaction := mkTransaction "Acme" 5 "2024-01-01".

Definition H_uneven : list Transaction :=
  [ mkTransaction "Acme" 5 "2024-01-01";
    mkTransaction "Acme" 5 "2024-01-02";
    mkTransaction "Acme" 5 "2024-03-07" ].

(** A reference and four charges of its name and amount. *)
Definition R_monthly : Transaction := mkTransaction "Netflix" 15.99 "2024-03-31".

Definition H_monthly : list Transaction :=
  four_charges "Netflix" 15.99 "2024-01-31" "2024-01-01" "2024-03-01" "2024-03-31".

(** The four charges among a charge of another vendor and one of the
    same vendor at another amount. *)
Definition H_monthly_among_others : list Transaction :=
  mkTransaction "Hulu" 15.99 "2024-01-31"
  :: H_monthly ++ [ mkTransaction "Netflix" 99.99 "2024-02-15" ].

(** Two charges of the reference's vendor among two of another vendor. *)
Definition H_two_among_others : list Transaction :=
  [ mkTransaction "Hulu" 15.99 "2024-01-01";
    mkTransaction "Netflix" 15.99 "2024-01-01";
    mkTransaction "Hulu" 15.99 "2024-01-31";
    mkTransaction "Netflix" 15.99 "2024-01-31" ].

(** Gaps of 33 and 33 days, then gaps of 35 and 35 days. *)
Definition H_every_33 : list Transaction :=
  [ mkTransaction "Acme" 5 "2024-01-01";
    mkTransaction "Acme" 5 "2024-02-03";
    mkTransaction "Acme" 5 "2024-03-07" ].

Definition H_every_35 : list Transaction :=
  [ mkTransaction "Acme" 5 "2024-01-01";
    mkTransaction "Acme" 5 "2024-02-05";
    mkTransaction "Acme" 5 "2024-03-11" ].

(** [settled m]: [m] has one outcome, the same from every coherent store,
    and it leaves the caller's objects alone. *)
Definition settled {A} (m : M A) : Prop := exists o, yields m o.

(** What a call [f(transaction, all_transactions)] does to the store [s]
    of a caller: it ends with the outcome the arguments alone determine
    (the one of a fresh process), the two objects are what they were and
    the memo table is still coherent. *)
Definition effect_free {A} (f : Transaction -> list Transaction -> M A)
           (s : Store) : Prop :=
  exists s',
    call f s = (result (f (obj_transaction s) (obj_all_transactions s)), s')
    /\ same_objects s s'
    /\ coherent s'.

(** A store in which two dates have been parsed already. *)
Definition store_after_startup : Store :=
  mkStore R_monthly H_monthly
          [("2024-01-31", mkDate 2024 1 31); ("2023-12-25", mkDate 2023 12 25)].

(** ** Vocabulary of the further properties *)

(** The keys of the memo table, most recently used first. *)
Definition cache_keys (s : Store) : list string := map fst (parse_cache s).

(** The store a call leaves. *)
Definition store_after {A} (m : M A) (s : Store) : Store := snd (m s).

(** The memo table holds each key once and at most [lru_maxsize]
    entries. *)
Definition cache_bounded (s : Store) : Prop :=
  NoDup (cache_keys s) /\ (List.length (parse_cache s) <= lru_maxsize)%nat.

(** The number of dashes of a string. *)
Definition dashes (s : string) : nat :=
  List.length (filter (Ascii.eqb "-"%char) (PyStr.chars s)).

(** No dash occurs in the string. *)
Definition dash_free (s : string) : bool :=
  forallb (fun c => negb (Ascii.eqb c "-"%char)) (PyStr.chars s).

(** The day-of-month test of [get_n_transactions_same_day], on the
    calendar days of the parsed dates. *)
Definition same_day_within (R : Transaction) (n_days_off : Z)
           (t : Transaction) : bool :=
  Z.abs (day (date_of (date t)) - day (date_of (date R))) <=? n_days_off.

(** A float between [0.0] and [1.0]. *)
Definition in_unit_interval (f : float) : Prop :=
  (0 <=? f)%float = true /\ (f <=? 1)%float = true.

(** All the dates a call reads are well formed. *)
Definition all_dates_valid (R : Transaction) (H : list Transaction) : Prop :=
  valid_date (date R) = true
  /\ forall t, In t H -> valid_date (date t) = true.

(** The reference and a charge a fortnight later. *)
Definition H_fortnight : list Transaction := [R_netflix; T_netflix_14].

(** No word character stands just before the end of [pre], and none at
    the start of [post]. *)
Definition word_boundary_before (pre : list ascii) : Prop :=
  match rev pre with
  | [] => True
  | c :: _ => is_word_char c = false
  end.

Definition word_boundary_after (post : list ascii) : Prop :=
  match post with
  | [] => True
  | c :: _ => is_word_char c = false
  end.

(** [whole_word w text]: the lower-cased text contains [w] as a whole
    word. *)
Definition whole_word (w text : string) : Prop :=
  exists pre post,
    map PyStr.lower_char (PyStr.chars text) = (pre ++ PyStr.chars w ++ post)%list
    /\ word_boundary_before pre
    /\ word_boundary_after post.

(** A confidence above 0 and at most 1. *)
Definition positive_confidence (c : num) : Prop :=
  Num.gtb c (NFloat 0) = true /\ Num.leb c (NInt 1) = true.

(** The confidence of a pattern of [expected] days for a gap deviation
    [sd]: [1 - sd / (expected + 1e-6)]. *)
Definition pattern_confidence (expected sd : float) : num :=
  NFloat (1 - sd / (expected + 1e-6))%float.

(** The patterns with their periods as floats. *)
Definition pattern_periods : list (string * Z * float) :=
  [ ("weekly", 7, 7%float); ("monthly", 30, 30%float); ("yearly", 365, 365%float) ].

(** The shape of a result of the loop over the patterns: no pattern with
    confidence [0.0], or one of the three patterns with a confidence
    above 0 and at most 1. *)
Definition pattern_result (best : string * num) : Prop :=
  (fst best = "none" /\ snd best = NFloat 0)
  \/ (In (fst best) ["weekly"; "monthly"; "yearly"]
      /\ positive_confidence (snd best)).

(** A float above [0.0], read on its representation. *)
Definition sf_positive (x : spec_float) : bool :=
  match x with
  | S754_infinity false | S754_finite false _ _ => true
  | _ => false
  end.

(** The comparison transactions in the spec's words: the reference's name
    under another date string. *)
Definition comparison_of (R t : Transaction) : Prop :=
  name t = name R /\ date t <> date R.

(** The number of transactions of the reference's name within 30 days of
    the reference. *)
Definition nearby_count (R : Transaction) (H : list Transaction) : Z :=
  len (filter (fun t => String.eqb (name t) (name R)
                        && (days_between t R <=? 30)) H).

(** The score of a reference with fewer than two comparison
    transactions: 0.15 for the amount term, nothing for the interval
    term, 0.2 when a transaction of its name is within 30 days and 0.2
    when there is a comparison transaction and the name has a word. *)
Definition sparse_score (nearby similar : bool) : float :=
  match nearby, similar with
  | false, false => 0.15
  | true, false => 0.35
  | false, true => 0.35
  | true, true => 0.55
  end.

(** * Reasoning about computations over the store *)

Section StoreLogic.

Lemma coherent_initial : coherent initial_store.
Proof. constructor. Qed.

Lemma same_objects_refl s : same_objects s s.
Proof. split; reflexivity. Qed.

Lemma same_objects_trans s1 s2 s3 :
  same_objects s1 s2 -> same_objects s2 s3 -> same_objects s1 s3.
Proof. intros [a b] [c d]; split; congruence. Qed.

Lemma same_objects_set_cache s c : same_objects s (set_cache s c).
Proof. split; reflexivity. Qed.

Lemma yields_result {A} (m : M A) o : yields m o -> result m = o.
Proof.
  intros Hy. destruct (Hy initial_store coherent_initial) as (s' & E & _).
  unfold result. now rewrite E.
Qed.

Lemma yields_unique {A} (m : M A) o1 o2 : yields m o1 -> yields m o2 -> o1 = o2.
Proof.
  intros H1 H2. apply yields_result in H1, H2. congruence.
Qed.

Lemma yields_ret {A} (a : A) : yields (ret a) (Ok a).
Proof.
  intros s Hs. exists s. repeat split; auto.
Qed.

Lemma yields_raise {A} (e : exn) : yields (@raise A e) (Raise e).
Proof.
  intros s Hs. exists s. repeat split; auto.
Qed.

Lemma yields_lift {A} (o : outcome A) : yields (lift o) o.
Proof.
  intros s Hs. exists s. repeat split; auto.
Qed.

Lemma yields_bind {A B} (m : M A) (k : A -> M B) o k' :
  yields m o ->
  (forall a, o = Ok a -> yields (k a) (k' a)) ->
  yields (bind m k) (obind o k').
Proof.
  intros Hm Hk s Hs.
  destruct (Hm s Hs) as (s1 & E1 & C1 & O1).
  unfold bind. rewrite E1. destruct o as [a | e]; simpl.
  - destruct (Hk a eq_refl s1 C1) as (s2 & E2 & C2 & O2).
    exists s2. repeat split; auto; try apply (same_objects_trans _ _ _ O1 O2).
  - exists s1. repeat split; auto; apply O1.
Qed.

Lemma cache_lookup_sound c k d :
  Forall (fun kd => PyDate.strptime (fst kd) = Ok (snd kd)) c ->
  cache_lookup k c = Some d -> PyDate.strptime k = Ok d.
Proof.
  induction 1 as [| [k' d'] c Hx Hc IH]; simpl; [discriminate |].
  destruct (String.eqb k k') eqn:E.
  - apply String.eqb_eq in E. subst. intros [= <-]. exact Hx.
  - exact IH.
Qed.

Lemma cache_remove_coherent c k :
  Forall (fun kd => PyDate.strptime (fst kd) = Ok (snd kd)) c ->
  Forall (fun kd => PyDate.strptime (fst kd) = Ok (snd kd)) (cache_remove k c).
Proof.
  induction 1 as [| [k' d'] c Hx Hc IH]; simpl; [constructor |].
  destruct (String.eqb k k'); [assumption | constructor; assumption].
Qed.

Lemma firstn_Forall {A} (P : A -> Prop) n l :
  Forall P l -> Forall P (firstn n l).
Proof.
  intros H. revert n. induction H; intros [| n]; simpl; constructor; auto.
Qed.

(** The memo table is transparent: a cached call gives what [strptime]
    gives. *)
Lemma yields_parse_date k : yields (_parse_date k) (PyDate.strptime k).
Proof.
  intros s Hs. unfold _parse_date.
  destruct (cache_lookup k (parse_cache s)) as [d |] eqn:L.
  - rewrite (cache_lookup_sound _ _ _ Hs L).
    eexists; split; [reflexivity |]. split; [| apply same_objects_set_cache].
    unfold coherent, set_cache; cbn [parse_cache]. constructor.
    + exact (cache_lookup_sound _ _ _ Hs L).
    + apply cache_remove_coherent, Hs.
  - destruct (PyDate.strptime k) as [d | e] eqn:P.
    + eexists; split; [reflexivity |]. split; [| apply same_objects_set_cache].
      unfold coherent, set_cache; cbn [parse_cache].
      apply firstn_Forall. constructor; [exact P | exact Hs].
    + exists s. repeat split; auto.
Qed.

Lemma yields_mapM {A B} (f : A -> M B) g (l : list A) :
  (forall x, In x l -> yields (f x) (g x)) ->
  yields (mapM f l) (omap g l).
Proof.
  induction l as [| x l IH]; intros Hf; simpl.
  - apply yields_ret.
  - apply yields_bind; [apply Hf; now left |].
    intros y _. apply yields_bind; [apply IH; intros; apply Hf; now right |].
    intros ys _. apply yields_ret.
Qed.

Lemma yields_filterM {A} (p : A -> M bool) q (l : list A) :
  (forall x, In x l -> yields (p x) (q x)) ->
  yields (filterM p l) (ofilter q l).
Proof.
  induction l as [| x l IH]; intros Hp; simpl.
  - apply yields_ret.
  - apply yields_bind; [apply Hp; now left |].
    intros b _. apply yields_bind; [apply IH; intros; apply Hp; now right |].
    intros ys _. apply yields_ret.
Qed.

Lemma yields_foldM {A B} (body : B -> A -> M B) body' (l : list A) acc :
  (forall b x, In x l -> yields (body b x) (body' b x)) ->
  yields (foldM body l acc) (ofold body' l acc).
Proof.
  revert acc. induction l as [| x l IH]; intros acc Hb; simpl.
  - apply yields_ret.
  - apply yields_bind; [apply Hb; now left |].
    intros b _. apply IH. intros; apply Hb; now right.
Qed.

Lemma yields_ext {A} (m : M A) o o' : o = o' -> yields m o -> yields m o'.
Proof. now intros ->. Qed.

End StoreLogic.

(** [outcome_of L]: the goal [yields m o] becomes [o' = o], where
    [L : yields m o'] gives the outcome of [m] as a pure expression. *)
Ltac outcome_of L := eapply yields_ext; [| apply L].

(** * List and date helpers *)

Section Helpers.

Lemma omap_ok {A B} (f : A -> outcome B) (g : A -> B) (l : list A) :
  (forall x, In x l -> f x = Ok (g x)) -> omap f l = Ok (map g l).
Proof.
  induction l as [| x l IH]; intros Hf; simpl; [reflexivity |].
  rewrite (Hf x (or_introl eq_refl)). simpl.
  rewrite IH by (intros; apply Hf; now right). reflexivity.
Qed.

Lemma ofilter_ok {A} (p : A -> outcome bool) (q : A -> bool) (l : list A) :
  (forall x, In x l -> p x = Ok (q x)) -> ofilter p l = Ok (filter q l).
Proof.
  induction l as [| x l IH]; intros Hp; simpl; [reflexivity |].
  rewrite (Hp x (or_introl eq_refl)). simpl.
  rewrite IH by (intros; apply Hp; now right). simpl.
  destruct (q x); reflexivity.
Qed.

Lemma filter_all {A} (l : list A) : filter (fun _ => true) l = l.
Proof. induction l; simpl; congruence. Qed.

Lemma existsb_insert_sorted {A} (le : A -> A -> bool) (p : A -> bool) x l :
  existsb p (insert_sorted le x l) = p x || existsb p l.
Proof.
  induction l as [| y l IH]; simpl; [reflexivity |].
  destruct (le x y); simpl; [reflexivity |].
  rewrite IH. destruct (p x), (p y); reflexivity.
Qed.

Lemma existsb_sorted {A} (le : A -> A -> bool) (p : A -> bool) l :
  existsb p (sorted le l) = existsb p l.
Proof.
  induction l as [| x l IH]; simpl; [reflexivity |].
  unfold sorted in *. simpl. rewrite existsb_insert_sorted, IH. reflexivity.
Qed.

Lemma existsb_map_filter {A B} (f : A -> B) (p : B -> bool) (q : A -> bool) l :
  existsb p (map f (filter q l)) = existsb (fun x => q x && p (f x)) l.
Proof.
  induction l as [| x l IH]; simpl; [reflexivity |].
  destruct (q x); simpl; rewrite IH; reflexivity.
Qed.

Lemma valid_date_parsed s :
  valid_date s = true -> exists d, PyDate.strptime s = Ok d.
Proof.
  unfold valid_date. destruct (PyDate.strptime s) as [d | e]; simpl.
  - eauto.
  - discriminate.
Qed.

Lemma ordinal_of_parsed s d :
  PyDate.strptime s = Ok d -> ordinal_of s = PyDate.toordinal d.
Proof. unfold ordinal_of, date_of. now intros ->. Qed.

Lemma date_of_parsed s d : PyDate.strptime s = Ok d -> date_of s = d.
Proof. unfold date_of. now intros ->. Qed.

End Helpers.

(** * Facts about binary64 arithmetic *)

(** ** Quotients of ints *)

Section Quotients.


Lemma digits2_pos_size p : digits2_pos p = Pos.size p.
Proof. induction p; simpl; congruence. Qed.

Lemma Zdigits2_log2 m : 0 < m -> Zdigits2 m = Z.log2 m + 1.
Proof.
  destruct m as [| p | p]; try lia. intros _. simpl.
  rewrite digits2_pos_size. destruct p; simpl; lia.
Qed.

Lemma Zdigits2_nonneg m : 0 <= Zdigits2 m.
Proof. destruct m; simpl; lia. Qed.

Lemma Zdigits2_mono a b : 0 <= a <= b -> Zdigits2 a <= Zdigits2 b.
Proof.
  intros [Ha Hab]. destruct (Z.eq_dec a 0) as [-> | Hne].
  - apply Zdigits2_nonneg.
  - rewrite !Zdigits2_log2 by lia.
    pose proof (Z.log2_le_mono a b Hab). lia.
Qed.

Lemma Zdigits2_le_pow2 m k : 0 <= k -> 0 <= m <= 2 ^ k -> Zdigits2 m <= k + 1.
Proof.
  intros Hk Hm.
  etransitivity; [apply (Zdigits2_mono m (2 ^ k) Hm) |].
  rewrite Zdigits2_log2 by (apply Z.pow_pos_nonneg; lia).
  rewrite Z.log2_pow2 by lia. lia.
Qed.

Lemma Zdigits2_succ m : 0 <= m -> Zdigits2 (m + 1) <= Zdigits2 m + 1.
Proof.
  intros Hm. destruct (Z.eq_dec m 0) as [-> | Hne]; [simpl; lia |].
  rewrite !Zdigits2_log2 by lia.
  pose proof (Z.log2_le_mono (m + 1) (2 * m) ltac:(lia)).
  rewrite Z.log2_double in H by lia. lia.
Qed.

Lemma shr_1_le mrs : 0 <= shr_m mrs -> 0 <= shr_m (shr_1 mrs) <= shr_m mrs.
Proof.
  destruct mrs as [m r s]; simpl.
  destruct m as [| [q | q |] | q]; simpl; lia.
Qed.

Lemma iter_shr_1_le p : forall mrs,
  0 <= shr_m mrs -> 0 <= shr_m (iter_pos shr_1 p mrs) <= shr_m mrs.
Proof.
  induction p as [p IH | p IH |]; intros mrs Hm; simpl.
  - pose proof (shr_1_le mrs Hm) as H1.
    pose proof (IH (shr_1 mrs) (proj1 H1)) as H2.
    pose proof (IH _ (proj1 H2)) as H3. lia.
  - pose proof (IH mrs Hm) as H2.
    pose proof (IH _ (proj1 H2)) as H3. lia.
  - apply shr_1_le, Hm.
Qed.

(** [shr_fexp] never enlarges the mantissa, and the exponent it returns
    is the larger of the old one and the format's. *)
Lemma shr_fexp_bounds m e l :
  0 <= m ->
  0 <= shr_m (fst (shr_fexp prec emax m e l)) <= m
  /\ snd (shr_fexp prec emax m e l)
     = Z.max e (fexp prec emax (Zdigits2 m + e)).
Proof.
  intros Hm. unfold shr_fexp, shr.
  assert (H0 : shr_m (shr_record_of_loc m l) = m) by (destruct l as [| []]; reflexivity).
  destruct (fexp prec emax (Zdigits2 m + e) - e) as [| p | p] eqn:E; simpl.
  - rewrite H0. lia.
  - pose proof (iter_shr_1_le p (shr_record_of_loc m l)) as Hi.
    rewrite H0 in Hi. specialize (Hi Hm). lia.
  - rewrite H0. lia.
Qed.

Lemma round_nearest_even_le m l : 0 <= m -> 0 <= round_nearest_even m l <= m + 1.
Proof.
  intros Hm. destruct l as [| []]; simpl; try lia.
  destruct (Z.even m); lia.
Qed.

(** Rounding [m * 2^e] with [m < 2^(1 - e)], a value below 2, at an
    exponent the format allows for such a value, does not overflow. *)
Lemma binary_round_aux_in_range s m e l :
  0 <= m -> Zdigits2 m + e <= 1 -> -1074 <= e <= -53 ->
  forall s', binary_round_aux prec emax s m e l <> S754_infinity s'.
Proof.
  intros Hm Hd He s'. unfold binary_round_aux.
  destruct (shr_fexp_bounds m e l Hm) as [B1 E1].
  destruct (shr_fexp prec emax m e l) as [mrs1 e1]; simpl in B1, E1.
  pose proof (round_nearest_even_le (shr_m mrs1) (loc_of_shr_record mrs1)
                                    (proj1 B1)) as B2.
  set (m2 := round_nearest_even (shr_m mrs1) (loc_of_shr_record mrs1)) in *.
  destruct (shr_fexp_bounds m2 e1 loc_Exact (proj1 B2)) as [B3 E3].
  destruct (shr_fexp prec emax m2 e1 loc_Exact) as [mrs2 e2]; simpl in B3, E3.
  assert (Hd2 : Zdigits2 m2 <= 1076).
  { pose proof (Zdigits2_mono m2 (shr_m mrs1 + 1) ltac:(lia)).
    pose proof (Zdigits2_succ (shr_m mrs1) (proj1 B1)).
    pose proof (Zdigits2_mono (shr_m mrs1) m ltac:(lia)). lia. }
  assert (He1 : e1 <= -52).
  { subst e1. unfold fexp, SpecFloat.emin, prec, emax.
    pose proof (Zdigits2_nonneg m). lia. }
  destruct (shr_m mrs2); try discriminate.
  replace (e2 <=? emax - prec) with true; [discriminate |].
  symmetry. apply Z.leb_le. subst e2. unfold fexp, SpecFloat.emin, prec, emax. lia.
Qed.


Lemma div_core_fraction n d :
  0 < n <= d ->
  exists q e l,
    SFdiv_core_binary prec emax n 0 d 0 = (q, e, l)
    /\ 0 <= q /\ Zdigits2 q + e <= 1 /\ -1074 <= e <= -53.
Proof.
  intros Hnd. unfold SFdiv_core_binary.
  pose proof (Zdigits2_mono n d ltac:(lia)) as Hdig.
  set (e := Z.min (fexp prec emax (Zdigits2 n + 0 - (Zdigits2 d + 0))) (0 - 0)).
  assert (He : -1074 <= e <= -53).
  { subst e. unfold fexp, SpecFloat.emin, prec, emax. lia. }
  destruct (0 - 0 - e) as [| k | k] eqn:Ek; try lia.
  rewrite Z.shiftl_mul_pow2 by lia.
  pose proof (Z.div_le_mono (n * 2 ^ Z.pos k) (d * 2 ^ Z.pos k) d ltac:(lia)
                ltac:(apply Z.mul_le_mono_nonneg_r; [apply Z.pow_nonneg |]; lia))
    as Hq.
  rewrite (Z.mul_comm d), Z.div_mul in Hq by lia.
  pose proof (Z.div_pos (n * 2 ^ Z.pos k) d
                ltac:(apply Z.mul_nonneg_nonneg; [| apply Z.pow_nonneg]; lia)
                ltac:(lia)) as Hq0.
  unfold Z.div in Hq, Hq0.
  destruct (Z.div_eucl (n * 2 ^ Z.pos k) d) as [q r].
  exists q, e, (new_location d r). repeat split; try lia.
  pose proof (Zdigits2_le_pow2 q (Z.pos k) ltac:(lia) ltac:(lia)). lia.
Qed.

(** The quotient of a count by a total it does not exceed is a float:
    neither [ZeroDivisionError] nor [OverflowError]. *)
Lemma int_truediv_fraction n d :
  0 <= n <= d -> 0 < d -> exists f, PyFloat.int_truediv n d = Ok f.
Proof.
  intros Hnd Hd. unfold PyFloat.int_truediv.
  replace (d =? 0) with false by (symmetry; apply Z.eqb_neq; lia).
  destruct (n =? 0) eqn:En; [eauto |].
  apply Z.eqb_neq in En.
  rewrite !Z.abs_eq by lia.
  destruct (div_core_fraction n d ltac:(lia)) as (q & e & l & E & Hq & Hdig & He).
  rewrite E.
  pose proof (binary_round_aux_in_range
                (xorb (n <? 0) (d <? 0)) q e l Hq Hdig He) as Hfin.
  destruct (binary_round_aux prec emax _ q e l) as [s | s | | s m x];
    try (eexists; reflexivity).
  now destruct (Hfin s).
Qed.

Lemma div_eucl_exact a b : 0 < b -> Z.div_eucl (a * b) b = (a, 0).
Proof.
  intros Hb.
  pose proof (Z.div_mul a b ltac:(lia)) as Hq.
  pose proof (Z.mod_mul a b ltac:(lia)) as Hr.
  unfold Z.div, Z.modulo in Hq, Hr.
  destruct (Z.div_eucl (a * b) b) as [q r]. now subst.
Qed.

Lemma div_core_self n :
  0 < n -> SFdiv_core_binary prec emax n 0 n 0 = (2 ^ 53, -53, loc_Exact).
Proof.
  intros Hn. unfold SFdiv_core_binary.
  replace (Zdigits2 n + 0 - (Zdigits2 n + 0)) with 0 by lia.
  change (Z.min (fexp prec emax 0) (0 - 0)) with (-53).
  change (0 - 0 - -53) with 53.
  cbv iota beta zeta.
  rewrite Z.shiftl_mul_pow2 by lia.
  rewrite (Z.mul_comm n), div_eucl_exact by lia.
  unfold new_location, new_location_even, new_location_odd.
  destruct (Z.even n); reflexivity.
Qed.

(** [n / n] is exactly [1.0], whatever the size of the int. *)
Lemma int_truediv_self n : 0 < n -> PyFloat.int_truediv n n = Ok 1%float.
Proof.
  intros Hn. unfold PyFloat.int_truediv.
  replace (n =? 0) with false by (symmetry; apply Z.eqb_neq; lia).
  rewrite xorb_nilpotent, Z.abs_eq, (div_core_self n Hn) by lia.
  vm_compute. reflexivity.
Qed.

End Quotients.

Section FloatFacts.

(** A rounded non-negative mantissa keeps the sign it is given and is
    never a NaN. *)
Lemma binary_round_aux_signed s m e l :
  0 <= m -> signed s (binary_round_aux prec emax s m e l).
Proof.
  intros Hm. unfold binary_round_aux.
  destruct (shr_fexp_bounds m e l Hm) as [B1 _].
  destruct (shr_fexp prec emax m e l) as [mrs1 e1]; simpl in B1.
  pose proof (round_nearest_even_le (shr_m mrs1) (loc_of_shr_record mrs1)
                                    (proj1 B1)) as B2.
  destruct (shr_fexp_bounds _ e1 loc_Exact (proj1 B2)) as [B3 _].
  destruct (shr_fexp prec emax _ e1 loc_Exact) as [mrs2 e2]; simpl in B3.
  destruct (shr_m mrs2) as [| q | q]; try lia; try constructor.
  destruct (_ <=? _); constructor.
Qed.

Lemma binary_normalize_not_nan m e : sf_not_nan (binary_normalize prec emax m e false).
Proof.
  destruct m as [| p | p]; simpl.
  - exists false. constructor.
  - exists false. unfold binary_round.
    destruct (shl_align _ _ _) as [mz ez]. apply binary_round_aux_signed. lia.
  - exists true. unfold binary_round.
    destruct (shl_align _ _ _) as [mz ez]. apply binary_round_aux_signed. lia.
Qed.

Lemma SFsub_finite_not_nan x y :
  x <> S754_nan -> sf_finite y = true ->
  sf_not_nan (SF64sub x y).
Proof.
  destruct x as [sx | sx | | sx mx ex]; try congruence;
    destruct y as [sy | sy | | sy my ey]; try discriminate; intros _ _;
    unfold SF64sub, SFsub.
  - destruct sx, sy; eexists; constructor.
  - eexists; constructor.
  - eexists; constructor.
  - eexists; constructor.
  - eexists; constructor.
  - apply binary_normalize_not_nan.
Qed.

Lemma not_nan_SF x : is_nan x = false -> Prim2SF x <> S754_nan.
Proof.
  unfold is_nan. rewrite eqb_spec. intros Hx E. rewrite E in Hx. discriminate.
Qed.

Lemma SFabs_signed x : sf_not_nan x -> signed false (SFabs x).
Proof. intros [s []]; constructor. Qed.

Lemma SFdiv_signed x my ey :
  signed false x -> signed true (SF64div x (S754_finite true my ey)).
Proof.
  intros []; unfold SF64div, SFdiv; try constructor.
  unfold SFdiv_core_binary.
  match goal with |- context [Z.div_eucl ?a ?b] =>
    pose proof (Z.div_pos a b) as Hq; unfold Z.div in Hq;
    assert (Ha : 0 <= a); [| destruct (Z.div_eucl a b) as [q r]] end.
  - destruct (_ - _ - _) as [| p | p]; try lia. rewrite Z.shiftl_mul_pow2 by lia.
    apply Z.mul_nonneg_nonneg; [lia | apply Z.pow_nonneg; lia].
  - apply binary_round_aux_signed. apply Hq; lia.
Qed.

Lemma SFltb_signed_true x m e :
  signed true x -> SFltb x (S754_finite false m e) = true.
Proof. intros []; reflexivity. Qed.

#[local] Open Scope float_scope.

Lemma is_finite_SF x : is_finite x = true -> sf_finite (Prim2SF x) = true.
Proof.
  unfold is_finite, is_nan, is_infinity.
  rewrite !eqb_spec, abs_spec.
  change (Prim2SF infinity) with (S754_infinity false).
  destruct (Prim2SF x) as [s | s | | s m e]; try reflexivity.
  - destruct s; discriminate.
  - discriminate.
Qed.

Lemma negative_SF x :
  is_finite x = true -> (x <? 0) = true ->
  exists m e, Prim2SF x = S754_finite true m e.
Proof.
  intros Hf. apply is_finite_SF in Hf. rewrite ltb_spec.
  change (Prim2SF 0) with (S754_zero false).
  destruct (Prim2SF x) as [s | s | | s m e]; try discriminate.
  destruct s; [eauto | discriminate].
Qed.

Lemma nonzero_SF x :
  is_finite x = true -> (x =? 0) = false ->
  exists s m e, Prim2SF x = S754_finite s m e.
Proof.
  intros Hf. apply is_finite_SF in Hf. rewrite eqb_spec.
  change (Prim2SF 0) with (S754_zero false).
  destruct (Prim2SF x) as [s | s | | s m e]; try discriminate; eauto.
Qed.

(** The ratio test against a negative amount. *)
Lemma ratio_negative_denominator x a :
  is_nan x = false -> is_finite a = true -> (a <? 0) = true ->
  is_zero a = false /\ (abs (x - a) / a <? 0.05) = true.
Proof.
  intros Hx Ha Hneg.
  destruct (negative_SF a Ha Hneg) as (m & e & Ea).
  apply not_nan_SF in Hx.
  split.
  - unfold is_zero. rewrite eqb_spec, Ea. reflexivity.
  - rewrite ltb_spec, div_spec, abs_spec, sub_spec, Ea.
    change (Prim2SF 0.05) with (S754_finite false 7205759403792794 (-57)).
    apply SFltb_signed_true, SFdiv_signed, SFabs_signed.
    apply SFsub_finite_not_nan; [exact Hx | reflexivity].
Qed.

(** The ratio test of an amount against itself. *)
Lemma ratio_same_amount a :
  is_finite a = true -> (a =? 0) = false ->
  is_zero a = false /\ (abs (a - a) / a <? 0.05) = true.
Proof.
  intros Ha Hnz. split; [exact Hnz |].
  destruct (nonzero_SF a Ha Hnz) as (s & m & e & Ea).
  rewrite ltb_spec, div_spec, abs_spec, sub_spec, Ea.
  change (Prim2SF 0.05) with (S754_finite false 7205759403792794 (-57)).
  unfold SF64sub, SFsub. rewrite Z.sub_diag. simpl. reflexivity.
Qed.

End FloatFacts.

(** * detect_sequence_patterns *)

Section SortFacts.

Context {A : Type}.
Variable le : A -> A -> bool.

Lemma insert_sorted_In x y l : In y (insert_sorted le x l) <-> y = x \/ In y l.
Proof.
  induction l as [| z l IH]; simpl.
  - intuition.
  - destruct (le x z); simpl; [intuition | rewrite IH; intuition].
Qed.

Lemma sorted_In y l : In y (sorted le l) <-> In y l.
Proof.
  induction l as [| x l IH]; simpl; [reflexivity |].
  unfold sorted in *. simpl. rewrite insert_sorted_In, IH. intuition.
Qed.

Lemma insert_sorted_length x l :
  List.length (insert_sorted le x l) = S (List.length l).
Proof.
  induction l as [| z l IH]; simpl; [reflexivity |].
  destruct (le x z); simpl; [reflexivity | now rewrite IH].
Qed.

Lemma sorted_length l : List.length (sorted le l) = List.length l.
Proof.
  induction l as [| x l IH]; simpl; [reflexivity |].
  unfold sorted in *. simpl. now rewrite insert_sorted_length, IH.
Qed.

Lemma sorted_in_order l : in_order le l = true -> sorted le l = l.
Proof.
  induction l as [| x l IH]; intros Hl; [reflexivity |].
  unfold sorted in *. simpl.
  destruct l as [| y l]; [reflexivity |].
  simpl in Hl. apply andb_prop in Hl as [Hxy Hl].
  rewrite (IH Hl). simpl. now rewrite Hxy.
Qed.

End SortFacts.

(** Sorting on an integer key: the result is an ascending arrangement of
    the input, and there is only one when the keys differ. *)
Section SortUnique.

Context {A : Type}.
Variable key : A -> Z.

Let le (a b : A) : bool := key a <=? key b.

Lemma insert_sorted_permutation x l : Permutation (insert_sorted le x l) (x :: l).
Proof.
  induction l as [| y l IH]; simpl; [reflexivity |].
  destruct (le x y); [reflexivity |].
  rewrite IH. apply perm_swap.
Qed.

Lemma sorted_permutation l : Permutation (sorted le l) l.
Proof.
  induction l as [| x l IH]; simpl; [reflexivity |].
  unfold sorted in *. simpl. rewrite insert_sorted_permutation.
  now constructor.
Qed.

Lemma insert_sorted_ascending x l :
  StronglySorted (fun a b => key a <= key b) l ->
  StronglySorted (fun a b => key a <= key b) (insert_sorted le x l).
Proof.
  induction 1 as [| y l Hl IH Hy]; simpl.
  - repeat constructor.
  - unfold le at 1. destruct (key x <=? key y) eqn:E.
    + apply Z.leb_le in E. constructor; [constructor; assumption |].
      constructor; [exact E |].
      rewrite Forall_forall in *. intros z Hz. specialize (Hy z Hz). lia.
    + apply Z.leb_gt in E. constructor; [exact IH |].
      rewrite Forall_forall in *. intros z Hz.
      apply insert_sorted_In in Hz as [-> | Hz]; [lia | auto].
Qed.

Lemma sorted_ascending l :
  StronglySorted (fun a b => key a <= key b) (sorted le l).
Proof.
  induction l as [| x l IH]; simpl; [constructor |].
  unfold sorted in *. simpl. now apply insert_sorted_ascending.
Qed.

(** An ascending arrangement of a strictly ascending list is that list. *)
Lemma ascending_unique L :
  StronglySorted (fun a b => key a < key b) L ->
  forall S, Permutation S L ->
            StronglySorted (fun a b => key a <= key b) S -> S = L.
Proof.
  induction 1 as [| x L HL IH Hx]; intros S HP HS.
  - now apply Permutation_sym, Permutation_nil in HP.
  - destruct S as [| y S].
    { apply Permutation_nil in HP. discriminate. }
    inversion HS as [| ? ? HS' Hy]; subst.
    rewrite Forall_forall in Hx, Hy.
    assert (Hyx : y = x).
    { assert (Hin : In y (x :: L)) by (eapply Permutation_in; [exact HP | now left]).
      destruct Hin as [E | Hin]; [now symmetry |].
      specialize (Hx y Hin).
      assert (Hin' : In x (y :: S))
        by (eapply Permutation_in; [symmetry; exact HP | now left]).
      destruct Hin' as [E | Hin']; [subst; lia |].
      specialize (Hy x Hin'). lia. }
    subst y. f_equal. apply IH; [| exact HS'].
    eapply Permutation_cons_inv. exact HP.
Qed.

Lemma sorted_of_permutation L V :
  StronglySorted (fun a b => key a < key b) L ->
  Permutation L V -> sorted le V = L.
Proof.
  intros HL HP. apply ascending_unique; [exact HL | | apply sorted_ascending].
  rewrite sorted_permutation. now symmetry.
Qed.

End SortUnique.

Lemma insert_sorted_map {A B} (f : A -> B) le le' x l :
  (forall a b, le' (f a) (f b) = le a b) ->
  insert_sorted le' (f x) (map f l) = map f (insert_sorted le x l).
Proof.
  intros Hle. induction l as [| z l IH]; simpl; [reflexivity |].
  rewrite Hle. destruct (le x z); simpl; [reflexivity | now rewrite IH].
Qed.

Lemma sorted_map {A B} (f : A -> B) le le' l :
  (forall a b, le' (f a) (f b) = le a b) ->
  sorted le' (map f l) = map f (sorted le l).
Proof.
  intros Hle. induction l as [| x l IH]; simpl; [reflexivity |].
  unfold sorted in *. simpl. rewrite IH. now apply insert_sorted_map.
Qed.

Lemma adjacent_length {A} (l : list A) :
  List.length (adjacent l) = Nat.pred (List.length l).
Proof.
  induction l as [| x l IH]; [reflexivity |].
  destruct l as [| y l]; [reflexivity |].
  change (adjacent (x :: y :: l)) with ((x, y) :: adjacent (y :: l)).
  simpl List.length in *. now rewrite IH.
Qed.

Lemma adjacent_In {A} (l : list A) p c :
  In (p, c) (adjacent l) -> In p l /\ In c l.
Proof.
  induction l as [| x l IH]; [contradiction |].
  destruct l as [| y l]; [contradiction |].
  change (adjacent (x :: y :: l)) with ((x, y) :: adjacent (y :: l)).
  intros [E | Hin].
  - inversion E; subst. split; [now left | right; now left].
  - destruct (IH Hin) as [Hp Hc]. split; now right.
Qed.

Section Detect.

Variables (R : Transaction) (H : list Transaction) (min_occurrences : Z).

Lemma detect_sequence_patterns_yields :
  yields (detect_sequence_patterns R H min_occurrences)
         (detect_sequence_patterns_outcome R H min_occurrences).
Proof.
  unfold detect_sequence_patterns, detect_sequence_patterns_outcome.
  destruct (amount R =? 0)%float; [apply yields_ret |].
  apply yields_bind; [apply yields_lift |]. intros vendor _.
  destruct (len vendor <? min_occurrences); [apply yields_ret |].
  apply yields_bind.
  { unfold sorted_by_date, sorted_by_date_outcome.
    apply yields_bind; [| intros keys _; apply yields_ret].
    apply yields_mapM. intros t _. apply yields_parse_date. }
  intros vs _. apply yields_bind.
  { unfold day_gaps, day_gaps_outcome. apply yields_mapM.
    intros [prev cur] _.
    apply yields_bind; [apply yields_parse_date |]. intros a _.
    apply yields_bind; [apply yields_parse_date |]. intros b _.
    apply yields_ret. }
  intros intervals _. unfold classify.
  apply yields_bind; [apply yields_lift |]. intros avg _.
  apply yields_bind.
  { destruct (1 <? len intervals); [| apply yields_ret].
    apply yields_bind; [apply yields_lift |]. intros sd _. apply yields_ret. }
  intros sdv _.
  apply yields_bind; [apply yields_lift |]. intros best _.
  apply yields_ret.
Qed.

End Detect.

Section DetectValues.

Lemma combine_map_l {A B} (f : A -> B) (l : list A) :
  combine (map f l) l = map (fun x => (f x, x)) l.
Proof. induction l; simpl; congruence. Qed.

Lemma map_snd_pair {A B} (f : A -> B) (l : list A) :
  map snd (map (fun x => (f x, x)) l) = l.
Proof. induction l; simpl; congruence. Qed.

Lemma sorted_by_date_value txs :
  (forall t, In t txs -> valid_date (date t) = true) ->
  sorted_by_date_outcome txs = Ok (chronological txs).
Proof.
  intros Hv. unfold sorted_by_date_outcome.
  rewrite (omap_ok _ (fun t => date_of (date t))).
  2:{ intros t Ht. destruct (valid_date_parsed _ (Hv t Ht)) as [d Hd].
      now rewrite (date_of_parsed _ _ Hd). }
  cbn [obind]. f_equal. rewrite combine_map_l.
  rewrite (sorted_map (fun t => (date_of (date t), t))
                      (fun a b => ordinal_of (date a) <=? ordinal_of (date b)))
    by reflexivity.
  apply map_snd_pair.
Qed.

Lemma chronological_In t txs : In t (chronological txs) <-> In t txs.
Proof. apply sorted_In. Qed.

Lemma day_gaps_value txs :
  (forall t, In t txs -> valid_date (date t) = true) ->
  day_gaps_outcome (chronological txs) = Ok (gaps_of txs).
Proof.
  intros Hv. unfold day_gaps_outcome, gaps_of.
  apply omap_ok. intros [prev cur] Hin.
  apply adjacent_In in Hin as [Hp Hc].
  apply (proj1 (chronological_In _ _)) in Hp.
  apply (proj1 (chronological_In _ _)) in Hc.
  destruct (valid_date_parsed _ (Hv _ Hp)) as [dp Hdp].
  destruct (valid_date_parsed _ (Hv _ Hc)) as [dc Hdc].
  rewrite Hdc, Hdp. cbn [obind]. unfold PyDate.sub_days.
  now rewrite (ordinal_of_parsed _ _ Hdp), (ordinal_of_parsed _ _ Hdc).
Qed.

(** With a non-zero amount, a group of at least [min_occurrences]
    transactions and well-formed dates in the group, the result is the
    classification of the group's gaps. *)
Lemma detect_sequence_patterns_value R H m V :
  (amount R =? 0)%float = false ->
  vendor_txs R H = Ok V ->
  m <= len V ->
  (forall t, In t V -> valid_date (date t) = true) ->
  yields (detect_sequence_patterns R H m) (classify (gaps_of V) (len V)).
Proof.
  intros Ha HV Hm Hv.
  outcome_of detect_sequence_patterns_yields.
  unfold detect_sequence_patterns_outcome. rewrite Ha, HV. cbn [obind].
  replace (len V <? m) with false by (symmetry; apply Z.ltb_ge; lia).
  rewrite (sorted_by_date_value V Hv). cbn [obind].
  rewrite (day_gaps_value V Hv). reflexivity.
Qed.

Lemma vendor_txs_value R H :
  (amount R =? 0)%float = false ->
  vendor_txs R H = Ok (candidate_group R H).
Proof.
  intros Ha. unfold vendor_txs, candidate_group. apply ofilter_ok. intros t _.
  unfold candidate, same_vendor.
  destruct (String.eqb _ _); [| reflexivity].
  unfold amount_close, PyFloat.truediv, is_zero.
  change zero with 0%float. rewrite Ha. reflexivity.
Qed.

(** A candidate group of fewer than [min_occurrences] transactions: no
    pattern, whatever the amounts and the dates. *)
Lemma detect_sequence_patterns_small_group R H m :
  len (candidate_group R H) < m ->
  yields (detect_sequence_patterns R H m) (Ok no_sequence).
Proof.
  intros Hlen.
  outcome_of detect_sequence_patterns_yields.
  unfold detect_sequence_patterns_outcome.
  destruct (amount R =? 0)%float eqn:Ha; [reflexivity |].
  rewrite (vendor_txs_value R H Ha). cbn [obind].
  replace (len (candidate_group R H) <? m) with true; [reflexivity |].
  symmetry. now apply Z.ltb_lt.
Qed.

(** A candidate group of at least [min_occurrences] transactions with
    well-formed dates: the classification of its gaps. *)
Lemma detect_sequence_patterns_group R H m :
  (amount R =? 0)%float = false ->
  m <= len (candidate_group R H) ->
  (forall t, In t (candidate_group R H) -> valid_date (date t) = true) ->
  yields (detect_sequence_patterns R H m)
         (classify (gaps_of (candidate_group R H)) (len (candidate_group R H))).
Proof.
  intros Ha Hm Hv.
  apply detect_sequence_patterns_value; auto using vendor_txs_value.
Qed.

End DetectValues.

Section Classification.

Lemma gaps_of_length V :
  List.length (gaps_of V) = Nat.pred (List.length V).
Proof.
  unfold gaps_of, chronological.
  now rewrite length_map, adjacent_length, sorted_length.
Qed.

Lemma classify_long G n avg sd :
  (2 <= List.length G)%nat ->
  Statistics.mean G = Ok avg ->
  Statistics.stdev G = Ok sd ->
  classify G n =
  (best <- best_pattern_of avg (NFloat sd) ;;
   Ok (mkSequenceFeatures (snd best) (fst best) n))%outcome.
Proof.
  intros HG Hm Hs. unfold classify. rewrite Hm. cbn [obind].
  replace (1 <? len G) with true
    by (symmetry; apply Z.ltb_lt; unfold len; lia).
  rewrite Hs. reflexivity.
Qed.

Lemma best_pattern_mean_33 sd :
  best_pattern_of (NInt 33) (NFloat sd) =
  Ok (if Num.gtb (monthly_confidence sd) (NFloat 0)
      then ("monthly", clamp (monthly_confidence sd))
      else ("none", NFloat 0)).
Proof.
  assert (Hw : forall best, pattern_step (NInt 33) (NFloat sd) best ("weekly", 7)
                            = Ok best)
    by (intros best; vm_compute; reflexivity).
  assert (Hy : forall best, pattern_step (NInt 33) (NFloat sd) best ("yearly", 365)
                            = Ok best)
    by (intros best; vm_compute; reflexivity).
  assert (Hm : pattern_step (NInt 33) (NFloat sd) ("none", NFloat 0) ("monthly", 30)
               = Ok (if Num.gtb (monthly_confidence sd) (NFloat 0)
                     then ("monthly", clamp (monthly_confidence sd))
                     else ("none", NFloat 0))).
  { unfold pattern_step.
    change (Num.sub (NInt 33) (NInt 30)) with (Ok (NInt 3)).
    change (Num.mul (NInt 30) (NFloat 0.1)) with (Ok (NFloat 3)).
    change (Num.add (NInt 30) (NFloat 1e-6)) with (Ok (NFloat (30 + 1e-6))).
    cbn [obind].
    change (Num.leb (Num.abs (NInt 3)) (Num.max (NInt 2) (NFloat 3))) with true.
    cbv iota.
    change (Num.div (NFloat sd) (NFloat (30 + 1e-6)))
      with (Ok (NFloat (sd / (30 + 1e-6)))).
    cbn [obind].
    change (Num.sub (NInt 1) (NFloat (sd / (30 + 1e-6))))
      with (Ok (monthly_confidence sd)).
    cbn [obind snd]. unfold clamp.
    destruct (Num.gtb _ _); reflexivity. }
  unfold best_pattern_of, patterns. cbn [ofold].
  rewrite Hw. cbn [obind]. rewrite Hm. cbn [obind]. rewrite Hy. reflexivity.
Qed.

Lemma best_pattern_mean_35 sd :
  best_pattern_of (NInt 35) sd = Ok ("none", NFloat 0).
Proof. vm_compute. reflexivity. Qed.

Lemma fold_add_repeat g k acc :
  fold_left Z.add (repeat g k) acc = acc + g * Z.of_nat k.
Proof.
  revert acc. induction k as [| k IH]; intros acc; [simpl; lia |].
  cbn [repeat fold_left]. rewrite IH. lia.
Qed.

(** Equal gaps: their mean is the gap, an int, and their deviation is
    [0.0]. *)
Lemma mean_constant g k :
  (0 < k)%nat -> Statistics.mean (repeat g k) = Ok (NInt g).
Proof.
  intros Hk. unfold Statistics.mean, Statistics.sumZ, Statistics.reduce.
  destruct k as [| k]; [lia |].
  change (match repeat g (S k) with [] => _ | _ :: _ => ?x end) with x.
  rewrite fold_add_repeat, repeat_length.
  set (n := Z.of_nat (S k)). assert (Hn : 0 < n) by (subst n; lia).
  rewrite Z.add_0_l, Z.gcd_comm, (Z.mul_comm g n), Z.gcd_mul_diag_l by lia.
  rewrite Z.mul_comm, Z.div_mul, Z.div_same by lia.
  reflexivity.
Qed.

Lemma stdev_constant g k :
  (2 <= k)%nat -> Statistics.stdev (repeat g k) = Ok 0%float.
Proof.
  intros Hk. unfold Statistics.stdev.
  rewrite repeat_length.
  replace (k <? 2)%nat with false by (symmetry; apply Nat.ltb_ge; lia).
  unfold Statistics.variance_frac, Statistics.sumZ, Statistics.reduce.
  rewrite map_repeat, !fold_add_repeat, repeat_length.
  set (n := Z.of_nat k). assert (Hn : 2 <= n) by (subst n; lia).
  change (0 <=? 0) with true. cbv iota.
  replace ((n * (0 + g * g * n) - (0 + g * n) * (0 + g * n)) * 2 ^ (2 * 0))
    with 0 by ring.
  assert (Hd : 0 < n * (n - 1)) by nia.
  rewrite Z.gcd_0_l, Z.abs_eq by lia.
  rewrite Z.div_0_l, Z.div_same by lia.
  vm_compute. reflexivity.
Qed.

Lemma constant_gaps_repeat (G : list Z) g :
  (forall x, In x G -> x = g) -> G = repeat g (List.length G).
Proof.
  intros HG. apply Forall_eq_repeat. apply Forall_forall.
  intros x Hx. symmetry. now apply HG.
Qed.

(** An int mean between 27 and 33 with no deviation is monthly, with
    confidence 1. *)
Lemma best_pattern_monthly_window g :
  27 <= g <= 33 -> best_pattern_of (NInt g) (NFloat 0) = Ok ("monthly", NInt 1).
Proof.
  intros Hg.
  assert (Hc : g = 27 \/ g = 28 \/ g = 29 \/ g = 30 \/ g = 31 \/ g = 32 \/ g = 33)
    by lia.
  destruct Hc as [-> | [-> | [-> | [-> | [-> | [-> | ->]]]]]];
    vm_compute; reflexivity.
Qed.

End Classification.

Section CandidateGroup.

Lemma amount_close_negative_reference R t :
  is_finite (amount R) = true -> (amount R <? 0)%float = true ->
  is_nan (amount t) = false ->
  amount_close R t = Ok true.
Proof.
  intros HR Hneg Ht.
  destruct (ratio_negative_denominator _ _ Ht HR Hneg) as [Hz Hlt].
  unfold amount_close, PyFloat.truediv. rewrite Hz. cbn [obind].
  now rewrite Hlt.
Qed.

Lemma filter_permutation {A} (f : A -> bool) l l' :
  Permutation l l' -> Permutation (filter f l) (filter f l').
Proof.
  induction 1 as [| x l l' _ IH | x y l | l l' l'' _ IH1 _ IH2]; simpl.
  - constructor.
  - destruct (f x); [now constructor | exact IH].
  - destruct (f x), (f y); try reflexivity. apply perm_swap.
  - now transitivity (filter f l').
Qed.

Lemma filter_none {A} (f : A -> bool) l :
  (forall x, In x l -> f x = false) -> filter f l = [].
Proof.
  induction l as [| x l IH]; intros Hf; simpl; [reflexivity |].
  rewrite (Hf x (or_introl eq_refl)). apply IH. intros; apply Hf; now right.
Qed.

Lemma filter_every {A} (f : A -> bool) l :
  (forall x, In x l -> f x = true) -> filter f l = l.
Proof.
  induction l as [| x l IH]; intros Hf; simpl; [reflexivity |].
  rewrite (Hf x (or_introl eq_refl)). f_equal.
  apply IH. intros; apply Hf; now right.
Qed.

Lemma outside_group_not_candidate R o :
  outside_group R o -> candidate R o = false.
Proof.
  unfold candidate. intros [Hn | Ha].
  - apply String.eqb_neq in Hn. now rewrite Hn.
  - rewrite Ha. apply andb_false_r.
Qed.

(** The candidate group of a history made of [G] and of transactions
    outside the group is the candidate group of [G]. *)
Lemma candidate_group_among_others R G others H :
  (forall o, In o others -> outside_group R o) ->
  Permutation (G ++ others) H ->
  Permutation (candidate_group R G) (candidate_group R H).
Proof.
  intros Ho HP. unfold candidate_group.
  rewrite <- (filter_permutation _ _ _ HP), filter_app.
  rewrite (filter_none _ others), app_nil_r; [reflexivity |].
  intros o Hin. apply outside_group_not_candidate, Ho, Hin.
Qed.

(** A transaction of the reference's name and amount is a candidate when
    the amount is finite and not zero. *)
Lemma same_charge_candidate R t :
  name t = name R -> amount t = amount R ->
  is_finite (amount R) = true -> (amount R =? 0)%float = false ->
  candidate R t = true.
Proof.
  intros En Ea Hf Hnz. unfold candidate.
  rewrite En, Ea, String.eqb_refl.
  apply (ratio_same_amount _ Hf Hnz).
Qed.

End CandidateGroup.

(** C10: against a reference of finite, strictly negative amount the
    amount test holds for every amount that is a number (not a NaN), so
    the candidate group is the set of transactions whose lower-cased name
    is the reference's lower-cased name, whatever their amounts. *)
Theorem negative_reference_amount_filter_vacuous :
  forall (R : Transaction) (H : list Transaction),
    is_finite (amount R) = true ->
    (amount R <? 0)%float = true ->
    (forall t, In t H -> is_nan (amount t) = false) ->
    (forall t, In t H -> amount_close R t = Ok true)
    /\ vendor_txs R H = Ok (filter (same_vendor R) H).
Proof.
  intros R H HR Hneg HH.
  assert (Hc : forall t, In t H -> amount_close R t = Ok true).
  { intros t Ht. apply amount_close_negative_reference; auto. }
  split; [exact Hc |].
  unfold vendor_txs. apply ofilter_ok. intros t Ht.
  destruct (same_vendor R t); [apply Hc, Ht | reflexivity].
Qed.

Lemma negative_reference_amount_filter_vacuous_witness :
  is_finite (amount R_refund) = true
  /\ (amount R_refund <? 0)%float = true
  /\ vendor_txs R_refund H_refund =
     Ok [ mkTransaction "NETFLIX" 1000 "2024-02-01";
          mkTransaction "netflix" (-0.01) "2024-03-01" ].
Proof.
  split; [reflexivity |]. split; [reflexivity |].
  refine (proj2 (negative_reference_amount_filter_vacuous
                   R_refund H_refund eq_refl eq_refl _)).
  intros t [<- | [<- | [<- | []]]]; reflexivity.
Defined.

Section FourMonthly.

Variables (n : string) (a : float) (d0 d1 d2 d3 : string).
Variable V : list Transaction.

Let L := four_charges n a d0 d1 d2 d3.

Hypothesis dates_valid : monthly_dates d0 d1 d2 d3.
Hypothesis thirty_days_apart : thirty_apart d0 d1 d2 d3.
Hypothesis arrangement : Permutation L V.

Lemma four_monthly_members t :
  In t V -> name t = n /\ amount t = a /\ valid_date (date t) = true.
Proof.
  intros Ht. apply (Permutation_in _ (Permutation_sym arrangement)) in Ht.
  destruct dates_valid as (V0 & V1 & V2 & V3).
  destruct Ht as [<- | [<- | [<- | [<- | []]]]]; repeat split; assumption.
Qed.

Lemma four_monthly_chronological : chronological V = L.
Proof.
  destruct thirty_days_apart as (E1 & E2 & E3).
  apply (sorted_of_permutation (fun t => ordinal_of (date t))); [| exact arrangement].
  repeat constructor; simpl; lia.
Qed.

Lemma four_monthly_gaps : gaps_of V = [30; 30; 30].
Proof.
  destruct thirty_days_apart as (E1 & E2 & E3).
  unfold gaps_of. rewrite four_monthly_chronological.
  simpl. rewrite E3, E2, E1. repeat f_equal; lia.
Qed.

End FourMonthly.

(** Four charges of the reference's name and amount, 30 days apart, in a
    history whose other transactions are outside the candidate group. *)
Lemma four_monthly_detected n a dR d0 d1 d2 d3 others H :
  is_finite a = true -> (a =? 0)%float = false ->
  monthly_dates d0 d1 d2 d3 -> thirty_apart d0 d1 d2 d3 ->
  (forall o, In o others -> outside_group (mkTransaction n a dR) o) ->
  Permutation (four_charges n a d0 d1 d2 d3 ++ others) H ->
  yields (detect_sequence_patterns (mkTransaction n a dR) H 3)
         (Ok (mkSequenceFeatures (NInt 1) "monthly" 4)).
Proof.
  intros Hf Hnz Hv H30 Ho HP.
  set (R := mkTransaction n a dR) in *.
  assert (HV : Permutation (four_charges n a d0 d1 d2 d3) (candidate_group R H)).
  { rewrite <- (candidate_group_among_others R _ others H Ho HP).
    unfold candidate_group. rewrite filter_every; [reflexivity |].
    intros t Ht. apply same_charge_candidate; try assumption.
    - destruct Ht as [<- | [<- | [<- | [<- | []]]]]; reflexivity.
    - destruct Ht as [<- | [<- | [<- | [<- | []]]]]; reflexivity. }
  assert (Hlen : len (candidate_group R H) = 4).
  { unfold len. now rewrite <- (Permutation_length HV). }
  outcome_of (detect_sequence_patterns_group R H 3 Hnz).
  - rewrite (four_monthly_gaps n a d0 d1 d2 d3 _ H30 HV), Hlen.
    vm_compute. reflexivity.
  - lia.
  - intros t Ht. apply (four_monthly_members n a d0 d1 d2 d3 _ Hv HV t Ht).
Qed.

Example uneven_gaps :
  gaps_of H_uneven = [1; 65] /\ Statistics.mean [1; 65] = Ok (NInt 33).
Proof. split; vm_compute; reflexivity. Qed.

(** C3 as the spec states it fails twice.  Four charges of amount 0, 30
    days apart, are not classified (the zero-amount guard answers first);
    and a group of mean gap 33 whose gaps are 1 and 65 is not monthly
    (its confidence is negative, so the pattern stays "none"). *)
Lemma detect_sequence_patterns_claim_fails :
  ~ (forall n a dR d0 d1 d2 d3,
        monthly_dates d0 d1 d2 d3 -> thirty_apart d0 d1 d2 d3 ->
        exists c,
          yields (detect_sequence_patterns (mkTransaction n a dR)
                    (four_charges n a d0 d1 d2 d3) 3)
                 (Ok (mkSequenceFeatures c "monthly" 4)))
  /\ ~ (forall R H V,
          (amount R =? 0)%float = false ->
          vendor_txs R H = Ok V -> 3 <= len V ->
          (forall t, In t V -> valid_date (date t) = true) ->
          Statistics.mean (gaps_of V) = Ok (NInt 33) ->
          exists c,
            yields (detect_sequence_patterns R H 3)
                   (Ok (mkSequenceFeatures c "monthly" (len V)))).
Proof.
  split; intros Hclaim.
  - destruct (Hclaim "Netflix" 0%float "2024-01-01"
                "2024-01-01" "2024-01-31" "2024-03-01" "2024-03-31")
      as [c Hc].
    + repeat split; reflexivity.
    + repeat split; reflexivity.
    + assert (H0 : yields (detect_sequence_patterns
                             (mkTransaction "Netflix" 0 "2024-01-01")
                             (four_charges "Netflix" 0 "2024-01-01" "2024-01-31"
                                           "2024-03-01" "2024-03-31") 3)
                          (Ok no_sequence)).
      { outcome_of detect_sequence_patterns_yields.
        vm_compute. reflexivity. }
      pose proof (yields_unique _ _ _ Hc H0) as E. inversion E.
  - destruct (Hclaim R_uneven H_uneven H_uneven) as [c Hc].
    + reflexivity.
    + vm_compute. reflexivity.
    + vm_compute. discriminate.
    + intros t [<- | [<- | [<- | []]]]; reflexivity.
    + vm_compute. reflexivity.
    + assert (H0 : yields (detect_sequence_patterns R_uneven H_uneven 3)
                          (Ok (mkSequenceFeatures (NFloat 0) "none" 3))).
      { outcome_of detect_sequence_patterns_yields.
        vm_compute. reflexivity. }
      pose proof (yields_unique _ _ _ Hc H0) as E. inversion E.
Qed.

(** C3 (amended).  A history that contains four charges of the
    reference's name and finite non-zero amount, 30 days apart, in any
    order and among any transactions outside the candidate group, gives
    the pattern "monthly" with confidence 1 (the int 1, equal to 1.0) and
    length 4.  A history whose candidate group has fewer than 3
    transactions (two such charges among transactions outside the group,
    say), or a reference of amount 0, gives confidence 0.0, pattern
    "none", length 0.  A candidate group of at least 3 with mean gap 33
    is "monthly" exactly when its confidence [1 - stdev / (30 + 1e-6)] is
    positive; it is when all its gaps are equal (to 33, or to any number
    of days from 27 to 33), with confidence 1; a group with mean gap 35
    has no pattern. *)
Theorem detect_sequence_patterns_spec :
  (forall n a dR d0 d1 d2 d3 others H,
      is_finite a = true -> (a =? 0)%float = false ->
      monthly_dates d0 d1 d2 d3 -> thirty_apart d0 d1 d2 d3 ->
      (forall o, In o others -> outside_group (mkTransaction n a dR) o) ->
      Permutation (four_charges n a d0 d1 d2 d3 ++ others) H ->
      yields (detect_sequence_patterns (mkTransaction n a dR) H 3)
             (Ok (mkSequenceFeatures (NInt 1) "monthly" 4))
      /\ Num.eqb (NInt 1) (NFloat 1) = true)
  /\ (forall R G others H,
         len G < 3 ->
         (forall o, In o others -> outside_group R o) ->
         Permutation (G ++ others) H ->
         yields (detect_sequence_patterns R H 3) (Ok no_sequence))
  /\ (forall R H,
         (amount R =? 0)%float = true ->
         yields (detect_sequence_patterns R H 3) (Ok no_sequence))
  /\ (forall R H sd,
         (amount R =? 0)%float = false ->
         3 <= len (candidate_group R H) ->
         (forall t, In t (candidate_group R H) -> valid_date (date t) = true) ->
         Statistics.mean (gaps_of (candidate_group R H)) = Ok (NInt 33) ->
         Statistics.stdev (gaps_of (candidate_group R H)) = Ok sd ->
         yields (detect_sequence_patterns R H 3)
                (Ok (if Num.gtb (monthly_confidence sd) (NFloat 0)
                     then mkSequenceFeatures (clamp (monthly_confidence sd))
                            "monthly" (len (candidate_group R H))
                     else mkSequenceFeatures (NFloat 0)
                            "none" (len (candidate_group R H)))))
  /\ (forall R H g,
         (amount R =? 0)%float = false ->
         3 <= len (candidate_group R H) ->
         (forall t, In t (candidate_group R H) -> valid_date (date t) = true) ->
         (forall x, In x (gaps_of (candidate_group R H)) -> x = g) ->
         27 <= g <= 33 ->
         yields (detect_sequence_patterns R H 3)
                (Ok (mkSequenceFeatures (NInt 1) "monthly"
                       (len (candidate_group R H)))))
  /\ (forall R H sd,
         (amount R =? 0)%float = false ->
         3 <= len (candidate_group R H) ->
         (forall t, In t (candidate_group R H) -> valid_date (date t) = true) ->
         Statistics.mean (gaps_of (candidate_group R H)) = Ok (NInt 35) ->
         Statistics.stdev (gaps_of (candidate_group R H)) = Ok sd ->
         yields (detect_sequence_patterns R H 3)
                (Ok (mkSequenceFeatures (NFloat 0) "none"
                       (len (candidate_group R H))))).
Proof.
  assert (Hlong : forall V : list Transaction,
             3 <= len V -> (2 <= List.length (gaps_of V))%nat).
  { intros V HV. rewrite gaps_of_length. unfold len in HV. lia. }
  split; [| split; [| split; [| split; [| split]]]].
  - intros n a dR d0 d1 d2 d3 others H Hf Hnz Hv H30 Ho HP. split.
    + apply (four_monthly_detected n a dR d0 d1 d2 d3 others H); assumption.
    + vm_compute. reflexivity.
  - intros R G others H HG Ho HP.
    apply detect_sequence_patterns_small_group.
    pose proof (Permutation_length
                  (candidate_group_among_others R G others H Ho HP)) as El.
    pose proof (filter_length_le (candidate R) G) as Hle.
    unfold candidate_group, len in *. lia.
  - intros R H Ha.
    outcome_of detect_sequence_patterns_yields.
    unfold detect_sequence_patterns_outcome. now rewrite Ha.
  - intros R H sd Ha Hlen Hv Hmean Hsd.
    outcome_of (detect_sequence_patterns_group R H 3 Ha Hlen Hv).
    rewrite (classify_long _ _ _ _ (Hlong _ Hlen) Hmean Hsd).
    rewrite best_pattern_mean_33. cbn [obind].
    destruct (Num.gtb _ _); reflexivity.
  - intros R H g Ha Hlen Hv Hg Hwin.
    outcome_of (detect_sequence_patterns_group R H 3 Ha Hlen Hv).
    pose proof (Hlong _ Hlen) as Hl.
    rewrite (classify_long _ _ (NInt g) 0%float Hl).
    + now rewrite (best_pattern_monthly_window g Hwin).
    + rewrite (constant_gaps_repeat _ g Hg). apply mean_constant. lia.
    + rewrite (constant_gaps_repeat _ g Hg). apply stdev_constant. lia.
  - intros R H sd Ha Hlen Hv Hmean Hsd.
    outcome_of (detect_sequence_patterns_group R H 3 Ha Hlen Hv).
    rewrite (classify_long _ _ _ _ (Hlong _ Hlen) Hmean Hsd).
    rewrite best_pattern_mean_35. reflexivity.
Qed.

Lemma detect_sequence_patterns_spec_witness :
  yields (detect_sequence_patterns R_monthly H_monthly_among_others 3)
         (Ok (mkSequenceFeatures (NInt 1) "monthly" 4))
  /\ yields (detect_sequence_patterns R_monthly H_two_among_others 3)
            (Ok no_sequence)
  /\ yields (detect_sequence_patterns R_uneven H_every_33 3)
            (Ok (mkSequenceFeatures (NInt 1) "monthly" 3))
  /\ yields (detect_sequence_patterns R_uneven H_every_35 3)
            (Ok (mkSequenceFeatures (NFloat 0) "none" 3)).
Proof.
  destruct detect_sequence_patterns_spec as (P1 & P2 & _ & _ & P4 & P5).
  assert (Hhulu : forall d, outside_group R_monthly (mkTransaction "Hulu" 15.99 d)).
  { intros d. left. intros E. vm_compute in E. discriminate E. }
  assert (E33 : candidate_group R_uneven H_every_33 = H_every_33)
    by (vm_compute; reflexivity).
  assert (E35 : candidate_group R_uneven H_every_35 = H_every_35)
    by (vm_compute; reflexivity).
  split; [| split; [| split]].
  - refine (proj1 (P1 "Netflix" 15.99%float "2024-03-31"
                      "2024-01-01" "2024-01-31" "2024-03-01" "2024-03-31"
                      [ mkTransaction "Hulu" 15.99 "2024-01-31";
                        mkTransaction "Netflix" 99.99 "2024-02-15" ]
                      H_monthly_among_others eq_refl eq_refl _ _ _ _)).
    + repeat split; reflexivity.
    + repeat split; reflexivity.
    + intros o [<- | [<- | []]]; [apply Hhulu | right; reflexivity].
    + unfold H_monthly_among_others, H_monthly, four_charges.
      apply (Permutation_cons_app
               [ mkTransaction "Hulu" 15.99 "2024-01-31";
                 mkTransaction "Netflix" 15.99 "2024-01-31" ]).
      apply (Permutation_cons_app [ mkTransaction "Hulu" 15.99 "2024-01-31" ]).
      apply (Permutation_cons_app [ mkTransaction "Hulu" 15.99 "2024-01-31" ]).
      apply perm_swap.
  - apply (P2 R_monthly
              [ mkTransaction "Netflix" 15.99 "2024-01-01";
                mkTransaction "Netflix" 15.99 "2024-01-31" ]
              [ mkTransaction "Hulu" 15.99 "2024-01-01";
                mkTransaction "Hulu" 15.99 "2024-01-31" ]).
    + reflexivity.
    + intros o [<- | [<- | []]]; apply Hhulu.
    + unfold H_two_among_others.
      apply (Permutation_cons_app [ mkTransaction "Hulu" 15.99 "2024-01-01" ]).
      apply (Permutation_cons_app
               [ mkTransaction "Hulu" 15.99 "2024-01-01";
                 mkTransaction "Hulu" 15.99 "2024-01-31" ]).
      reflexivity.
  - outcome_of (P4 R_uneven H_every_33 33).
    + rewrite E33. reflexivity.
    + reflexivity.
    + rewrite E33. vm_compute. discriminate.
    + rewrite E33. intros t [<- | [<- | [<- | []]]]; reflexivity.
    + rewrite E33. intros x Hx. vm_compute in Hx.
      destruct Hx as [<- | [<- | []]]; reflexivity.
    + lia.
  - outcome_of (P5 R_uneven H_every_35 0%float).
    + rewrite E35. reflexivity.
    + reflexivity.
    + rewrite E35. vm_compute. discriminate.
    + rewrite E35. intros t [<- | [<- | [<- | []]]]; reflexivity.
    + rewrite E35. vm_compute. reflexivity.
    + rewrite E35. vm_compute. reflexivity.
Defined.

(** * get_n_transactions_days_apart *)

Section DaysApart.

Variables (R : Transaction) (H : list Transaction) (p tol : Z).

Lemma get_n_transactions_days_apart_yields :
  yields (get_n_transactions_days_apart R H p tol)
    (td <- PyDate.strptime (date R) ;; ofold (days_apart_step p tol td) H 0)%outcome.
Proof.
  unfold get_n_transactions_days_apart.
  apply yields_bind; [apply yields_parse_date |].
  intros td _. apply yields_foldM. intros n t _.
  unfold days_apart_step.
  apply yields_bind; [apply yields_parse_date |].
  intros d _. cbv zeta.
  destruct (_ <? _); [apply yields_ret |].
  apply yields_bind; [apply yields_lift |].
  intros r _. destruct (_ || _); apply yields_ret.
Qed.

Hypothesis reference_valid : valid_date (date R) = true.
Hypothesis history_valid : forall t, In t H -> valid_date (date t) = true.

Lemma days_apart_fold td l acc :
  PyDate.strptime (date R) = Ok td ->
  p <> 0 ->
  (forall t, In t l -> valid_date (date t) = true) ->
  ofold (days_apart_step p tol td) l acc = Ok (acc + len (filter (counted R p tol) l)).
Proof.
  intros Htd Hp. revert acc.
  induction l as [| t l IH]; intros acc Hl; simpl.
  - f_equal. unfold len. simpl. lia.
  - destruct (valid_date_parsed _ (Hl t (or_introl eq_refl))) as [d Hd].
    unfold days_apart_step at 1. rewrite Hd. cbn [obind]. cbv zeta.
    unfold counted at 1, near_multiple, days_between, PyDate.sub_days.
    rewrite (ordinal_of_parsed _ _ Htd), (ordinal_of_parsed _ _ Hd).
    set (diff := Z.abs (PyDate.toordinal d - PyDate.toordinal td)).
    destruct (diff <? p - tol); cbn [negb andb].
    + simpl obind. apply IH. intros; apply Hl; now right.
    + unfold int_mod. rewrite (proj2 (Z.eqb_neq p 0) Hp). cbn [obind].
      destruct (_ || _); cbn [obind].
      * rewrite IH by (intros; apply Hl; now right).
        f_equal. unfold len. cbn [List.length]. lia.
      * apply IH. intros; apply Hl; now right.
Qed.

Lemma get_n_transactions_days_apart_count :
  p <> 0 ->
  yields (get_n_transactions_days_apart R H p tol)
         (Ok (len (filter (counted R p tol) H))).
Proof.
  intros Hp. outcome_of get_n_transactions_days_apart_yields.
  destruct (valid_date_parsed _ reference_valid) as [td Htd].
  rewrite Htd. cbn [obind].
  rewrite (days_apart_fold td H 0 Htd Hp history_valid). reflexivity.
Qed.

End DaysApart.

Lemma get_n_transactions_days_apart_zero_period R H tol :
  valid_date (date R) = true ->
  (forall t, In t H -> valid_date (date t) = true) ->
  0 <= tol -> H <> [] ->
  yields (get_n_transactions_days_apart R H 0 tol) (Raise ZeroDivisionError).
Proof.
  intros HR HH Htol Hne.
  outcome_of get_n_transactions_days_apart_yields.
  destruct (valid_date_parsed _ HR) as [td Htd].
  rewrite Htd. cbn [obind].
  destruct H as [| t l]; [congruence |]. simpl.
  destruct (valid_date_parsed _ (HH t (or_introl eq_refl))) as [d Hd].
  unfold days_apart_step at 1. rewrite Hd. cbn [obind]. cbv zeta.
  replace (_ <? 0 - tol) with false by (symmetry; apply Z.ltb_ge; lia).
  reflexivity.
Qed.

Lemma get_n_transactions_days_apart_nil_history R p tol :
  valid_date (date R) = true ->
  yields (get_n_transactions_days_apart R [] p tol) (Ok 0).
Proof.
  intros HR. outcome_of get_n_transactions_days_apart_yields.
  destruct (valid_date_parsed _ HR) as [td Htd].
  rewrite Htd. reflexivity.
Qed.

Lemma exact_multiple_counted (R T : Transaction) (p k : Z) :
  0 < p -> k <> 0 -> days_between T R = Z.abs (p * k) ->
  counted R p 0 T = true.
Proof.
  intros Hp Hk Hd. unfold counted, near_multiple. rewrite Hd.
  rewrite Z.abs_mul, (Z.abs_eq p) by lia.
  rewrite Z.mul_comm, Z.mod_mul by lia.
  rewrite Z.sub_0_r.
  replace (Z.abs k * p <? p) with false by (symmetry; apply Z.ltb_ge; nia).
  reflexivity.
Qed.

(** C5 as the spec states it fails for [k = 0]: a transaction on the
    reference's own date is [14 * 0] days away, and the count with
    tolerance 0 leaves it out. *)
Lemma same_day_not_counted :
  ~ (forall (R T : Transaction) (p k : Z),
        0 < p ->
        valid_date (date R) = true -> valid_date (date T) = true ->
        days_between T R = Z.abs (p * k) ->
        yields (get_n_transactions_days_apart R [T] p 0) (Ok 1)).
Proof.
  intros Hclaim.
  specialize (Hclaim R_netflix R_netflix 14 0 eq_refl eq_refl eq_refl eq_refl).
  assert (H0 : yields (get_n_transactions_days_apart R_netflix [R_netflix] 14 0)
                      (Ok 0)).
  { outcome_of get_n_transactions_days_apart_yields.
    vm_compute. reflexivity. }
  pose proof (yields_unique _ _ _ Hclaim H0) as E. discriminate E.
Qed.

(** C5 (amended): for a period other than 0 and well-formed dates,
    [get_n_transactions_days_apart] counts exactly the transactions whose
    day distance [diff] from the reference satisfies
    [diff >= period - tolerance] and whose remainder [diff mod period] is
    at most [tolerance] or at least [period - tolerance]; and for a
    positive period, a transaction exactly [period * k] days away with
    [k <> 0] is counted at tolerance 0. *)
Theorem get_n_transactions_days_apart_spec :
  forall (R : Transaction) (H : list Transaction) (p tol : Z),
    p <> 0 ->
    valid_date (date R) = true ->
    (forall t, In t H -> valid_date (date t) = true) ->
    yields (get_n_transactions_days_apart R H p tol)
           (Ok (len (filter (counted R p tol) H)))
    /\ (forall t, counted R p tol t =
                  negb (days_between t R <? p - tol)
                  && ((days_between t R mod p <=? tol)
                      || (p - tol <=? days_between t R mod p)))
    /\ (forall T k, 0 < p -> k <> 0 -> days_between T R = Z.abs (p * k) ->
                    counted R p 0 T = true).
Proof.
  intros R H p tol Hp HR HH. repeat split.
  - apply get_n_transactions_days_apart_count; assumption.
  - intros T k Hpos Hk Hd. apply (exact_multiple_counted R T p k); assumption.
Qed.

Lemma get_n_transactions_days_apart_spec_witness :
  valid_date (date R_netflix) = true
  /\ yields (get_n_transactions_days_apart R_netflix
               [R_netflix; T_netflix_14] 14 0) (Ok 1)
  /\ counted R_netflix 14 0 T_netflix_14 = true.
Proof.
  split; [reflexivity |].
  assert (Hv : forall t, In t [R_netflix; T_netflix_14] ->
                         valid_date (date t) = true).
  { intros t [<- | [<- | []]]; reflexivity. }
  pose proof (get_n_transactions_days_apart_spec
                R_netflix [R_netflix; T_netflix_14] 14 0
                ltac:(discriminate) eq_refl Hv) as (Hy & _ & Hk).
  split; [exact Hy |].
  apply (Hk T_netflix_14 1); [reflexivity | discriminate | reflexivity].
Defined.

(** C7 as the spec states it fails: a period of 0 on an empty history is
    not rejected, the call returns 0. *)
Lemma zero_period_not_rejected :
  ~ (forall (R : Transaction) (H : list Transaction) (p tol : Z),
        p <= 0 ->
        exists e, yields (get_n_transactions_days_apart R H p tol) (Raise e)).
Proof.
  intros Hclaim.
  destruct (Hclaim R_netflix [] 0 0 ltac:(lia)) as [e He].
  assert (H0 : yields (get_n_transactions_days_apart R_netflix [] 0 0) (Ok 0)).
  { apply get_n_transactions_days_apart_nil_history; reflexivity. }
  pose proof (yields_unique _ _ _ He H0) as E. discriminate E.
Qed.

(** C7 (amended): the period is not validated.  With well-formed dates,
    a negative period returns the count of the matching transactions, a
    period of 0 returns 0 on an empty history and raises
    [ZeroDivisionError] on a non-empty one (tolerance at least 0). *)
Theorem get_n_transactions_days_apart_unvalidated_period :
  forall (R : Transaction) (H : list Transaction) (p tol : Z),
    valid_date (date R) = true ->
    (forall t, In t H -> valid_date (date t) = true) ->
    (p < 0 ->
     yields (get_n_transactions_days_apart R H p tol)
            (Ok (len (filter (counted R p tol) H))))
    /\ (p = 0 -> H = [] ->
        yields (get_n_transactions_days_apart R H p tol) (Ok 0))
    /\ (p = 0 -> 0 <= tol -> H <> [] ->
        yields (get_n_transactions_days_apart R H p tol)
               (Raise ZeroDivisionError)).
Proof.
  intros R H p tol HR HH. repeat split.
  - intros Hp. apply get_n_transactions_days_apart_count; auto; lia.
  - intros _ ->. apply get_n_transactions_days_apart_nil_history; auto.
  - intros -> Htol Hne.
    apply get_n_transactions_days_apart_zero_period; auto.
Qed.

Lemma get_n_transactions_days_apart_unvalidated_period_witness :
  valid_date (date R_netflix) = true
  /\ yields (get_n_transactions_days_apart R_netflix [T_netflix_14] 0 0)
            (Raise ZeroDivisionError)
  /\ yields (get_n_transactions_days_apart R_netflix [T_netflix_14] (-7) 0)
            (Ok 1).
Proof.
  split; [reflexivity |].
  assert (Hv : forall t, In t [T_netflix_14] -> valid_date (date t) = true).
  { intros t [<- | []]; reflexivity. }
  split.
  - apply (get_n_transactions_days_apart_unvalidated_period
             R_netflix [T_netflix_14] 0 0 eq_refl Hv);
      [reflexivity | discriminate | discriminate].
  - apply (proj1 (get_n_transactions_days_apart_unvalidated_period
                    R_netflix [T_netflix_14] (-7) 0 eq_refl Hv)).
    reflexivity.
Defined.

(** * get_ends_in_99 *)

(** C2 (the code departs from the claim): for the amount 19.99 the test
    is false.  The binary64 product [19.99 * 100] is
    [1998.9999999999998], whose remainder modulo 100 is not 99. *)
Theorem get_ends_in_99_amount_19_99 :
  forall (n d : string), get_ends_in_99 (mkTransaction n 19.99 d) = Ok false.
Proof. intros n d. vm_compute. reflexivity. Qed.

Example product_19_99 : (19.99 * 100 =? 1998.9999999999998)%float = true.
Proof. vm_compute. reflexivity. Qed.

Example get_ends_in_99_amount_20_00 :
  forall n d, get_ends_in_99 (mkTransaction n 20.00 d) = Ok false.
Proof. intros n d. vm_compute. reflexivity. Qed.

Example get_ends_in_99_amount_2_99 :
  forall n d, get_ends_in_99 (mkTransaction n 2.99 d) = Ok true.
Proof. intros n d. vm_compute. reflexivity. Qed.

(** * get_is_recurring *)

Section IsRecurring.

Variables (R : Transaction) (H : list Transaction).

(** What the function computes, the memo table set aside. *)
Lemma get_is_recurring_yields :
  yields (get_is_recurring R H)
    (transaction_date <- PyDate.strptime (date R) ;;
     match filter (is_similar R) H with
     | [] => Ok false
     | similar =>
         gaps <- omap (fun t => d <- PyDate.strptime (date t) ;;
                                Ok (Z.abs (PyDate.sub_days transaction_date d)))
                      similar ;;
         Ok (existsb periodic (sorted Z.leb gaps))
     end)%outcome.
Proof.
  unfold get_is_recurring.
  apply yields_bind; [apply yields_parse_date |].
  intros td _.
  destruct (filter (is_similar R) H) as [| t l]; [apply yields_ret |].
  apply yields_bind.
  - apply yields_mapM. intros x _.
    apply yields_bind; [apply yields_parse_date |].
    intros d _. apply yields_ret.
  - intros gaps _. apply yields_ret.
Qed.

Hypothesis reference_valid : valid_date (date R) = true.
Hypothesis similar_valid :
  forall t, In t H -> is_similar R t = true -> valid_date (date t) = true.

Lemma get_is_recurring_value :
  yields (get_is_recurring R H) (Ok (existsb (recurring_match R) H)).
Proof.
  outcome_of get_is_recurring_yields.
  destruct (valid_date_parsed _ reference_valid) as [dR HdR].
  rewrite HdR. cbn [obind].
  assert (Hgaps :
    omap (fun t => d <- PyDate.strptime (date t) ;;
                   Ok (Z.abs (PyDate.sub_days dR d)))%outcome
         (filter (is_similar R) H)
    = Ok (map (days_between R) (filter (is_similar R) H))).
  { apply omap_ok. intros t Ht. apply filter_In in Ht as [Hin Hsim].
    destruct (valid_date_parsed _ (similar_valid t Hin Hsim)) as [d Hd].
    rewrite Hd. simpl. unfold days_between, PyDate.sub_days.
    rewrite (ordinal_of_parsed _ _ HdR), (ordinal_of_parsed _ _ Hd).
    reflexivity. }
  unfold recurring_match. rewrite <- existsb_map_filter.
  revert Hgaps.
  destruct (filter (is_similar R) H) as [| t l]; intros Hgaps; [reflexivity |].
  rewrite Hgaps. cbn [obind]. rewrite existsb_sorted. reflexivity.
Qed.

Lemma recurring_match_iff :
  existsb (recurring_match R) H = true <->
  exists t, In t H /\ is_similar R t = true
            /\ periodic (days_between R t) = true.
Proof.
  rewrite existsb_exists. unfold recurring_match.
  split; intros (t & Hin & Ht).
  - apply andb_prop in Ht as [Hs Hp]. eauto.
  - exists t. destruct Ht as [-> ->]. auto.
Qed.

End IsRecurring.

Lemma is_similar_matches R t : is_similar R t = true <-> matches_reference R t.
Proof.
  unfold is_similar, matches_reference.
  rewrite !andb_true_iff, negb_true_iff, String.eqb_eq, String.eqb_neq. tauto.
Qed.

Lemma periodic_divisible d : periodic d = true <-> divisible_by_period d.
Proof.
  unfold periodic, divisible_by_period.
  rewrite !orb_true_iff, !Z.eqb_eq, !Z.mod_divide by lia. tauto.
Qed.

(** C4: with the dates of the reference and of the matching transactions
    well formed, [get_is_recurring] returns a boolean, which is true
    exactly when some transaction of the history whose name is the
    reference's, whose amount equals the reference's and whose date
    string differs from the reference's lies at a day distance that 7, 14
    or 30 divides.  Such a transaction 14 days away gives true; when all
    of them are 10 days away the result is false; when there is none the
    result is false. *)
Theorem get_is_recurring_spec :
  forall (R : Transaction) (H : list Transaction),
    valid_date (date R) = true ->
    (forall t, In t H -> matches_reference R t -> valid_date (date t) = true) ->
    exists b : bool,
      yields (get_is_recurring R H) (Ok b)
      /\ (b = true <->
          exists t, In t H
                    /\ (name t = name R
                        /\ (amount t =? amount R)%float = true
                        /\ date t <> date R)
                    /\ ((7 | days_between R t)
                        \/ (14 | days_between R t)
                        \/ (30 | days_between R t)))
      /\ ((exists t, In t H /\ matches_reference R t /\ days_between R t = 14) ->
          b = true)
      /\ ((forall t, In t H -> matches_reference R t -> days_between R t = 10) ->
          b = false)
      /\ ((forall t, In t H -> ~ matches_reference R t) -> b = false).
Proof.
  intros R H HR HH.
  exists (existsb (recurring_match R) H).
  assert (Hiff : existsb (recurring_match R) H = true <->
                 exists t, In t H /\ matches_reference R t
                           /\ divisible_by_period (days_between R t)).
  { rewrite recurring_match_iff. split; intros (t & Hin & Hs & Hp); exists t.
    - split; [exact Hin |]. split; [now apply is_similar_matches |].
      now apply periodic_divisible.
    - split; [exact Hin |]. split; [now apply is_similar_matches |].
      now apply periodic_divisible. }
  assert (Hnot : forall b : bool, ~ b = true -> b = false)
    by (intros []; congruence).
  split; [| split; [exact Hiff | split; [| split]]].
  - apply get_is_recurring_value; [exact HR |].
    intros t Hin Hs. apply (HH t Hin). now apply is_similar_matches.
  - intros (t & Hin & Hm & Hd). apply Hiff. exists t.
    split; [exact Hin |]. split; [exact Hm |].
    rewrite Hd. right. left. exists 1. reflexivity.
  - intros H10. apply Hnot. intros Hb. apply Hiff in Hb as (t & Hin & Hm & Hp).
    rewrite (H10 t Hin Hm) in Hp.
    destruct Hp as [[k Hk] | [[k Hk] | [k Hk]]]; lia.
  - intros Hnone. apply Hnot. intros Hb. apply Hiff in Hb as (t & Hin & Hm & _).
    exact (Hnone t Hin Hm).
Qed.

Lemma get_is_recurring_spec_witness :
  valid_date (date R_netflix) = true
  /\ yields (get_is_recurring R_netflix H_recurring_month) (Ok true)
  /\ yields (get_is_recurring R_netflix H_recurring_near) (Ok false).
Proof.
  split; [reflexivity |]. split.
  - destruct (get_is_recurring_spec R_netflix H_recurring_month eq_refl)
      as (b & Hy & Hiff & _).
    + intros t [<- | [<- | [<- | [<- | [<- | []]]]]] _; reflexivity.
    + replace true with b; [exact Hy |].
      apply Hiff. exists (mkTransaction "Netflix" 15.99 "2024-01-31").
      split; [simpl; tauto |]. split.
      * repeat split. discriminate.
      * right. right. exists 1. reflexivity.
  - destruct (get_is_recurring_spec R_netflix H_recurring_near eq_refl)
      as (b & Hy & _ & _ & H10 & _).
    + intros t [<- | [<- | [<- | [<- | []]]]] _; reflexivity.
    + replace false with b; [exact Hy |].
      apply H10.
      intros t [<- | [<- | [<- | [<- | []]]]] (Hn & Ha & Hd);
        try discriminate Hn; try discriminate Ha;
        try (exfalso; apply Hd; reflexivity).
      reflexivity.
Defined.

(** * get_recurring_transaction_confidence *)

Section Confidence.

Variables (R : Transaction) (H : list Transaction).

Lemma interval_regularities_yields :
  yields (interval_regularities R H) (interval_regularities_outcome R H).
Proof.
  unfold interval_regularities, interval_regularities_outcome.
  apply yields_bind.
  - apply yields_mapM. intros t _. apply yields_parse_date.
  - intros ds _. destruct (len ds <? 2); [apply yields_ret |].
    cbv zeta. destruct (len _ <? 2); [apply yields_ret |].
    apply yields_bind; [apply yields_lift |].
    intros sd _. apply yields_ret.
Qed.

Lemma transaction_frequency_yields :
  yields (transaction_frequency R H) (transaction_frequency_outcome R H).
Proof.
  unfold transaction_frequency, transaction_frequency_outcome.
  apply yields_bind; [apply yields_parse_date |].
  intros td _. apply yields_bind.
  - apply yields_filterM. intros t _.
    destruct (String.eqb (name t) (name R)); [| apply yields_ret].
    apply yields_bind; [apply yields_parse_date |].
    intros d _. apply yields_ret.
  - intros near _. apply yields_ret.
Qed.

Lemma get_recurring_transaction_confidence_yields :
  yields (get_recurring_transaction_confidence R H)
    (stability <- amount_stability R H ;;
     regularity <- interval_regularities_outcome R H ;;
     frequency <- transaction_frequency_outcome R H ;;
     similarity <- metadata_similarity R H ;;
     confidence_score stability regularity frequency similarity)%outcome.
Proof.
  unfold get_recurring_transaction_confidence.
  apply yields_bind; [apply yields_lift |]. intros st _.
  apply yields_bind; [apply interval_regularities_yields |]. intros rg _.
  apply yields_bind; [apply transaction_frequency_yields |]. intros fr _.
  apply yields_bind; [apply yields_lift |]. intros sm _.
  apply yields_lift.
Qed.

End Confidence.

Section ConfidenceTerms.

(** The frequency term is [0.2] as soon as the count is positive and [0]
    when it is 0. *)
Lemma frequency_term_binary n :
  0 <= n ->
  frequency_term n = Ok (NFloat (if 0 <? n then 0.2 else 0)).
Proof.
  intros Hn. unfold frequency_term.
  destruct (0 <? n) eqn:E.
  - apply Z.ltb_lt in E.
    assert (Hmax : Num.max (NInt n) (NInt 1) = NInt n).
    { unfold Num.max, Num.gtb, Num.ltb. cbn [Num.compare].
      destruct (n ?= 1) eqn:C; try reflexivity.
      assert (Hlt : n < 1) by exact C. lia. }
    rewrite Hmax. cbn [Num.div]. rewrite (int_truediv_self n E).
    vm_compute. reflexivity.
  - apply Z.ltb_ge in E. assert (n = 0) by lia. subst n.
    vm_compute. reflexivity.
Qed.

(** The sentinel of "no regularity" contributes nothing. *)
Lemma infinite_regularity_term : inverse_term (NFloat infinity) 0.3 = Ok (NFloat 0).
Proof. vm_compute. reflexivity. Qed.

(** Fewer than two comparison transactions: stability [1.0], regularity
    [+inf]. *)
Lemma sparse_history_signals R H :
  len (filter (is_comparison R) H) < 2 ->
  (forall t, In t H -> is_comparison R t = true -> valid_date (date t) = true) ->
  amount_stability R H = Ok (NFloat 1)
  /\ yields (interval_regularities R H) (Ok (NFloat infinity)).
Proof.
  intros Hlen Hv. split.
  - unfold amount_stability. cbv zeta. unfold len in *. rewrite length_map.
    now rewrite (proj2 (Z.ltb_lt _ _) Hlen).
  - outcome_of interval_regularities_yields.
    unfold interval_regularities_outcome.
    rewrite (omap_ok _ (fun t => date_of (date t))).
    + cbn [obind]. unfold len in *. rewrite length_map.
      now rewrite (proj2 (Z.ltb_lt _ _) Hlen).
    + intros t Ht. apply filter_In in Ht as [Hin Hc].
      destruct (valid_date_parsed _ (Hv t Hin Hc)) as [d Hd].
      now rewrite (date_of_parsed _ _ Hd).
Qed.

End ConfidenceTerms.

Example refunds_stability :
  amount_stability R_refunds H_refunds = Ok (NFloat (-1)).
Proof. vm_compute. reflexivity. Qed.

(** C6 (the code departs from the claim): the composite score is not
    returned for every history.  For comparison amounts 0, -1 and -2 the
    standard deviation is 1 and the mean -1, so the stability is -1 and
    the first term [1 / (1 + stability)] divides by zero: the call raises
    [ZeroDivisionError]. *)
Theorem confidence_raises_on_stability_minus_one :
  yields (get_recurring_transaction_confidence R_refunds H_refunds)
         (Raise ZeroDivisionError).
Proof.
  outcome_of get_recurring_transaction_confidence_yields.
  vm_compute. reflexivity.
Qed.

(** * Same-amount counts *)

Lemma same_amount_count_bounds R H :
  0 <= get_n_transactions_same_amount R H <= len H.
Proof.
  unfold get_n_transactions_same_amount, len.
  pose proof (filter_length_le (same_amount R) H). lia.
Qed.

(** C8: the percentage is the count divided by the size of the history
    (Python's true division, which here returns a float and cannot raise),
    and [0.0] on an empty history. *)
Theorem percent_same_amount_is_count_over_len :
  forall (R : Transaction) (H : list Transaction),
    get_percent_transactions_same_amount R H =
    match H with
    | [] => Ok 0%float
    | _ :: _ =>
        PyFloat.int_truediv (get_n_transactions_same_amount R H) (len H)
    end
    /\ exists f, get_percent_transactions_same_amount R H = Ok f.
Proof.
  intros R H.
  assert (E : get_percent_transactions_same_amount R H =
              match H with
              | [] => Ok 0%float
              | _ :: _ =>
                  PyFloat.int_truediv (get_n_transactions_same_amount R H) (len H)
              end) by (destruct H; reflexivity).
  split; [exact E |]. rewrite E.
  destruct H as [| t H]; [eexists; reflexivity |].
  apply int_truediv_fraction.
  - apply same_amount_count_bounds.
  - unfold len. simpl List.length. lia.
Qed.

(** * Empty history *)

Section EmptyHistory.

Variable R : Transaction.

Lemma detect_sequence_patterns_nil s :
  detect_sequence_patterns R [] 3 s = (Ok no_sequence, s).
Proof.
  unfold detect_sequence_patterns.
  destruct (amount R =? 0)%float; reflexivity.
Qed.

Lemma get_ends_in_99_total : exists b, get_ends_in_99 R = Ok b.
Proof.
  unfold get_ends_in_99, PyFloat.mod_.
  change (is_zero 100) with false. cbv iota.
  destruct (is_nan _); [eexists; reflexivity |].
  destruct (is_zero _); [eexists; reflexivity |].
  destruct (Bool.eqb _ _); eexists; reflexivity.
Qed.

Lemma get_features_nil s :
  get_features R [] s = (Raise ZeroDivisionError, s).
Proof.
  unfold get_features, bind at 1.
  rewrite detect_sequence_patterns_nil.
  destruct get_ends_in_99_total as [b Hb].
  unfold bind, lift. cbn [get_percent_transactions_same_amount].
  rewrite Hb. reflexivity.
Qed.

End EmptyHistory.

(** C1 (the code departs from the claim): on an empty history the
    aggregator does not return a mapping.  Whatever the reference
    transaction and the state of the memo table,
    [get_features(R, [])] raises [ZeroDivisionError]: the entry
    [pct_transactions_same_day] divides a count by [len([])], a case that
    only [get_percent_transactions_same_amount] guards. *)
Theorem get_features_empty_history_raises :
  forall R : Transaction, yields (get_features R []) (Raise ZeroDivisionError).
Proof.
  intros R s Hs. exists s. rewrite get_features_nil.
  repeat split; auto.
Qed.

(** * Purity of the feature functions *)

Create HintDb settled.

Section Purity.

Lemma settled_ret {A} (a : A) : settled (ret a).
Proof. eexists. apply yields_ret. Qed.

Lemma settled_lift {A} (o : outcome A) : settled (lift o).
Proof. eexists. apply yields_lift. Qed.

Lemma settled_bind {A B} (m : M A) (k : A -> M B) :
  settled m -> (forall a, settled (k a)) -> settled (bind m k).
Proof.
  intros [o Hm] Hk. destruct o as [a | e].
  - destruct (Hk a) as [o' Hk']. exists o'.
    apply (yields_bind m k (Ok a) (fun _ => o') Hm).
    intros a' E. inversion E. subst. exact Hk'.
  - exists (Raise e).
    apply (yields_bind m k (Raise e) (fun _ => Raise e) Hm).
    intros a' E. discriminate E.
Qed.

#[local] Hint Resolve settled_ret settled_lift : settled.

Lemma settled_detect_sequence_patterns R H m :
  settled (detect_sequence_patterns R H m).
Proof. eexists. apply detect_sequence_patterns_yields. Qed.

Lemma settled_get_n_transactions_days_apart R H p tol :
  settled (get_n_transactions_days_apart R H p tol).
Proof. eexists. apply get_n_transactions_days_apart_yields. Qed.

#[local] Hint Resolve settled_detect_sequence_patterns
  settled_get_n_transactions_days_apart : settled.

Lemma settled_get_pct_transactions_days_apart R H p tol :
  settled (get_pct_transactions_days_apart R H p tol).
Proof.
  unfold get_pct_transactions_days_apart.
  apply settled_bind; auto with settled.
Qed.

Lemma settled_get_is_recurring R H : settled (get_is_recurring R H).
Proof. eexists. apply get_is_recurring_yields. Qed.

Lemma settled_get_recurring_transaction_confidence R H :
  settled (get_recurring_transaction_confidence R H).
Proof. eexists. apply get_recurring_transaction_confidence_yields. Qed.

#[local] Hint Resolve settled_get_pct_transactions_days_apart
  settled_get_is_recurring settled_get_recurring_transaction_confidence
  : settled.

Lemma settled_get_features R H : settled (get_features R H).
Proof.
  unfold get_features. cbv zeta.
  repeat (apply settled_bind; [solve [auto with settled] | intros ?]).
  apply settled_ret.
Qed.

Lemma settled_effect_free {A} (f : Transaction -> list Transaction -> M A) :
  (forall R H, settled (f R H)) ->
  forall s, coherent s -> effect_free f s.
Proof.
  intros Hf s Hs.
  destruct (Hf (obj_transaction s) (obj_all_transactions s)) as [o Ho].
  destruct (Ho s Hs) as (s' & E & C & O).
  exists s'. unfold call. rewrite E, (yields_result _ _ Ho). auto.
Qed.

End Purity.

(** C9: a call of a feature function, from any store a process can be in,
    leaves the reference transaction and the history as they were; its
    outcome is the one its two arguments determine, whatever the memo
    table holds; the memo table (the only state that changes) stays
    coherent.  The functions that do not parse dates ([get_ends_in_99],
    the day-of-month and same-amount counts, the vendor tests) take no
    store at all. *)
Theorem feature_functions_are_pure :
  forall s : Store, coherent s ->
    effect_free get_features s
    /\ effect_free (fun t h => detect_sequence_patterns t h 3) s
    /\ (forall p tol,
           effect_free (fun t h => get_n_transactions_days_apart t h p tol) s
           /\ effect_free (fun t h => get_pct_transactions_days_apart t h p tol) s)
    /\ effect_free get_is_recurring s
    /\ effect_free get_recurring_transaction_confidence s.
Proof.
  intros s Hs.
  repeat split; apply settled_effect_free; auto; intros R H.
  - apply settled_get_features.
  - apply settled_detect_sequence_patterns.
  - apply settled_get_n_transactions_days_apart.
  - apply settled_get_pct_transactions_days_apart.
  - apply settled_get_is_recurring.
  - apply settled_get_recurring_transaction_confidence.
Qed.

Lemma feature_functions_are_pure_witness :
  coherent store_after_startup
  /\ effect_free get_features store_after_startup.
Proof.
  assert (Hc : coherent store_after_startup).
  { repeat constructor. }
  split; [exact Hc |].
  exact (proj1 (feature_functions_are_pure store_after_startup Hc)).
Defined.

(** * Further properties of the module *)

(** ** The memo table of _parse_date *)

Section ParseDateCache.

Lemma cache_remove_keys_subset k c x :
  In x (map fst (cache_remove k c)) -> In x (map fst c).
Proof.
  induction c as [| [k' d] c IH]; simpl; [tauto |].
  destruct (String.eqb k k'); simpl; tauto.
Qed.

Lemma cache_remove_NoDup k c :
  NoDup (map fst c) -> NoDup (map fst (cache_remove k c)).
Proof.
  induction c as [| [k' d] c IH]; simpl; intros Hn; [constructor |].
  inversion Hn; subst.
  destruct (String.eqb k k'); [assumption |].
  simpl. constructor; [| auto].
  intros Hin. apply cache_remove_keys_subset in Hin. contradiction.
Qed.

Lemma cache_remove_absent k c :
  NoDup (map fst c) -> ~ In k (map fst (cache_remove k c)).
Proof.
  induction c as [| [k' d] c IH]; simpl; intros Hn; [tauto |].
  inversion Hn; subst.
  destruct (String.eqb k k') eqn:E.
  - apply String.eqb_eq in E. subst. assumption.
  - simpl. intros [-> | Hin]; [rewrite String.eqb_refl in E; discriminate |].
    now apply IH.
Qed.

Lemma cache_remove_length k c d :
  cache_lookup k c = Some d ->
  S (List.length (cache_remove k c)) = List.length c.
Proof.
  induction c as [| [k' d'] c IH]; simpl; [discriminate |].
  destruct (String.eqb k k'); [reflexivity |].
  intros L. simpl. now rewrite IH.
Qed.

Lemma cache_lookup_absent k c :
  cache_lookup k c = None -> ~ In k (map fst c).
Proof.
  induction c as [| [k' d'] c IH]; simpl; [tauto |].
  destruct (String.eqb k k') eqn:E; [discriminate |].
  intros L [-> | Hin]; [rewrite String.eqb_refl in E; discriminate |].
  now apply IH.
Qed.

Lemma firstn_NoDup {A} n (l : list A) : NoDup l -> NoDup (firstn n l).
Proof.
  revert n. induction l as [| x l IH]; intros [| n] Hn; simpl; try constructor.
  - inversion Hn; subst. intros Hin. apply H1.
    rewrite <- (firstn_skipn n l). apply in_or_app. now left.
  - inversion Hn; subst. auto.
Qed.

End ParseDateCache.

(** X1: the memo table of [_parse_date] never holds a key twice nor more
    than 1024 entries: both properties survive every call. *)
Theorem parse_date_cache_bounded :
  forall (k : string) (s : Store),
    cache_bounded s -> cache_bounded (store_after (_parse_date k) s).
Proof.
  intros k s [Hn Hl]. unfold store_after, _parse_date, cache_bounded, cache_keys in *.
  destruct (cache_lookup k (parse_cache s)) as [d |] eqn:L.
  - cbn [snd set_cache parse_cache]. split.
    + simpl. constructor; [now apply cache_remove_absent | now apply cache_remove_NoDup].
    + simpl. rewrite (cache_remove_length _ _ _ L). exact Hl.
  - destruct (PyDate.strptime k) as [d | e]; cbn [snd set_cache parse_cache].
    + split.
      * rewrite <- firstn_map. apply firstn_NoDup. simpl.
        constructor; [now apply cache_lookup_absent | assumption].
      * rewrite length_firstn. apply Nat.le_min_l.
    + split; assumption.
Qed.

Lemma parse_date_cache_bounded_witness :
  cache_bounded initial_store
  /\ cache_bounded (store_after (_parse_date "2024-01-15") initial_store).
Proof.
  assert (H0 : cache_bounded initial_store).
  { split; [constructor | simpl; lia]. }
  split; [exact H0 |].
  apply (parse_date_cache_bounded "2024-01-15" initial_store H0).
Defined.

Lemma strptime_raises_ValueError k e :
  PyDate.strptime k = Raise e -> e = ValueError.
Proof.
  unfold PyDate.strptime.
  repeat match goal with
         | |- context [match ?x with _ => _ end] => destruct x
         end; congruence.
Qed.

(** X2: a date that has been parsed is served from the table: after a
    call that returns a date, the table maps the string to that date and
    the same call again returns it and leaves the store as it is.  A
    string that does not parse raises [ValueError] and nothing is stored:
    the store is untouched. *)
Theorem parse_date_repeated :
  forall (k : string) (s : Store),
    match _parse_date k s with
    | (Ok d, s') =>
        cache_lookup k (parse_cache s') = Some d
        /\ _parse_date k s' = (Ok d, s')
    | (Raise e, s') => e = ValueError /\ s' = s
    end.
Proof.
  intros k s. destruct (_parse_date k s) as [[d | e] s'] eqn:E.
  - assert (Hs' : exists c, s' = set_cache s ((k, d) :: c)).
    { unfold _parse_date in E.
      destruct (cache_lookup k (parse_cache s)) as [d0 |] eqn:L.
      - injection E as <- <-. eexists; reflexivity.
      - destruct (PyDate.strptime k) as [d0 | e]; [| discriminate].
        injection E as <- <-. exists (firstn 1023 (parse_cache s)). reflexivity. }
    destruct Hs' as (c & ->).
    unfold _parse_date. cbn [parse_cache set_cache cache_lookup].
    rewrite String.eqb_refl. split; [reflexivity |].
    cbn [cache_remove]. rewrite String.eqb_refl. reflexivity.
  - unfold _parse_date in E.
    destruct (cache_lookup k (parse_cache s)) as [d0 |]; [discriminate |].
    destruct (PyDate.strptime k) as [d0 | e0] eqn:P; [discriminate |].
    injection E as <- <-. split; [| reflexivity].
    apply (strptime_raises_ValueError _ _ P).
Qed.

(** ** _get_day *)

Section Characters.

Lemma digit_not_dash c : PyStr.is_digit c = true -> Ascii.eqb c "-"%char = false.
Proof. destruct c as [[] [] [] [] [] [] [] []]; try discriminate; reflexivity. Qed.

Lemma digit_not_plus c : PyStr.is_digit c = true -> Ascii.eqb c "+"%char = false.
Proof. destruct c as [[] [] [] [] [] [] [] []]; try discriminate; reflexivity. Qed.

Lemma digit_not_space c : PyStr.is_digit c = true -> PyStr.is_space c = false.
Proof. destruct c as [[] [] [] [] [] [] [] []]; try discriminate; reflexivity. Qed.

Lemma chars_of_chars l : PyStr.chars (PyStr.of_chars l) = l.
Proof. apply list_ascii_of_string_of_list_ascii. Qed.

Lemma of_chars_chars s : PyStr.of_chars (PyStr.chars s) = s.
Proof. apply string_of_list_ascii_of_string. Qed.

Lemma chars_app a b : PyStr.chars (a ++ b) = (PyStr.chars a ++ PyStr.chars b)%list.
Proof. induction a as [| c a IH]; simpl; [reflexivity |]. now rewrite <- IH. Qed.

End Characters.

Section Fields.

Lemma split_on_aux_field sep cur a rest :
  forallb (fun c => negb (Ascii.eqb c sep)) a = true ->
  PyStr.split_on_aux sep cur (a ++ sep :: rest) =
  PyStr.of_chars (rev cur ++ a) :: PyStr.split_on_aux sep [] rest.
Proof.
  revert cur. induction a as [| c a IH]; intros cur Ha; simpl.
  - rewrite Ascii.eqb_refl, app_nil_r. reflexivity.
  - simpl in Ha. apply andb_true_iff in Ha as [Hc Ha].
    apply negb_true_iff in Hc. rewrite Hc, IH by assumption.
    simpl. now rewrite <- app_assoc.
Qed.

Lemma split_on_aux_last sep cur a :
  forallb (fun c => negb (Ascii.eqb c sep)) a = true ->
  PyStr.split_on_aux sep cur a = [PyStr.of_chars (rev cur ++ a)].
Proof.
  revert cur. induction a as [| c a IH]; intros cur Ha; simpl.
  - now rewrite app_nil_r.
  - simpl in Ha. apply andb_true_iff in Ha as [Hc Ha].
    apply negb_true_iff in Hc. rewrite Hc, IH by assumption.
    simpl. now rewrite <- app_assoc.
Qed.

Lemma split_on_aux_length sep cur l :
  List.length (PyStr.split_on_aux sep cur l) =
  S (List.length (filter (Ascii.eqb sep) l)).
Proof.
  revert cur. induction l as [| c l IH]; intros cur; simpl; [reflexivity |].
  rewrite (Ascii.eqb_sym sep c).
  destruct (Ascii.eqb c sep); simpl; now rewrite IH.
Qed.

Lemma to_int_raises s e : PyStr.to_int s = Raise e -> e = ValueError.
Proof.
  unfold PyStr.to_int.
  destruct (match PyStr.strip (PyStr.chars s) with
            | [] => _ | _ :: _ => _ end) as [neg ds].
  destruct (PyStr.digits_value 0 false ds); congruence.
Qed.

End Fields.

Lemma match_dash {A} (c : ascii) (f g : A) :
  match c with "-"%char => f | _ => g end = if Ascii.eqb c "-"%char then f else g.
Proof. destruct c as [[] [] [] [] [] [] [] []]; reflexivity. Qed.

Lemma parse_month_shape r m r' :
  PyDate.parse_month r = Some (m, r') ->
  exists mo, r = (mo ++ "-"%char :: r')%list /\ forallb PyStr.is_digit mo = true.
Proof.
  unfold PyDate.parse_month.
  destruct r as [| a [| b [| c r3]]]; try discriminate.
  - rewrite match_dash. destruct (Ascii.eqb_spec b "-"%char); [subst | discriminate].
    destruct (PyDate.dg a && _)%bool eqn:Ea; [| discriminate].
    intros [= <- <-]. exists [a]. split; [reflexivity |].
    apply andb_true_iff in Ea as [Ea _]. unfold PyDate.dg in Ea. simpl. now rewrite Ea.
  - rewrite !match_dash.
    destruct (Ascii.eqb_spec c "-"%char) as [-> | Hc].
    + destruct (Ascii.eqb a "1" && PyDate.dg b && _)%bool eqn:E1.
      * intros [= <- <-]. exists [a; b]. split; [reflexivity |].
        apply andb_true_iff in E1 as [E1 _]. apply andb_true_iff in E1 as [E1 E2].
        apply Ascii.eqb_eq in E1. subst a. unfold PyDate.dg in E2. simpl. now rewrite E2.
      * destruct (Ascii.eqb a "0" && PyDate.dg b && _)%bool eqn:E0.
        -- intros [= <- <-]. exists [a; b]. split; [reflexivity |].
           apply andb_true_iff in E0 as [E0 _]. apply andb_true_iff in E0 as [E0 E2].
           apply Ascii.eqb_eq in E0. subst a. unfold PyDate.dg in E2. simpl. now rewrite E2.
        -- destruct (Ascii.eqb_spec b "-"%char); [subst | discriminate].
           destruct (PyDate.dg a && _)%bool eqn:Ea; [| discriminate].
           intros [= <- <-]. exists [a]. split; [reflexivity |].
           apply andb_true_iff in Ea as [Ea _]. unfold PyDate.dg in Ea. simpl. now rewrite Ea.
    + destruct (Ascii.eqb_spec b "-"%char); [subst | discriminate].
      destruct (PyDate.dg a && _)%bool eqn:Ea; [| discriminate].
      intros [= <- <-]. exists [a]. split; [reflexivity |].
      apply andb_true_iff in Ea as [Ea _]. unfold PyDate.dg in Ea. simpl. now rewrite Ea.
Qed.

Lemma strip_no_space l :
  match l with c :: _ => PyStr.is_space c = false | [] => True end ->
  match rev l with c :: _ => PyStr.is_space c = false | [] => True end ->
  PyStr.strip l = l.
Proof.
  intros Hh Hl. unfold PyStr.strip.
  assert (E1 : PyStr.lstrip l = l).
  { destruct l as [| c l]; [reflexivity |]. simpl. now rewrite Hh. }
  rewrite E1.
  assert (E2 : PyStr.lstrip (rev l) = rev l).
  { destruct (rev l) as [| c r]; [reflexivity |]. simpl. now rewrite Hl. }
  rewrite E2. apply rev_involutive.
Qed.

Lemma to_int_unsigned l v :
  match l with c :: _ => PyStr.is_digit c = true | [] => False end ->
  PyStr.strip l = l ->
  PyStr.digits_value 0 false l = Some v ->
  PyStr.to_int (PyStr.of_chars l) = Ok v.
Proof.
  intros Hh Hs Hv. unfold PyStr.to_int. rewrite chars_of_chars, Hs.
  destruct l as [| c l]; [contradiction |].
  rewrite (digit_not_dash _ Hh), (digit_not_plus _ Hh), Hv. reflexivity.
Qed.

Lemma to_int_one_digit a :
  PyStr.is_digit a = true -> PyStr.to_int (PyStr.of_chars [a]) = Ok (PyStr.digit_val a).
Proof.
  intros Ha. apply to_int_unsigned; [exact Ha | |].
  - apply strip_no_space; simpl; now apply digit_not_space.
  - simpl. rewrite Ha. reflexivity.
Qed.

Lemma to_int_two_digits a b :
  PyStr.is_digit a = true -> PyStr.is_digit b = true ->
  PyStr.to_int (PyStr.of_chars [a; b]) =
  Ok (10 * PyStr.digit_val a + PyStr.digit_val b).
Proof.
  intros Ha Hb. apply to_int_unsigned; [exact Ha | |].
  - apply strip_no_space; simpl; now apply digit_not_space.
  - simpl. rewrite Ha, Hb. f_equal.
Qed.

Lemma to_int_space_digit b :
  PyStr.is_digit b = true ->
  PyStr.to_int (PyStr.of_chars [" "%char; b]) = Ok (PyStr.digit_val b).
Proof.
  intros Hb. unfold PyStr.to_int. rewrite chars_of_chars.
  assert (E : PyStr.strip [" "%char; b] = [b]).
  { unfold PyStr.strip. simpl. rewrite (digit_not_space _ Hb). simpl.
    now rewrite (digit_not_space _ Hb). }
  rewrite E, (digit_not_dash _ Hb), (digit_not_plus _ Hb). simpl.
  rewrite Hb. reflexivity.
Qed.

(** The day field [strptime] accepts reads as the same number with
    [int]. *)
Lemma parse_day_to_int dd d :
  PyDate.parse_day dd = Some d ->
  forallb (fun c => negb (Ascii.eqb c "-"%char)) dd = true
  /\ PyStr.to_int (PyStr.of_chars dd) = Ok d.
Proof.
  unfold PyDate.parse_day, PyDate.dg, PyDate.dv.
  destruct dd as [| a [| b [| c r]]]; try discriminate.
  - destruct (PyStr.is_digit a && _)%bool eqn:Ea; [| discriminate].
    intros [= <-]. apply andb_true_iff in Ea as [Ea _].
    split; [simpl; now rewrite (digit_not_dash _ Ea) | now apply to_int_one_digit].
  - assert (Hfree : forall x y, Ascii.eqb x "-"%char = false ->
                                PyStr.is_digit y = true ->
                forallb (fun c => negb (Ascii.eqb c "-"%char)) [x; y] = true).
    { intros x y Hx Hy. simpl. now rewrite Hx, (digit_not_dash _ Hy). }
    destruct (Ascii.eqb a "3" && PyStr.is_digit b && _)%bool eqn:E3.
    { intros [= <-]. apply andb_true_iff in E3 as [E3 _].
      apply andb_true_iff in E3 as [E3 Eb]. apply Ascii.eqb_eq in E3. subst a.
      split; [now apply Hfree |].
      rewrite (to_int_two_digits "3"%char b eq_refl Eb). reflexivity. }
    destruct (PyStr.is_digit a && _ && _ && PyStr.is_digit b)%bool eqn:E12.
    { intros [= <-]. apply andb_true_iff in E12 as [E12 Eb].
      apply andb_true_iff in E12 as [E12 _]. apply andb_true_iff in E12 as [Ea _].
      split; [apply Hfree; [now apply digit_not_dash | exact Eb] |].
      now apply to_int_two_digits. }
    destruct (Ascii.eqb a "0" && PyStr.is_digit b && _)%bool eqn:E0.
    { intros [= <-]. apply andb_true_iff in E0 as [E0 _].
      apply andb_true_iff in E0 as [E0 Eb]. apply Ascii.eqb_eq in E0. subst a.
      split; [now apply Hfree |].
      rewrite (to_int_two_digits "0"%char b eq_refl Eb). reflexivity. }
    destruct (Ascii.eqb a " " && PyStr.is_digit b && _)%bool eqn:Es; [| discriminate].
    intros [= <-]. apply andb_true_iff in Es as [Es _].
    apply andb_true_iff in Es as [Es Eb]. apply Ascii.eqb_eq in Es. subst a.
    split; [now apply Hfree | now apply to_int_space_digit].
Qed.

(** The shape of a string [strptime] accepts. *)
Lemma strptime_shape s d :
  PyDate.strptime s = Ok d ->
  exists y mo dd,
    PyStr.chars s = (y ++ "-"%char :: mo ++ "-"%char :: dd)%list
    /\ forallb PyStr.is_digit y = true
    /\ forallb PyStr.is_digit mo = true
    /\ PyDate.parse_day dd = Some (day d).
Proof.
  unfold PyDate.strptime.
  destruct (PyStr.chars s) as [| y1 [| y2 [| y3 [| y4 [| c r]]]]]; try discriminate.
  rewrite match_dash.
  destruct (Ascii.eqb_spec c "-"%char); [subst c | discriminate].
  destruct (PyDate.dg y1 && PyDate.dg y2 && PyDate.dg y3 && PyDate.dg y4)%bool eqn:Ey;
    [| discriminate].
  destruct (PyDate.parse_month r) as [[m r'] |] eqn:Em; [| discriminate].
  destruct (PyDate.parse_day r') as [d0 |] eqn:Ed; [| discriminate].
  destruct ((1 <=? _) && _)%bool; [| discriminate].
  intros [= <-]. simpl.
  destruct (parse_month_shape _ _ _ Em) as (mo & -> & Hmo).
  exists [y1; y2; y3; y4], mo, r'.
  unfold PyDate.dg in Ey. apply andb_true_iff in Ey as [Ey E4].
  apply andb_true_iff in Ey as [Ey E3]. apply andb_true_iff in Ey as [E1 E2].
  repeat split; auto. simpl. now rewrite E1, E2, E3, E4.
Qed.

Lemma digits_dash_free l :
  forallb PyStr.is_digit l = true ->
  forallb (fun c => negb (Ascii.eqb c "-"%char)) l = true.
Proof.
  induction l as [| c l IH]; simpl; [reflexivity |].
  intros H. apply andb_true_iff in H as [Hc Hl].
  now rewrite (digit_not_dash _ Hc), IH.
Qed.

Lemma get_day_valid s :
  valid_date s = true -> _get_day s = Ok (day (date_of s)).
Proof.
  intros Hv. destruct (valid_date_parsed s Hv) as [d Hd].
  rewrite (date_of_parsed s d Hd).
  destruct (strptime_shape s d Hd) as (y & mo & dd & Hs & Hy & Hmo & Hdd).
  destruct (parse_day_to_int dd _ Hdd) as [Hfree Hint].
  unfold _get_day, PyStr.split_on. rewrite Hs.
  rewrite split_on_aux_field by now apply digits_dash_free.
  rewrite split_on_aux_field by now apply digits_dash_free.
  rewrite split_on_aux_last by assumption.
  simpl. exact Hint.
Qed.

(** X3: on every date string that [_parse_date] accepts, [_get_day]
    returns the day of the month of the parsed date, also for the
    spellings with one-digit fields or a space before the day. *)
Theorem get_day_of_valid_date :
  forall s : string,
    valid_date s = true -> _get_day s = Ok (day (date_of s)).
Proof. exact get_day_valid. Qed.

Lemma get_day_of_valid_date_witness :
  valid_date "2024-02- 9" = true /\ _get_day "2024-02- 9" = Ok 9.
Proof.
  split; [reflexivity |].
  exact (get_day_of_valid_date "2024-02- 9" eq_refl).
Defined.

(** X4: [_get_day] reads the third dash-separated field and nothing
    else: for fields without a dash, the result is [int] of the third
    one, whatever the first two are, so a string that is no calendar date
    still has a day. *)
Theorem get_day_reads_third_field :
  forall a b c : string,
    dash_free a = true -> dash_free b = true -> dash_free c = true ->
    _get_day (a ++ "-" ++ b ++ "-" ++ c) = PyStr.to_int c.
Proof.
  intros a b c Ha Hb Hc. unfold _get_day, PyStr.split_on.
  rewrite !chars_app. simpl.
  rewrite split_on_aux_field by exact Ha.
  rewrite split_on_aux_field by exact Hb.
  rewrite split_on_aux_last by exact Hc.
  simpl. now rewrite of_chars_chars.
Qed.

Lemma get_day_reads_third_field_witness :
  _get_day "2023-02-31" = Ok 31 /\ PyDate.strptime "2023-02-31" = Raise ValueError.
Proof.
  split; [| reflexivity].
  exact (get_day_reads_third_field "2023" "02" "31" eq_refl eq_refl eq_refl).
Defined.

(** X5: [_get_day] raises [IndexError] exactly when the string has fewer
    than two dashes; the only other exception it raises is [ValueError]
    (a third field that is no int). *)
Theorem get_day_errors :
  forall s : string,
    (_get_day s = Raise IndexError <-> (dashes s < 2)%nat)
    /\ (forall e, _get_day s = Raise e -> e = IndexError \/ e = ValueError).
Proof.
  intros s. unfold _get_day, dashes, PyStr.split_on.
  pose proof (split_on_aux_length "-"%char [] (PyStr.chars s)) as Hl.
  destruct (nth_error _ 2) as [f |] eqn:En.
  - assert (Hlt : (2 < List.length (PyStr.split_on_aux "-" [] (PyStr.chars s)))%nat).
    { apply nth_error_Some. congruence. }
    split.
    + split; [| lia].
      intros E. apply to_int_raises in E. discriminate.
    + intros e E. right. apply (to_int_raises _ _ E).
  - apply nth_error_None in En. split.
    + split; [intros _; lia | reflexivity].
    + intros e [= <-]. now left.
Qed.

(** ** Quotients of a count by a total *)

Section UnitQuotients.

Lemma shr_1_half mrs : 0 <= shr_m mrs -> shr_m (shr_1 mrs) = shr_m mrs / 2.
Proof.
  destruct mrs as [m r s]; cbn [shr_m].
  destruct m as [| [q | q |] | q]; cbn [shr_1 shr_m]; intros Hm;
    try reflexivity; try lia.
  - apply Z.div_unique with 1; lia.
  - apply Z.div_unique with 0; lia.
Qed.

Lemma div_pow2_twice m a b :
  0 <= a -> 0 <= b -> m / 2 ^ a / 2 ^ b = m / 2 ^ (a + b).
Proof.
  intros Ha Hb. rewrite Z.pow_add_r by lia.
  rewrite Z.div_div; try apply Z.pow_pos_nonneg; try lia.
  all: try (apply Z.pow_nonzero; lia).
Qed.

Lemma iter_shr_1_div p : forall mrs,
  0 <= shr_m mrs ->
  shr_m (iter_pos shr_1 p mrs) = shr_m mrs / 2 ^ Z.pos p.
Proof.
  induction p as [p IH | p IH |]; intros mrs Hm; simpl iter_pos.
  - pose proof (shr_1_le mrs Hm) as H1.
    pose proof (iter_shr_1_le p _ (proj1 H1)) as H2.
    rewrite IH, IH, shr_1_half by lia.
    change 2 with (2 ^ 1) at 1.
    rewrite !div_pow2_twice by lia. f_equal. f_equal. lia.
  - pose proof (iter_shr_1_le p _ Hm) as H2.
    rewrite IH, IH by lia.
    rewrite !div_pow2_twice by lia. f_equal. f_equal. lia.
  - rewrite shr_1_half by lia. reflexivity.
Qed.

(** [shr_fexp] shifts the mantissa to the exponent of the format. *)
Lemma shr_fexp_shift m e l :
  0 <= m -> e <= fexp prec emax (Zdigits2 m + e) ->
  exists mrs,
    shr_fexp prec emax m e l = (mrs, fexp prec emax (Zdigits2 m + e))
    /\ shr_m mrs = m / 2 ^ (fexp prec emax (Zdigits2 m + e) - e).
Proof.
  intros Hm He. unfold shr_fexp, shr.
  assert (H0 : shr_m (shr_record_of_loc m l) = m) by (destruct l as [| []]; reflexivity).
  destruct (fexp prec emax (Zdigits2 m + e) - e) as [| p | p] eqn:E; try lia.
  - eexists; split; [f_equal; lia |]. rewrite H0. simpl. now rewrite Z.div_1_r.
  - eexists; split; [f_equal; lia |].
    rewrite iter_shr_1_div by lia. now rewrite H0.
Qed.

Lemma Zdigits2_div_pow2 m k :
  0 <= k -> 0 < m / 2 ^ k -> Zdigits2 (m / 2 ^ k) = Zdigits2 m - k.
Proof.
  intros Hk Hq.
  assert (Hm : 0 < m).
  { destruct (Z_lt_le_dec 0 m) as [|Hle]; [assumption |].
    pose proof (Z.div_le_upper_bound m (2 ^ k) 0 ltac:(apply Z.pow_pos_nonneg; lia)
                  ltac:(lia)). lia. }
  rewrite !Zdigits2_log2 by lia.
  rewrite <- Z.shiftr_div_pow2 in * by lia.
  rewrite Z.log2_shiftr by lia.
  destruct (Z_lt_le_dec (Z.log2 m) k) as [Hlt | Hle]; [| lia].
  rewrite Z.shiftr_eq_0 in Hq by lia. lia.
Qed.

Lemma Zdigits2_bounds m : 0 < m -> 2 ^ (Zdigits2 m - 1) <= m < 2 ^ Zdigits2 m.
Proof.
  intros Hm. rewrite Zdigits2_log2 by lia.
  pose proof (Z.log2_spec m Hm).
  replace (Z.log2 m + 1 - 1) with (Z.log2 m) by lia.
  replace (Z.log2 m + 1) with (Z.succ (Z.log2 m)) by lia. lia.
Qed.

Lemma Zdigits2_lt_pow2 m k : 0 <= k -> 0 <= m < 2 ^ k -> Zdigits2 m <= k.
Proof.
  intros Hk Hm. destruct (Z.eq_dec m 0) as [-> | Hne]; [simpl; lia |].
  rewrite Zdigits2_log2 by lia.
  pose proof (proj1 (Z.log2_lt_pow2 m k ltac:(lia)) ltac:(lia)). lia.
Qed.

Lemma Zdigits2_ge_pow2 m k : 0 <= k -> 2 ^ k <= m -> k + 1 <= Zdigits2 m.
Proof.
  intros Hk Hm.
  assert (0 < 2 ^ k) by (apply Z.pow_pos_nonneg; lia).
  rewrite Zdigits2_log2 by lia.
  pose proof (proj1 (Z.log2_le_pow2 m k ltac:(lia)) Hm). lia.
Qed.

(** What rounding gives for a value [m * 2^e] below 1, from an exponent
    at or below the format's: zero, or a float of the format that is
    at most 1. *)
Lemma binary_round_aux_unit m e l :
  0 <= m -> m < 2 ^ (- e) -> e <= -53 ->
  e <= fexp prec emax (Zdigits2 m + e) ->
  binary_round_aux prec emax false m e l = S754_zero false
  \/ exists m3 e3,
       binary_round_aux prec emax false m e l = S754_finite false m3 e3
       /\ bounded prec emax m3 e3 = true
       /\ e3 <= -52 /\ Z.pos m3 <= 2 ^ (- e3).
Proof.
  intros Hm Hlt He Hf. unfold binary_round_aux.
  destruct (shr_fexp_shift m e l Hm Hf) as (mrs1 & E1 & M1). rewrite E1.
  set (e1 := fexp prec emax (Zdigits2 m + e)) in *.
  set (m1 := shr_m mrs1) in *.
  pose proof (Zdigits2_lt_pow2 m (- e) ltac:(lia) ltac:(lia)) as Hdm.
  assert (He1 : e <= e1 <= -53).
  { split; [exact Hf |]. subst e1. unfold fexp, SpecFloat.emin, prec, emax. lia. }
  assert (P1 : 0 < 2 ^ (e1 - e)) by (apply Z.pow_pos_nonneg; lia).
  assert (Hm1 : 0 <= m1 < 2 ^ (- e1)).
  { rewrite M1. split; [apply Z.div_pos; lia |].
    apply Z.div_lt_upper_bound; [lia |].
    rewrite <- Z.pow_add_r by lia. replace (e1 - e + - e1) with (- e) by lia. lia. }
  assert (Hc1 : fexp prec emax (Zdigits2 m1 + e1) = e1).
  { destruct (Z.eq_dec m1 0) as [Hz | Hnz].
    - rewrite Hz. simpl Zdigits2.
      assert (e1 = -1074); [| unfold fexp, SpecFloat.emin, prec, emax; lia].
      destruct (Z.eq_dec e1 (-1074)) as [| Hne]; [assumption | exfalso].
      assert (Ee : e1 = Zdigits2 m + e - 53).
      { subst e1. unfold fexp, SpecFloat.emin, prec, emax in *. lia. }
      assert (Hmpos : 0 < m).
      { destruct (Z.eq_dec m 0) as [-> |]; [| lia].
        simpl in Ee. lia. }
      pose proof (Zdigits2_bounds m Hmpos) as [Hlo _].
      assert (2 ^ (e1 - e) <= m).
      { etransitivity; [| exact Hlo]. apply Z.pow_le_mono_r; lia. }
      pose proof (Z.div_le_lower_bound m (2 ^ (e1 - e)) 1 ltac:(lia) ltac:(lia)).
      lia.
    - unfold m1 in *. rewrite M1 in *.
      rewrite Zdigits2_div_pow2 by lia.
      replace (Zdigits2 m - (e1 - e) + e1) with (Zdigits2 m + e) by lia.
      reflexivity. }
  pose proof (round_nearest_even_le m1 (loc_of_shr_record mrs1) (proj1 Hm1)) as B2.
  assert (B2' : m1 <= round_nearest_even m1 (loc_of_shr_record mrs1)).
  { destruct (loc_of_shr_record mrs1) as [| []]; simpl; try lia.
    destruct (Z.even m1); lia. }
  set (m2 := round_nearest_even m1 (loc_of_shr_record mrs1)) in *.
  assert (Hf2 : e1 <= fexp prec emax (Zdigits2 m2 + e1)).
  { pose proof (Zdigits2_mono m1 m2 ltac:(lia)).
    rewrite <- Hc1 at 1. unfold fexp, SpecFloat.emin, prec, emax. lia. }
  destruct (shr_fexp_shift m2 e1 loc_Exact ltac:(lia) Hf2) as (mrs2 & E2 & M2).
  rewrite E2.
  set (e3 := fexp prec emax (Zdigits2 m2 + e1)) in *.
  pose proof (Zdigits2_le_pow2 m2 (- e1) ltac:(lia) ltac:(lia)) as Hd2.
  assert (He3 : e1 <= e3 <= -52).
  { split; [exact Hf2 |]. subst e3. unfold fexp, SpecFloat.emin, prec, emax. lia. }
  assert (P2 : 0 < 2 ^ (e3 - e1)) by (apply Z.pow_pos_nonneg; lia).
  assert (Hm3 : 0 <= shr_m mrs2 <= 2 ^ (- e3)).
  { rewrite M2. split; [apply Z.div_pos; lia |].
    apply Z.div_le_upper_bound; [lia |].
    rewrite <- Z.pow_add_r by lia. replace (e3 - e1 + - e3) with (- e1) by lia. lia. }
  destruct (shr_m mrs2) as [| m3 | m3] eqn:Em3; [now left | | lia].
  right. exists m3, e3.
  replace (e3 <=? emax - prec) with true
    by (symmetry; apply Z.leb_le; unfold emax, prec; lia).
  repeat split; try lia.
  unfold bounded, canonical_mantissa.
  apply andb_true_iff. split; [| apply Z.leb_le; unfold emax, prec; lia].
  apply Z.eqb_eq.
  change (Z.pos (digits2_pos m3)) with (Zdigits2 (Z.pos m3)).
  rewrite M2. rewrite Zdigits2_div_pow2 by lia.
  replace (Zdigits2 m2 - (e3 - e1) + e3) with (Zdigits2 m2 + e1) by lia.
  reflexivity.
Qed.

(** The quotient SpecFloat's division computes for [n / d], [n < d]. *)
Lemma div_core_proper_fraction n d :
  0 < n < d ->
  exists q e l,
    SFdiv_core_binary prec emax n 0 d 0 = (q, e, l)
    /\ 0 <= q < 2 ^ (- e) /\ e <= -53
    /\ e <= fexp prec emax (Zdigits2 q + e).
Proof.
  intros Hnd. unfold SFdiv_core_binary.
  pose proof (Zdigits2_mono n d ltac:(lia)) as Hdig.
  set (e := Z.min (fexp prec emax (Zdigits2 n + 0 - (Zdigits2 d + 0))) (0 - 0)).
  assert (He : -1074 <= e <= -53).
  { subst e. unfold fexp, SpecFloat.emin, prec, emax. lia. }
  destruct (0 - 0 - e) as [| k | k] eqn:Ek; try lia.
  rewrite Z.shiftl_mul_pow2 by lia.
  assert (Pk : 0 < 2 ^ Z.pos k) by (apply Z.pow_pos_nonneg; lia).
  assert (Hq : n * 2 ^ Z.pos k / d < 2 ^ Z.pos k).
  { apply Z.div_lt_upper_bound; [lia |]. nia. }
  pose proof (Z.div_pos (n * 2 ^ Z.pos k) d ltac:(nia) ltac:(lia)) as Hq0.
  assert (Hbig : e <> -1074 -> 2 ^ 52 <= n * 2 ^ Z.pos k / d).
  { intros Hne.
    assert (Ee : Z.pos k = Zdigits2 d - Zdigits2 n + 53).
    { subst e. unfold fexp, SpecFloat.emin, prec, emax in *. lia. }
    apply Z.div_le_lower_bound; [lia |].
    pose proof (Zdigits2_bounds n ltac:(lia)) as [Hn _].
    pose proof (Zdigits2_bounds d ltac:(lia)) as [_ Hd].
    rewrite Ee.
    replace (Zdigits2 d - Zdigits2 n + 53) with ((Zdigits2 d - Zdigits2 n + 1) + 52) by lia.
    pose proof (Zdigits2_nonneg n). pose proof (Zdigits2_nonneg d).
    assert (0 < Zdigits2 n).
    { rewrite Zdigits2_log2 by lia. pose proof (Z.log2_nonneg n). lia. }
    rewrite Z.pow_add_r by lia.
    assert (d <= n * 2 ^ (Zdigits2 d - Zdigits2 n + 1)).
    { apply Z.le_trans with (2 ^ Zdigits2 d); [lia |].
      replace (Zdigits2 d) with ((Zdigits2 n - 1) + (Zdigits2 d - Zdigits2 n + 1)) at 1 by lia.
      rewrite Z.pow_add_r by lia.
      apply Z.mul_le_mono_nonneg_r; [apply Z.pow_nonneg; lia | lia]. }
    assert (0 < 2 ^ 52) by (apply Z.pow_pos_nonneg; lia).
    nia. }
  unfold Z.div in Hq, Hq0, Hbig.
  destruct (Z.div_eucl (n * 2 ^ Z.pos k) d) as [q r].
  exists q, e, (new_location d r).
  replace (- e) with (Z.pos k) by lia.
  repeat split; try lia.
  destruct (Z.eq_dec e (-1074)) as [E | Hne].
  - unfold fexp, SpecFloat.emin, prec, emax. lia.
  - pose proof (Zdigits2_ge_pow2 q 52 ltac:(lia) (Hbig Hne)).
    unfold fexp, SpecFloat.emin, prec, emax. lia.
Qed.


(** A count divided by a total it does not exceed is a float between
    [0.0] and [1.0]. *)
Lemma compare_cont_le m c :
  Z.pos m <= Z.pos c ->
  match PosDef.Pos.compare_cont Eq m c with Gt => false | _ => true end = true.
Proof.
  intros Hm. pose proof (Pos.compare_spec m c) as Hc.
  unfold Pos.compare in Hc.
  destruct Hc as [Ec | Ec | Ec]; try reflexivity. lia.
Qed.

Lemma SFleb_exponent m e c x :
  e < x -> SFleb (S754_finite false m e) (S754_finite false c x) = true.
Proof.
  intros He. unfold SFleb, SFcompare.
  destruct (Z.compare_spec e x) as [E | E | E]; try reflexivity; lia.
Qed.

Lemma SFleb_mantissa m e c :
  Z.pos m <= Z.pos c ->
  SFleb (S754_finite false m e) (S754_finite false c e) = true.
Proof.
  intros Hm. unfold SFleb, SFcompare. rewrite Z.compare_refl.
  now apply compare_cont_le.
Qed.

Lemma unit_float_bounds m3 e3 :
  bounded prec emax m3 e3 = true ->
  e3 <= -52 -> Z.pos m3 <= 2 ^ (- e3) ->
  (0 <=? SF2Prim (S754_finite false m3 e3))%float = true
  /\ (SF2Prim (S754_finite false m3 e3) <=? 1)%float = true.
Proof.
  intros Hb He3 Hm3.
  assert (H0 : Prim2SF 0%float = S754_zero false) by (vm_compute; reflexivity).
  assert (H1 : Prim2SF 1%float = S754_finite false 4503599627370496 (-52))
    by (vm_compute; reflexivity).
  rewrite !leb_spec, Prim2SF_SF2Prim, H0, H1 by exact Hb.
  split; [reflexivity |].
  destruct (Z.eq_dec e3 (-52)) as [-> | Hne].
  - apply SFleb_mantissa. exact Hm3.
  - apply SFleb_exponent. lia.
Qed.

Lemma int_truediv_unit n d :
  0 <= n <= d -> 0 < d ->
  exists f, PyFloat.int_truediv n d = Ok f /\ in_unit_interval f.
Proof.
  intros Hnd Hd.
  destruct (Z.eq_dec n d) as [-> | Hne].
  { exists 1%float. rewrite int_truediv_self by lia.
    repeat split; vm_compute; reflexivity. }
  unfold PyFloat.int_truediv.
  replace (d =? 0) with false by (symmetry; apply Z.eqb_neq; lia).
  replace (n <? 0) with false by (symmetry; apply Z.ltb_ge; lia).
  replace (d <? 0) with false by (symmetry; apply Z.ltb_ge; lia).
  destruct (n =? 0) eqn:En.
  { exists 0%float. repeat split; vm_compute; reflexivity. }
  apply Z.eqb_neq in En. cbn [xorb].
  rewrite !Z.abs_eq by lia.
  destruct (div_core_proper_fraction n d ltac:(lia)) as (q & e & l & E & Hq & He & Hf).
  rewrite E.
  destruct (binary_round_aux_unit q e l ltac:(lia) ltac:(lia) He Hf)
    as [-> | (m3 & e3 & -> & Hb & He3 & Hm3)].
  - exists 0%float. repeat split; vm_compute; reflexivity.
  - exists (SF2Prim (S754_finite false m3 e3)).
    split; [reflexivity |]. now apply unit_float_bounds.
Qed.

End UnitQuotients.

(** ** Counts and percentages *)

Section Counting.

Lemma filter_length_mono {A} (f g : A -> bool) l :
  (forall x, In x l -> f x = true -> g x = true) ->
  (List.length (filter f l) <= List.length (filter g l))%nat.
Proof.
  induction l as [| x l IH]; intros Hfg; simpl; [lia |].
  assert (IH' := IH (fun y Hy => Hfg y (or_intror Hy))).
  destruct (f x) eqn:Ef.
  - rewrite (Hfg x (or_introl eq_refl) Ef). simpl. lia.
  - destruct (g x); simpl; lia.
Qed.

Lemma len_filter_bounds {A} (f : A -> bool) l : 0 <= len (filter f l) <= len l.
Proof. pose proof (filter_length_le f l). unfold len. lia. Qed.

Lemma len_nonempty {A} (l : list A) : l <> [] -> 0 < len l.
Proof. destruct l; [congruence | unfold len; simpl; lia]. Qed.

End Counting.

Section SameDay.

Variables (R : Transaction) (H : list Transaction).
Hypothesis Hvalid : all_dates_valid R H.

Lemma get_n_transactions_same_day_value k :
  get_n_transactions_same_day R H k = Ok (len (filter (same_day_within R k) H)).
Proof.
  destruct Hvalid as [HR HH].
  unfold get_n_transactions_same_day.
  rewrite (ofilter_ok _ (same_day_within R k)); [reflexivity |].
  intros t Ht. rewrite (get_day_valid _ (HH t Ht)), (get_day_valid _ HR).
  reflexivity.
Qed.

End SameDay.

(** X6: with well-formed dates, [get_n_transactions_same_day] returns the
    number of transactions of the history whose calendar day of the month
    differs from the reference's by at most [n_days_off]. *)
Theorem same_day_count :
  forall (R : Transaction) (H : list Transaction) (n_days_off : Z),
    all_dates_valid R H ->
    get_n_transactions_same_day R H n_days_off =
    Ok (len (filter (fun t => Z.abs (day (date_of (date t))
                                     - day (date_of (date R))) <=? n_days_off)
                    H)).
Proof. intros R H k Hv. now apply get_n_transactions_same_day_value. Qed.

Lemma same_day_count_witness :
  all_dates_valid R_netflix H_fortnight
  /\ get_n_transactions_same_day R_netflix H_fortnight 0 = Ok 1.
Proof.
  assert (Hv : all_dates_valid R_netflix H_fortnight).
  { split; [reflexivity |]. intros t [<- | [<- | []]]; reflexivity. }
  split; [exact Hv |].
  exact (same_day_count R_netflix H_fortnight 0 Hv).
Defined.

(** X7: with well-formed dates, the same-day count lies between 0 and
    the size of the history and grows with the tolerance: the count for
    [k] is at most the count for any [k' >= k], so
    same_day_exact <= same_day_off_by_1 <= same_day_off_by_2. *)
Theorem same_day_count_monotone :
  forall (R : Transaction) (H : list Transaction) (k k' : Z),
    all_dates_valid R H -> k <= k' ->
    exists n n',
      get_n_transactions_same_day R H k = Ok n
      /\ get_n_transactions_same_day R H k' = Ok n'
      /\ 0 <= n <= n' /\ n' <= len H.
Proof.
  intros R H k k' Hv Hk.
  rewrite !(get_n_transactions_same_day_value R H Hv).
  eexists; eexists. split; [reflexivity |]. split; [reflexivity |].
  pose proof (len_filter_bounds (same_day_within R k) H).
  pose proof (len_filter_bounds (same_day_within R k') H).
  pose proof (filter_length_mono (same_day_within R k) (same_day_within R k') H)
    as Hm.
  unfold len in *.
  assert ((List.length (filter (same_day_within R k) H)
           <= List.length (filter (same_day_within R k') H))%nat).
  { apply Hm. intros t _. unfold same_day_within. rewrite !Z.leb_le. lia. }
  lia.
Qed.

Lemma same_day_count_monotone_witness :
  all_dates_valid R_netflix H_fortnight
  /\ exists n n',
       get_n_transactions_same_day R_netflix H_fortnight 0 = Ok n
       /\ get_n_transactions_same_day R_netflix H_fortnight 14 = Ok n'
       /\ 0 <= n <= n' /\ n' <= len H_fortnight.
Proof.
  assert (Hv : all_dates_valid R_netflix H_fortnight).
  { split; [reflexivity |]. intros t [<- | [<- | []]]; reflexivity. }
  split; [exact Hv |].
  apply (same_day_count_monotone R_netflix H_fortnight 0 14 Hv). lia.
Defined.

(** X8: [get_pct_transactions_same_day] raises [ZeroDivisionError] on
    an empty history, whatever the reference; on a non-empty history with
    well-formed dates it returns a float between 0.0 and 1.0. *)
Theorem pct_same_day_range :
  forall (R : Transaction) (H : list Transaction) (n_days_off : Z),
    get_pct_transactions_same_day R [] n_days_off = Raise ZeroDivisionError
    /\ (all_dates_valid R H -> H <> [] ->
        exists f, get_pct_transactions_same_day R H n_days_off = Ok f
                  /\ in_unit_interval f).
Proof.
  intros R H k. split; [reflexivity |].
  intros Hv Hne. unfold get_pct_transactions_same_day.
  rewrite (get_n_transactions_same_day_value R H Hv). cbn [obind].
  apply int_truediv_unit; [apply len_filter_bounds | now apply len_nonempty].
Qed.

Section DaysApartCounts.

Lemma near_multiple_tolerance p tol tol' d :
  tol <= tol' -> near_multiple p tol d = true -> near_multiple p tol' d = true.
Proof.
  unfold near_multiple. intros Ht.
  rewrite !andb_true_iff, !orb_true_iff, !negb_true_iff, !Z.ltb_ge, !Z.leb_le.
  lia.
Qed.

Lemma near_multiple_of_multiple p k tol d :
  0 < p -> 1 <= k -> 0 <= tol -> 0 <= d ->
  near_multiple (k * p) tol d = true -> near_multiple p tol d = true.
Proof.
  unfold near_multiple. intros Hp Hk Ht Hd.
  rewrite !andb_true_iff, !orb_true_iff, !negb_true_iff, !Z.ltb_ge, !Z.leb_le.
  intros [Hlow Hrem].
  assert (Hkp : 0 < k * p) by nia.
  pose proof (Z.mod_pos_bound d (k * p) Hkp) as Hb.
  pose proof (Z.mod_pos_bound d p Hp) as Hb'.
  set (r := d mod (k * p)) in *.
  assert (Er : d mod p = r mod p).
  { unfold r. symmetry. apply Z.mod_mod_divide. exists k. reflexivity. }
  split; [nia |].
  destruct Hrem as [Hr | Hr].
  - left. rewrite Er. pose proof (Z.mod_le r p ltac:(lia) Hp). lia.
  - (* r >= k p - tol: k p - r <= tol, and (k p - r) = -r mod p *)
    destruct (Z.eq_dec (r mod p) 0) as [E0 | Hn0]; [left; lia |].
    right. rewrite Er.
    assert (Ec : (k * p - r) mod p = p - r mod p).
    { pose proof (Z.div_mod r p ltac:(lia)) as Hdm.
      pose proof (Z.mod_pos_bound r p Hp).
      symmetry. apply Z.mod_unique with (k - r / p - 1); [lia |]. nia. }
    pose proof (Z.mod_le (k * p - r) p ltac:(lia) Hp). lia.
Qed.

End DaysApartCounts.

(** X9: with well-formed dates and a period other than 0, the count of
    [get_n_transactions_days_apart] lies between 0 and the size of the
    history and grows with the tolerance, so
    14_days_apart_exact <= 14_days_apart_off_by_1 and likewise for 7. *)
Theorem days_apart_count_monotone :
  forall (R : Transaction) (H : list Transaction) (p tol tol' : Z),
    all_dates_valid R H -> p <> 0 -> tol <= tol' ->
    exists n n',
      yields (get_n_transactions_days_apart R H p tol) (Ok n)
      /\ yields (get_n_transactions_days_apart R H p tol') (Ok n')
      /\ 0 <= n <= n' /\ n' <= len H.
Proof.
  intros R H p tol tol' [HR HH] Hp Ht.
  exists (len (filter (counted R p tol) H)), (len (filter (counted R p tol') H)).
  split; [now apply get_n_transactions_days_apart_count |].
  split; [now apply get_n_transactions_days_apart_count |].
  pose proof (len_filter_bounds (counted R p tol) H).
  pose proof (len_filter_bounds (counted R p tol') H).
  pose proof (filter_length_mono (counted R p tol) (counted R p tol') H) as Hm.
  unfold len in *.
  assert ((List.length (filter (counted R p tol) H)
           <= List.length (filter (counted R p tol') H))%nat).
  { apply Hm. intros t _. now apply near_multiple_tolerance. }
  lia.
Qed.

Lemma days_apart_count_monotone_witness :
  all_dates_valid R_netflix H_fortnight
  /\ exists n n',
       yields (get_n_transactions_days_apart R_netflix H_fortnight 14 0) (Ok n)
       /\ yields (get_n_transactions_days_apart R_netflix H_fortnight 14 1) (Ok n')
       /\ 0 <= n <= n' /\ n' <= len H_fortnight.
Proof.
  assert (Hv : all_dates_valid R_netflix H_fortnight).
  { split; [reflexivity |]. intros t [<- | [<- | []]]; reflexivity. }
  split; [exact Hv |].
  apply (days_apart_count_monotone R_netflix H_fortnight 14 0 1 Hv); lia.
Defined.

(** X10: with well-formed dates, a positive period [p] and a tolerance
    that is not negative, every count for a multiple [k * p] of the
    period is at most the count for [p]: a transaction counted as
    fortnightly is counted as weekly. *)
Theorem days_apart_multiple_period :
  forall (R : Transaction) (H : list Transaction) (p k tol : Z),
    all_dates_valid R H -> 0 < p -> 1 <= k -> 0 <= tol ->
    exists n_kp n_p,
      yields (get_n_transactions_days_apart R H (k * p) tol) (Ok n_kp)
      /\ yields (get_n_transactions_days_apart R H p tol) (Ok n_p)
      /\ n_kp <= n_p.
Proof.
  intros R H p k tol [HR HH] Hp Hk Ht.
  exists (len (filter (counted R (k * p) tol) H)), (len (filter (counted R p tol) H)).
  split; [apply get_n_transactions_days_apart_count; auto; nia |].
  split; [apply get_n_transactions_days_apart_count; auto; lia |].
  pose proof (filter_length_mono (counted R (k * p) tol) (counted R p tol) H) as Hm.
  unfold len.
  assert ((List.length (filter (counted R (k * p) tol) H)
           <= List.length (filter (counted R p tol) H))%nat); [| lia].
  apply Hm. intros t _. unfold counted.
  apply near_multiple_of_multiple; try assumption.
  unfold days_between. apply Z.abs_nonneg.
Qed.

Lemma days_apart_multiple_period_witness :
  all_dates_valid R_netflix H_fortnight
  /\ exists n14 n7,
       yields (get_n_transactions_days_apart R_netflix H_fortnight (2 * 7) 0)
              (Ok n14)
       /\ yields (get_n_transactions_days_apart R_netflix H_fortnight 7 0) (Ok n7)
       /\ n14 <= n7.
Proof.
  assert (Hv : all_dates_valid R_netflix H_fortnight).
  { split; [reflexivity |]. intros t [<- | [<- | []]]; reflexivity. }
  split; [exact Hv |].
  apply (days_apart_multiple_period R_netflix H_fortnight 7 2 0 Hv); lia.
Defined.

(** X12: [get_pct_transactions_days_apart] raises [ZeroDivisionError] on
    an empty history when the reference date is well formed; on a
    non-empty history with well-formed dates and a period other than 0 it
    returns a float between 0.0 and 1.0. *)
Theorem pct_days_apart_range :
  forall (R : Transaction) (H : list Transaction) (p tol : Z),
    (valid_date (date R) = true ->
     yields (get_pct_transactions_days_apart R [] p tol) (Raise ZeroDivisionError))
    /\ (all_dates_valid R H -> p <> 0 -> H <> [] ->
        exists f, yields (get_pct_transactions_days_apart R H p tol) (Ok f)
                  /\ in_unit_interval f).
Proof.
  intros R H p tol. split.
  - intros HR. unfold get_pct_transactions_days_apart.
    change (Raise ZeroDivisionError)
      with (obind (Ok 0) (fun n => PyFloat.int_truediv n (len (@nil Transaction)))).
    apply yields_bind; [| intros n _; apply yields_lift].
    now apply get_n_transactions_days_apart_nil_history.
  - intros [HR HH] Hp Hne.
    destruct (int_truediv_unit (len (filter (counted R p tol) H)) (len H))
      as (f & Ef & Hf); [apply len_filter_bounds | now apply len_nonempty |].
    exists f. split; [| exact Hf].
    unfold get_pct_transactions_days_apart.
    rewrite <- Ef.
    change (PyFloat.int_truediv (len (filter (counted R p tol) H)) (len H))
      with (obind (Ok (len (filter (counted R p tol) H)))
                  (fun n => PyFloat.int_truediv n (len H))).
    apply yields_bind; [| intros n _; apply yields_lift].
    now apply get_n_transactions_days_apart_count.
Qed.

(** X14: [get_percent_transactions_same_amount] always returns a float
    between 0.0 and 1.0, for every reference and every history. *)
Theorem pct_same_amount_range :
  forall (R : Transaction) (H : list Transaction),
    exists f, get_percent_transactions_same_amount R H = Ok f
              /\ in_unit_interval f.
Proof.
  intros R H. unfold get_percent_transactions_same_amount.
  destruct H as [| t H].
  - exists 0%float. split; [reflexivity |]. split; vm_compute; reflexivity.
  - apply int_truediv_unit; [apply len_filter_bounds |].
    apply len_nonempty. discriminate.
Qed.

(** ** Malformed dates, NaN amounts and the recurrence test *)

Section Errors.

Lemma invalid_date_raises s :
  valid_date s = false -> PyDate.strptime s = Raise ValueError.
Proof.
  unfold valid_date. destruct (PyDate.strptime s) as [d | e] eqn:E; [discriminate |].
  intros _. now rewrite (strptime_raises_ValueError _ _ E).
Qed.

Lemma omap_raises {A B} (f : A -> outcome B) e l :
  (forall x e', In x l -> f x = Raise e' -> e' = e) ->
  (exists x, In x l /\ f x = Raise e) ->
  omap f l = Raise e.
Proof.
  induction l as [| y l IH]; intros Hall (x & Hin & Hx); [contradiction |].
  simpl. destruct (f y) as [b | e'] eqn:Ey.
  - destruct Hin as [-> | Hin]; [congruence |].
    cbn [obind]. rewrite IH; [reflexivity | | eauto].
    intros; eapply Hall; [right |]; eassumption.
  - cbn [obind]. f_equal. eapply Hall; [left; reflexivity | exact Ey].
Qed.

Lemma ofold_raises {A B} (body : B -> A -> outcome B) e l :
  (forall acc x e', In x l -> body acc x = Raise e' -> e' = e) ->
  (exists x, In x l /\ forall acc, body acc x = Raise e) ->
  forall acc, ofold body l acc = Raise e.
Proof.
  induction l as [| y l IH]; intros Hall (x & Hin & Hx) acc; [contradiction |].
  simpl. destruct (body acc y) as [b | e'] eqn:Ey.
  - destruct Hin as [-> | Hin]; [rewrite Hx in Ey; discriminate |].
    cbn [obind]. apply IH; [| eauto].
    intros; eapply Hall; [right |]; eassumption.
  - cbn [obind]. f_equal. eapply Hall; [left; reflexivity | exact Ey].
Qed.

End Errors.

(** X11: [get_n_transactions_days_apart] raises [ValueError] when the
    reference date is malformed, even on an empty history; with a
    well-formed reference date and a period other than 0 it raises
    [ValueError] as soon as one date of the history is malformed. *)
Theorem days_apart_malformed_date :
  forall (R : Transaction) (H : list Transaction) (p tol : Z),
    (valid_date (date R) = false ->
     yields (get_n_transactions_days_apart R H p tol) (Raise ValueError))
    /\ (valid_date (date R) = true -> p <> 0 ->
        (exists t, In t H /\ valid_date (date t) = false) ->
        yields (get_n_transactions_days_apart R H p tol) (Raise ValueError)).
Proof.
  intros R H p tol. split.
  - intros HR. outcome_of get_n_transactions_days_apart_yields.
    now rewrite (invalid_date_raises _ HR).
  - intros HR Hp (t & Hin & Ht).
    outcome_of get_n_transactions_days_apart_yields.
    destruct (valid_date_parsed _ HR) as [td Htd]. rewrite Htd. cbn [obind].
    apply ofold_raises.
    + intros acc x e' _. unfold days_apart_step.
      destruct (PyDate.strptime (date x)) as [d | e0] eqn:Ex; cbn [obind].
      * cbv zeta. destruct (_ <? _); [discriminate |].
        unfold int_mod. rewrite (proj2 (Z.eqb_neq p 0) Hp). cbn [obind].
        destruct (_ || _); discriminate.
      * intros [= <-]. apply (strptime_raises_ValueError _ _ Ex).
    + exists t. split; [exact Hin |]. intros acc. unfold days_apart_step.
      now rewrite (invalid_date_raises _ Ht).
Qed.

Section SameAmount.

Lemma nan_SF x : is_nan x = true -> Prim2SF x = S754_nan.
Proof. intros Hx. unfold Prim2SF. now rewrite Hx. Qed.

Lemma eqb_nan_r x y : is_nan y = true -> (x =? y)%float = false.
Proof.
  intros Hy. rewrite eqb_spec, (nan_SF y Hy).
  unfold SFeqb, SFcompare. destruct (Prim2SF x); reflexivity.
Qed.

Lemma compare_cont_refl p : PosDef.Pos.compare_cont Eq p p = Eq.
Proof.
  pose proof (Pos.compare_refl p) as E. exact E.
Qed.

Lemma eqb_refl_not_nan x : is_nan x = false -> (x =? x)%float = true.
Proof.
  intros Hx. rewrite eqb_spec. pose proof (not_nan_SF x Hx) as Hn.
  unfold SFeqb, SFcompare.
  destruct (Prim2SF x) as [s | s | | s m e]; try reflexivity.
  - destruct s; reflexivity.
  - contradiction.
  - rewrite Z.compare_refl, compare_cont_refl. destruct s; reflexivity.
Qed.

End SameAmount.

(** X13: a reference whose amount is NaN has the same amount as nothing:
    the count is 0 and the percentage 0.0, even when the reference itself
    is in the history.  Any other reference that is in the history is
    counted: the count is at least 1. *)
Theorem same_amount_nan_and_self :
  forall (R : Transaction) (H : list Transaction),
    (is_nan (amount R) = true ->
     get_n_transactions_same_amount R H = 0
     /\ get_percent_transactions_same_amount R H = Ok 0%float)
    /\ (is_nan (amount R) = false -> In R H ->
        1 <= get_n_transactions_same_amount R H).
Proof.
  intros R H. split.
  - intros Hn.
    assert (E : filter (same_amount R) H = []).
    { apply filter_none. intros t _. unfold same_amount. now apply eqb_nan_r. }
    unfold get_n_transactions_same_amount, get_percent_transactions_same_amount.
    rewrite E. split; [reflexivity |].
    destruct H as [| t H]; [reflexivity |].
    unfold PyFloat.int_truediv, len.
    cbn [List.length]. destruct (Z.of_nat (S _) =? 0) eqn:E0.
    + apply Z.eqb_eq in E0. lia.
    + replace (Z.of_nat (S (List.length H)) <? 0) with false
        by (symmetry; apply Z.ltb_ge; lia).
      reflexivity.
  - intros Hn Hin. unfold get_n_transactions_same_amount.
    assert (Hf : In R (filter (same_amount R) H)).
    { apply filter_In. split; [exact Hin |]. now apply eqb_refl_not_nan. }
    unfold len. destruct (filter (same_amount R) H); [contradiction |].
    simpl List.length. lia.
Qed.

(** X15: the test for 14 in [get_is_recurring] is redundant: with the
    dates read well formed, the result is true exactly when some
    transaction of the history with the reference's name, an amount equal
    to the reference's and another date string lies at a day distance
    that 7 or 30 divides. *)
Theorem is_recurring_fortnight_redundant :
  forall (R : Transaction) (H : list Transaction),
    valid_date (date R) = true ->
    (forall t, In t H -> matches_reference R t -> valid_date (date t) = true) ->
    exists b : bool,
      yields (get_is_recurring R H) (Ok b)
      /\ (b = true <->
          exists t, In t H
                    /\ (name t = name R
                        /\ (amount t =? amount R)%float = true
                        /\ date t <> date R)
                    /\ ((7 | days_between R t) \/ (30 | days_between R t))).
Proof.
  intros R H HR HH. exists (existsb (recurring_match R) H). split.
  - apply get_is_recurring_value; [exact HR |].
    intros t Hin Hs. apply (HH t Hin). now apply is_similar_matches.
  - rewrite recurring_match_iff. split; intros (t & Hin & Hs & Hp); exists t.
    + split; [exact Hin |]. split; [now apply is_similar_matches |].
      apply periodic_divisible in Hp as [H7 | [[k Hk] | H30]]; auto.
      left. exists (2 * k). lia.
    + split; [exact Hin |]. split; [now apply is_similar_matches |].
      apply periodic_divisible. destruct Hp; [left | right; right]; assumption.
Qed.

Lemma is_recurring_fortnight_redundant_witness :
  valid_date (date R_netflix) = true
  /\ exists b : bool,
       yields (get_is_recurring R_netflix H_fortnight) (Ok b)
       /\ (b = true <->
           exists t, In t H_fortnight
                     /\ (name t = name R_netflix
                         /\ (amount t =? amount R_netflix)%float = true
                         /\ date t <> date R_netflix)
                     /\ ((7 | days_between R_netflix t)
                         \/ (30 | days_between R_netflix t))).
Proof.
  split; [reflexivity |].
  apply (is_recurring_fortnight_redundant R_netflix H_fortnight eq_refl).
  intros t [<- | [<- | []]] _; reflexivity.
Defined.

(** X16: [get_is_recurring] does not depend on the order of the history:
    with the dates read well formed, a reordered history gives the same
    boolean. *)
Theorem is_recurring_order_insensitive :
  forall (R : Transaction) (H H' : list Transaction),
    valid_date (date R) = true ->
    (forall t, In t H -> matches_reference R t -> valid_date (date t) = true) ->
    Permutation H H' ->
    exists b : bool,
      yields (get_is_recurring R H) (Ok b)
      /\ yields (get_is_recurring R H') (Ok b).
Proof.
  intros R H H' HR HH HP. exists (existsb (recurring_match R) H). split.
  - apply get_is_recurring_value; [exact HR |].
    intros t Hin Hs. apply (HH t Hin). now apply is_similar_matches.
  - replace (existsb (recurring_match R) H) with (existsb (recurring_match R) H').
    + apply get_is_recurring_value; [exact HR |].
      intros t Hin Hs. apply (HH t); [| now apply is_similar_matches].
      apply (Permutation_in _ (Permutation_sym HP) Hin).
    + apply eq_true_iff_eq. rewrite !existsb_exists.
      split; intros (t & Hin & Ht); exists t; split; try assumption.
      * apply (Permutation_in _ (Permutation_sym HP) Hin).
      * apply (Permutation_in _ HP Hin).
Qed.

Lemma is_recurring_order_insensitive_witness :
  valid_date (date R_netflix) = true
  /\ exists b : bool,
       yields (get_is_recurring R_netflix H_recurring_month) (Ok b)
       /\ yields (get_is_recurring R_netflix (rev H_recurring_month)) (Ok b).
Proof.
  split; [reflexivity |].
  apply (is_recurring_order_insensitive R_netflix H_recurring_month
           (rev H_recurring_month) eq_refl).
  - intros t [<- | [<- | [<- | [<- | [<- | []]]]]] _; reflexivity.
  - apply Permutation_rev.
Defined.

(** X17: [get_is_recurring] raises [ValueError] when the reference date
    is malformed, whatever the history; with a well-formed reference date
    it raises [ValueError] when some transaction with the reference's
    name, amount and another date string has a malformed date. *)
Theorem is_recurring_malformed_date :
  forall (R : Transaction) (H : list Transaction),
    (valid_date (date R) = false ->
     yields (get_is_recurring R H) (Raise ValueError))
    /\ (valid_date (date R) = true ->
        (exists t, In t H /\ matches_reference R t
                   /\ valid_date (date t) = false) ->
        yields (get_is_recurring R H) (Raise ValueError)).
Proof.
  intros R H. split.
  - intros HR. outcome_of get_is_recurring_yields.
    now rewrite (invalid_date_raises _ HR).
  - intros HR (t & Hin & Hm & Ht).
    outcome_of get_is_recurring_yields.
    destruct (valid_date_parsed _ HR) as [td Htd]. rewrite Htd. cbn [obind].
    assert (Hf : In t (filter (is_similar R) H)).
    { apply filter_In. split; [exact Hin | now apply is_similar_matches]. }
    assert (Hr : omap (fun t0 => (d <- PyDate.strptime (date t0) ;;
                                  Ok (Z.abs (PyDate.sub_days td d)))%outcome)
                      (filter (is_similar R) H) = Raise ValueError).
    { apply omap_raises.
      - intros x e' _. destruct (PyDate.strptime (date x)) eqn:Ex; cbn [obind].
        + discriminate.
        + intros [= <-]. apply (strptime_raises_ValueError _ _ Ex).
      - exists t. split; [exact Hf |]. now rewrite (invalid_date_raises _ Ht). }
    destruct (filter (is_similar R) H) as [| t0 l]; [contradiction |].
    rewrite Hr. reflexivity.
Qed.

(** ** Vendor keywords *)

Section WordSearch.

Lemma starts_with_app w l post :
  starts_with w l = Some post <-> l = (w ++ post)%list.
Proof.
  revert l. induction w as [| a w IH]; intros l; simpl.
  - split; [intros [= ->]; reflexivity | intros ->; reflexivity].
  - destruct l as [| b l]; [split; discriminate |].
    destruct (Ascii.eqb_spec a b) as [-> | Hne].
    + rewrite IH. split; [intros -> | intros [= ->]]; reflexivity.
    + split; [discriminate | intros [= E _]; congruence].
Qed.

(** The word-character status of the last character of [pre], or [prev]
    when [pre] is empty. *)
Lemma last_status prev pre :
  fold_left (fun _ c => is_word_char c) pre prev =
  match rev pre with [] => prev | c :: _ => is_word_char c end.
Proof.
  revert prev. induction pre as [| c pre IH] using rev_ind; intros prev.
  - reflexivity.
  - rewrite fold_left_app, rev_app_distr. reflexivity.
Qed.

Lemma word_here words l :
  existsb (fun w => match starts_with w l with
                    | Some (c :: _) => negb (is_word_char c)
                    | Some [] => true
                    | None => false
                    end) words = true <->
  exists w post, In w words /\ l = (w ++ post)%list /\ word_boundary_after post.
Proof.
  rewrite existsb_exists. split.
  - intros (w & Hin & Hw).
    destruct (starts_with w l) as [post |] eqn:E; [| discriminate].
    exists w, post. apply starts_with_app in E.
    repeat split; auto.
    destruct post as [| c post]; simpl; [exact I |].
    now apply negb_true_iff.
  - intros (w & post & Hin & -> & Hb). exists w. split; [exact Hin |].
    rewrite (proj2 (starts_with_app w (w ++ post)%list post) eq_refl).
    destruct post as [| c post]; [reflexivity |].
    simpl in Hb. now rewrite Hb.
Qed.

Lemma word_search_from_spec words :
  (forall w, In w words -> w <> []) ->
  forall l prev,
    word_search_from words prev l = true <->
    exists w pre post,
      In w words /\ l = (pre ++ w ++ post)%list
      /\ fold_left (fun _ c => is_word_char c) pre prev = false
      /\ word_boundary_after post.
Proof.
  intros Hne. induction l as [| c l IH]; intros prev.
  - simpl. split; [discriminate |].
    intros (w & pre & post & Hin & E & _).
    destruct pre; [| discriminate]. destruct w; [| discriminate].
    now destruct (Hne [] Hin).
  - cbn [word_search_from]. rewrite orb_true_iff, andb_true_iff, negb_true_iff.
    rewrite word_here, IH. split.
    + intros [[Hp (w & post & Hin & E & Hb)] | (w & pre & post & Hin & E & Hpre & Hb)].
      * exists w, [], post. repeat split; auto.
      * exists w, (c :: pre), post. repeat split; auto.
        simpl. now rewrite E.
    + intros (w & pre & post & Hin & E & Hpre & Hb).
      destruct pre as [| c' pre].
      * left. split; [exact Hpre |]. exists w, post. auto.
      * right. injection E as -> E. exists w, pre, post. auto.
Qed.

Lemma word_search_spec words text :
  (forall w, In w words -> PyStr.chars w <> []) ->
  word_search words text = true <->
  exists w, In w words /\ whole_word w text.
Proof.
  intros Hne. unfold word_search, whole_word.
  rewrite word_search_from_spec.
  2:{ intros w Hin. apply in_map_iff in Hin as (w0 & <- & Hin0). now apply Hne. }
  split.
  - intros (w & pre & post & Hin & E & Hpre & Hb).
    apply in_map_iff in Hin as (w0 & <- & Hin0).
    exists w0. split; [exact Hin0 |]. exists pre, post.
    repeat split; auto. unfold word_boundary_before.
    rewrite last_status in Hpre. destruct (rev pre); [exact I | exact Hpre].
  - intros (w & Hin & pre & post & E & Hpre & Hb).
    exists (PyStr.chars w), pre, post.
    split; [now apply in_map |]. repeat split; auto.
    rewrite last_status. unfold word_boundary_before in Hpre.
    destruct (rev pre); [reflexivity | exact Hpre].
Qed.

End WordSearch.

(** X18: each keyword flag is true exactly when the lower-cased name
    contains one of its three keywords as a whole word (no letter, digit
    or underscore just before it or just after it): insurance, insur,
    insuranc for [get_is_insurance]; utility, utilit, energy for
    [get_is_utility]; at&t, t-mobile, verizon for [get_is_phone]. *)
Theorem vendor_keyword_flags :
  forall t : Transaction,
    (get_is_insurance t = true <->
     whole_word "insurance" (name t) \/ whole_word "insur" (name t)
     \/ whole_word "insuranc" (name t))
    /\ (get_is_utility t = true <->
        whole_word "utility" (name t) \/ whole_word "utilit" (name t)
        \/ whole_word "energy" (name t))
    /\ (get_is_phone t = true <->
        whole_word "at&t" (name t) \/ whole_word "t-mobile" (name t)
        \/ whole_word "verizon" (name t)).
Proof.
  intros t.
  assert (Hthree : forall a b c : string,
             PyStr.chars a <> [] -> PyStr.chars b <> [] -> PyStr.chars c <> [] ->
             word_search [a; b; c] (name t) = true <->
             whole_word a (name t) \/ whole_word b (name t)
             \/ whole_word c (name t)).
  { intros a b c Ha Hb Hc. rewrite word_search_spec.
    - split.
      + intros (w & [<- | [<- | [<- | []]]] & Hw); auto.
      + intros [Hw | [Hw | Hw]]; eexists; (split; [| exact Hw]); simpl; auto.
    - intros w [<- | [<- | [<- | []]]]; assumption. }
  unfold get_is_insurance, get_is_utility, get_is_phone.
  repeat split; try (apply Hthree; discriminate);
    apply Hthree; discriminate.
Qed.

Lemma lowered_chars s w :
  PyStr.lower s = w -> map PyStr.lower_char (PyStr.chars s) = PyStr.chars w.
Proof.
  intros <-. unfold PyStr.lower. now rewrite chars_of_chars.
Qed.

(** X19: a transaction that [get_is_always_recurring] accepts (its
    lower-cased name is google storage, netflix, hulu or spotify) carries
    none of the three keyword flags. *)
Theorem always_recurring_vendors_unflagged :
  forall t : Transaction,
    get_is_always_recurring t = true ->
    get_is_insurance t = false
    /\ get_is_utility t = false
    /\ get_is_phone t = false.
Proof.
  intros t Ht. unfold get_is_always_recurring in Ht.
  cbn [existsb] in Ht. rewrite !orb_true_iff, !String.eqb_eq in Ht.
  unfold get_is_insurance, get_is_utility, get_is_phone, word_search.
  destruct Ht as [E | [E | [E | [E | E]]]]; try discriminate E;
    rewrite (lowered_chars _ _ E); repeat split; vm_compute; reflexivity.
Qed.

Lemma always_recurring_vendors_unflagged_witness :
  get_is_always_recurring R_netflix = true
  /\ get_is_insurance R_netflix = false
  /\ get_is_utility R_netflix = false
  /\ get_is_phone R_netflix = false.
Proof.
  split; [reflexivity |].
  exact (always_recurring_vendors_unflagged R_netflix eq_refl).
Defined.

Example keyword_flags_on_names :
  get_is_insurance (mkTransaction "GEICO Insurance" 1 "2024-01-01") = true
  /\ get_is_insurance (mkTransaction "Reinsurance Co" 1 "2024-01-01") = false
  /\ get_is_phone (mkTransaction "AT&T Wireless" 1 "2024-01-01") = true
  /\ get_is_utility (mkTransaction "Energy_Plus" 1 "2024-01-01") = false.
Proof. repeat split; reflexivity. Qed.

(** ** The loop over the patterns *)

Section PatternShape.

Lemma float_gt_zero x :
  Num.gtb (NFloat x) (NFloat 0) = true <-> sf_positive (Prim2SF x) = true.
Proof.
  unfold Num.gtb, Num.ltb, Num.compare. rewrite compare_spec.
  replace (Prim2SF 0%float) with (S754_zero false) by (vm_compute; reflexivity).
  destruct (Prim2SF x) as [s | [] | | [] m e]; simpl; split; congruence.
Qed.

Lemma float_gt_float x y :
  Num.gtb (NFloat x) (NFloat y) = true ->
  sf_positive (Prim2SF y) = true -> sf_positive (Prim2SF x) = true.
Proof.
  unfold Num.gtb, Num.ltb, Num.compare. rewrite compare_spec.
  destruct (Prim2SF y) as [s | [] | | [] m e]; try discriminate;
    destruct (Prim2SF x) as [s' | [] | | [] m' e']; simpl; try congruence.
Qed.

Lemma float_gt_one x :
  Num.gtb (NFloat x) (NInt 1) = true -> sf_positive (Prim2SF x) = true.
Proof.
  unfold Num.gtb, Num.ltb, Num.compare, Num.compare_int_float.
  destruct (Prim2SF x) as [s | [] | | [] m e]; cbn [sf_positive cond_Zopp];
    try congruence; try discriminate.
  intros G. exfalso. revert G.
  destruct (0 <=? e) eqn:He.
  - destruct (Z.compare_spec 1 (- Z.pos m * 2 ^ e)) as [C | C | C];
      try discriminate; intros _.
    apply Z.leb_le in He.
    pose proof (Z.pow_pos_nonneg 2 e ltac:(lia) He). nia.
  - destruct (Z.compare_spec (1 * 2 ^ (- e)) (- Z.pos m)) as [C | C | C];
      try discriminate; intros _.
    apply Z.leb_gt in He.
    pose proof (Z.pow_pos_nonneg 2 (- e) ltac:(lia) ltac:(lia)). lia.
Qed.

Lemma positive_gt_int_zero x :
  sf_positive (Prim2SF x) = true -> Num.gtb (NFloat x) (NInt 0) = true.
Proof.
  unfold Num.gtb, Num.ltb, Num.compare, Num.compare_int_float.
  destruct (Prim2SF x) as [s | [] | | [] m e]; cbn [sf_positive cond_Zopp];
    try congruence; try discriminate.
  intros _. destruct (0 <=? e) eqn:He.
  - apply Z.leb_le in He.
    pose proof (Z.pow_pos_nonneg 2 e ltac:(lia) He).
    replace (0 ?= Z.pos m * 2 ^ e) with Lt; [reflexivity |].
    symmetry. apply Z.compare_lt_iff. nia.
  - reflexivity.
Qed.

(** Clamping a confidence above 0 gives a confidence above 0 and at
    most 1. *)
Lemma clamp_positive x :
  sf_positive (Prim2SF x) = true -> positive_confidence (clamp (NFloat x)).
Proof.
  intros Hx. unfold clamp, Num.min.
  destruct (Num.ltb (NFloat x) (NInt 1)) eqn:H1.
  - unfold Num.max. rewrite (positive_gt_int_zero x Hx).
    split; [now apply float_gt_zero |].
    unfold Num.leb. unfold Num.ltb in H1.
    destruct (Num.compare (NFloat x) (NInt 1)) as [[] |]; congruence.
  - unfold Num.max.
    replace (Num.gtb (NInt 1) (NInt 0)) with true by reflexivity.
    split; vm_compute; reflexivity.
Qed.

(** What is kept after a turn of the loop: the former best pattern, or
    the pattern of the turn with its clamped confidence, which was above
    the former one. *)
Lemma pattern_step_cases avg sd best pname e ef :
  In (pname, e, ef) pattern_periods ->
  pattern_step avg (NFloat sd) best (pname, e) = Ok best
  \/ (pattern_step avg (NFloat sd) best (pname, e)
      = Ok (pname, clamp (pattern_confidence ef sd))
      /\ Num.gtb (pattern_confidence ef sd) (snd best) = true).
Proof.
  intros Hin.
  assert (Hd : exists d, Num.sub avg (NInt e) = Ok d).
  { destruct avg as [z | f]; [eexists; reflexivity |].
    destruct Hin as [[= <- <- <-] | [[= <- <- <-] | [[= <- <- <-] | []]]];
      eexists; reflexivity. }
  destruct Hd as [d Hd].
  destruct Hin as [[= <- <- <-] | [[= <- <- <-] | [[= <- <- <-] | []]]];
    unfold pattern_step; rewrite Hd; cbn [obind].
  - change (Num.mul (NInt 7) (NFloat 0.1)) with (Ok (NFloat (7 * 0.1))).
    cbn [obind]. destruct (Num.leb _ _); [| left; reflexivity].
    change (Num.add (NInt 7) (NFloat 1e-6)) with (Ok (NFloat (7 + 1e-6))).
    cbn [obind].
    change (Num.div (NFloat sd) (NFloat (7 + 1e-6)))
      with (Ok (NFloat (sd / (7 + 1e-6)))).
    cbn [obind].
    change (Num.sub (NInt 1) (NFloat (sd / (7 + 1e-6))))
      with (Ok (pattern_confidence 7 sd)).
    cbn [obind].
    destruct (Num.gtb _ _) eqn:G; [right; split; reflexivity |].
    left; reflexivity.
  - change (Num.mul (NInt 30) (NFloat 0.1)) with (Ok (NFloat (30 * 0.1))).
    cbn [obind]. destruct (Num.leb _ _); [| left; reflexivity].
    change (Num.add (NInt 30) (NFloat 1e-6)) with (Ok (NFloat (30 + 1e-6))).
    cbn [obind].
    change (Num.div (NFloat sd) (NFloat (30 + 1e-6)))
      with (Ok (NFloat (sd / (30 + 1e-6)))).
    cbn [obind].
    change (Num.sub (NInt 1) (NFloat (sd / (30 + 1e-6))))
      with (Ok (pattern_confidence 30 sd)).
    cbn [obind].
    destruct (Num.gtb _ _) eqn:G; [right; split; reflexivity |].
    left; reflexivity.
  - change (Num.mul (NInt 365) (NFloat 0.1)) with (Ok (NFloat (365 * 0.1))).
    cbn [obind]. destruct (Num.leb _ _); [| left; reflexivity].
    change (Num.add (NInt 365) (NFloat 1e-6)) with (Ok (NFloat (365 + 1e-6))).
    cbn [obind].
    change (Num.div (NFloat sd) (NFloat (365 + 1e-6)))
      with (Ok (NFloat (sd / (365 + 1e-6)))).
    cbn [obind].
    change (Num.sub (NInt 1) (NFloat (sd / (365 + 1e-6))))
      with (Ok (pattern_confidence 365 sd)).
    cbn [obind].
    destruct (Num.gtb _ _) eqn:G; [right; split; reflexivity |].
    left; reflexivity.
Qed.

(** A confidence above the best one so far is above 0. *)
Lemma above_best_positive x best :
  pattern_result best ->
  Num.gtb (NFloat x) (snd best) = true ->
  sf_positive (Prim2SF x) = true.
Proof.
  intros [[_ E] | [_ [Hpos Hle]]] G.
  - rewrite E in G. now apply float_gt_zero.
  - destruct (snd best) as [z | y].
    + (* an int confidence above 0 and at most 1 is 1 *)
      assert (z = 1).
      { unfold Num.gtb, Num.ltb, Num.leb, Num.compare in Hpos, Hle.
        cbn in Hpos. unfold Num.compare_int_float in Hpos.
        replace (Prim2SF 0%float) with (S754_zero false) in Hpos
          by (vm_compute; reflexivity).
        cbn in Hpos.
        destruct (Z.compare_spec z 0); try discriminate.
        destruct (Z.compare_spec z 1); try discriminate; lia. }
      subst z. now apply float_gt_one.
    + apply (float_gt_float x y G). now apply float_gt_zero.
Qed.

Lemma pattern_step_shape avg sd best pname e ef :
  In (pname, e, ef) pattern_periods ->
  pattern_result best ->
  exists best',
    pattern_step avg (NFloat sd) best (pname, e) = Ok best'
    /\ pattern_result best'.
Proof.
  intros Hin Hbest.
  destruct (pattern_step_cases avg sd best pname e ef Hin) as [E | [E G]].
  - exists best. auto.
  - eexists. split; [exact E |]. right. cbn [fst snd]. split.
    + destruct Hin as [[= <- _ _] | [[= <- _ _] | [[= <- _ _] | []]]];
        simpl; auto.
    + apply clamp_positive. apply (above_best_positive _ best Hbest G).
Qed.

End PatternShape.

(** X20: the loop over the patterns of [detect_sequence_patterns]
    always ends, for every mean gap and every float deviation, with
    either no pattern and confidence 0.0, or one of weekly, monthly and
    yearly with a confidence above 0 and at most 1. *)
Theorem best_pattern_shape :
  forall (avg_interval : num) (stdev_interval : float),
    exists best,
      best_pattern_of avg_interval (NFloat stdev_interval) = Ok best
      /\ ((fst best = "none" /\ snd best = NFloat 0)
          \/ (In (fst best) ["weekly"; "monthly"; "yearly"]
              /\ Num.gtb (snd best) (NFloat 0) = true
              /\ Num.leb (snd best) (NInt 1) = true)).
Proof.
  intros avg sd. unfold best_pattern_of, patterns. cbn [ofold].
  assert (H0 : pattern_result ("none", NFloat 0)) by (left; auto).
  destruct (pattern_step_shape avg sd _ "weekly" 7 7%float
              ltac:(simpl; auto) H0) as (b1 & E1 & H1).
  rewrite E1. cbn [obind].
  destruct (pattern_step_shape avg sd b1 "monthly" 30 30%float
              ltac:(simpl; auto) H1) as (b2 & E2 & H2).
  rewrite E2. cbn [obind].
  destruct (pattern_step_shape avg sd b2 "yearly" 365 365%float
              ltac:(simpl; auto) H2) as (b3 & E3 & H3).
  rewrite E3. cbn [obind].
  exists b3. split; [reflexivity | exact H3].
Qed.

(** ** The confidence score on a sparse history *)

Section Jaccard.

Lemma mem_In x l : PyStr.mem x l = true <-> In x l.
Proof.
  induction l as [| y l IH]; simpl; [split; [discriminate | tauto] |].
  rewrite orb_true_iff, String.eqb_eq, IH. split; intros [E | Hin]; auto.
Qed.

Lemma inter_self s : PyStr.inter s s = s.
Proof.
  unfold PyStr.inter. apply filter_every. intros x Hx. now apply mem_In.
Qed.

Lemma union_self s : PyStr.union s s = s.
Proof.
  unfold PyStr.union. rewrite filter_none, app_nil_r; [reflexivity |].
  intros x Hx. apply negb_false_iff. now apply mem_In.
Qed.

Lemma jaccard_self s :
  jaccard_similarity s s = Ok (match s with [] => 0 | _ :: _ => 1 end)%float.
Proof.
  unfold jaccard_similarity. rewrite inter_self, union_self.
  destruct s as [| x s]; [reflexivity |].
  replace (negb (len (x :: s) =? 0)) with true.
  - apply int_truediv_self. unfold len. simpl List.length. lia.
  - symmetry. apply negb_true_iff, Z.eqb_neq. unfold len. simpl List.length. lia.
Qed.

Lemma to_set_nil l : PyStr.to_set l = [] <-> l = [].
Proof.
  destruct l as [| x l]; [tauto |]. split; [| intros [=]].
  cbn [PyStr.to_set]. cbv zeta. intros E0. exfalso.
  destruct (PyStr.mem x (PyStr.to_set l)) eqn:E; [| discriminate E0].
  rewrite E0 in E. discriminate E.
Qed.

End Jaccard.

(** X21: the metadata similarity compares a name with itself: for a
    transaction of the reference's name, the Jaccard similarity of the
    two word sets is 1.0, or 0.0 when the name has no word. *)
Theorem jaccard_of_same_name :
  forall R t : Transaction,
    name t = name R ->
    jaccard_similarity (PyStr.to_set (PyStr.split (name R)))
                       (PyStr.to_set (PyStr.split (name t)))
    = Ok (match PyStr.split (name R) with [] => 0 | _ :: _ => 1 end)%float.
Proof.
  intros R t ->. rewrite jaccard_self.
  destruct (PyStr.split (name R)) as [| w ws] eqn:E; [reflexivity |].
  destruct (PyStr.to_set (w :: ws)) eqn:E'; [| reflexivity].
  apply (proj1 (to_set_nil _)) in E'. discriminate E'.
Qed.

Lemma jaccard_of_same_name_witness :
  jaccard_similarity (PyStr.to_set (PyStr.split "Netflix  Premium"))
                     (PyStr.to_set (PyStr.split "Netflix  Premium"))
  = Ok 1%float.
Proof.
  exact (jaccard_of_same_name
           (mkTransaction "Netflix  Premium" 1 "2024-01-01")
           (mkTransaction "Netflix  Premium" 2 "2024-02-01") eq_refl).
Defined.

Section SparseHistory.

Lemma is_comparison_of R t : is_comparison R t = true <-> comparison_of R t.
Proof.
  unfold is_comparison, comparison_of.
  rewrite andb_true_iff, negb_true_iff, String.eqb_eq, String.eqb_neq. tauto.
Qed.

Lemma not_comparison R t : ~ comparison_of R t -> is_comparison R t = false.
Proof.
  intros Hn. destruct (is_comparison R t) eqn:E; [| reflexivity].
  now apply is_comparison_of in E.
Qed.

Lemma sparse_confidence_score n m :
  0 <= n -> m = 0%float \/ m = 1%float ->
  confidence_score (NFloat 1) (NFloat infinity) n (NFloat m) =
  Ok (NFloat (sparse_score (0 <? n) (m =? 1)%float)).
Proof.
  intros Hn Hm. unfold confidence_score.
  rewrite (frequency_term_binary n Hn).
  destruct Hm as [-> | ->]; destruct (0 <? n); vm_compute; reflexivity.
Qed.

Variables (R : Transaction) (H : list Transaction).
Hypothesis reference_valid : valid_date (date R) = true.
Hypothesis same_name_valid :
  forall t, In t H -> name t = name R -> valid_date (date t) = true.

Lemma transaction_frequency_value :
  transaction_frequency_outcome R H = Ok (nearby_count R H).
Proof.
  unfold transaction_frequency_outcome, nearby_count.
  destruct (valid_date_parsed _ reference_valid) as [td Htd].
  rewrite Htd. cbn [obind].
  rewrite (ofilter_ok _ (fun t => String.eqb (name t) (name R)
                                  && (days_between t R <=? 30))); [reflexivity |].
  intros t Ht. destruct (String.eqb_spec (name t) (name R)) as [En | Hne];
    [| reflexivity].
  destruct (valid_date_parsed _ (same_name_valid t Ht En)) as [d Hd].
  rewrite Hd. cbn [obind andb]. unfold days_between, PyDate.sub_days.
  now rewrite (ordinal_of_parsed _ _ Htd), (ordinal_of_parsed _ _ Hd).
Qed.

Lemma sparse_confidence cs :
  filter (is_comparison R) H = cs -> (List.length cs < 2)%nat ->
  yields (get_recurring_transaction_confidence R H)
         (Ok (NFloat (sparse_score
                        (0 <? nearby_count R H)
                        (match cs, PyStr.split (name R) with
                         | _ :: _, _ :: _ => true
                         | _, _ => false
                         end)))).
Proof.
  intros Hcs Hlen.
  assert (Hcv : forall t, In t H -> is_comparison R t = true ->
                          valid_date (date t) = true).
  { intros t Ht Hc. apply (same_name_valid t Ht).
    now apply is_comparison_of in Hc as [En _]. }
  destruct (sparse_history_signals R H) as [Hst Hreg]; auto.
  { rewrite Hcs. unfold len. lia. }
  pose proof (yields_unique _ _ _ (interval_regularities_yields R H) Hreg) as Ereg.
  outcome_of get_recurring_transaction_confidence_yields.
  rewrite Hst, Ereg, transaction_frequency_value. cbn [obind].
  assert (Hn : 0 <= nearby_count R H) by (unfold nearby_count, len; lia).
  unfold metadata_similarity. rewrite Hcs.
  destruct cs as [| t1 [| t2 cs]]; [| | simpl in Hlen; lia].
  - cbn [omap obind].
    rewrite (sparse_confidence_score _ 0%float Hn (or_introl eq_refl)).
    destruct (0 <? nearby_count R H); reflexivity.
  - assert (Ht1 : name t1 = name R).
    { assert (Hin : In t1 (filter (is_comparison R) H)) by (rewrite Hcs; now left).
      apply filter_In in Hin as [_ Hc]. now apply is_comparison_of in Hc as [En _]. }
    cbn [omap]. rewrite Ht1, jaccard_self. cbn [obind].
    destruct (PyStr.split (name R)) as [| w ws] eqn:Es.
    + cbn [PyStr.to_set].
      replace (Num.div (Statistics.sum [0%float]) (NInt (len [0%float])))
        with (Ok (NFloat 0)) by (vm_compute; reflexivity).
      cbn [obind].
      rewrite (sparse_confidence_score _ 0%float Hn (or_introl eq_refl)).
      destruct (0 <? nearby_count R H); reflexivity.
    + destruct (PyStr.to_set (w :: ws)) eqn:E'.
      { apply (proj1 (to_set_nil _)) in E'. discriminate E'. }
      replace (Num.div (Statistics.sum [1%float]) (NInt (len [1%float])))
        with (Ok (NFloat 1)) by (vm_compute; reflexivity).
      cbn [obind].
      rewrite (sparse_confidence_score _ 1%float Hn (or_intror eq_refl)).
      destruct (0 <? nearby_count R H); reflexivity.
Qed.

End SparseHistory.

(** X22: with a well-formed reference date and well-formed dates on the
    transactions of its name, a reference without comparison transaction
    (its name under another date string) scores 0.35 when a transaction
    of its name lies within 30 days and 0.15 otherwise; with exactly one
    comparison transaction and a name that has a word, it scores 0.55 or
    0.35 (0.35 or 0.15 for a name without a word). *)
Theorem confidence_of_sparse_history :
  forall (R : Transaction) (H : list Transaction),
    valid_date (date R) = true ->
    (forall t, In t H -> name t = name R -> valid_date (date t) = true) ->
    ((forall t, In t H -> ~ comparison_of R t) ->
     yields (get_recurring_transaction_confidence R H)
            (Ok (NFloat (if 0 <? nearby_count R H then 0.35 else 0.15))))
    /\ (forall pre t1 post,
           H = (pre ++ t1 :: post)%list -> comparison_of R t1 ->
           (forall t, In t (pre ++ post)%list -> ~ comparison_of R t) ->
           yields (get_recurring_transaction_confidence R H)
                  (Ok (NFloat
                         (match PyStr.split (name R) with
                          | [] => if 0 <? nearby_count R H then 0.35 else 0.15
                          | _ :: _ => if 0 <? nearby_count R H then 0.55 else 0.35
                          end)))).
Proof.
  intros R H HR HH. split.
  - intros Hnone.
    outcome_of (sparse_confidence R H HR HH []).
    + destruct (0 <? nearby_count R H); reflexivity.
    + apply filter_none. intros t Ht. apply not_comparison, Hnone, Ht.
    + simpl. lia.
  - intros pre t1 post EH Ht1 Hothers.
    outcome_of (sparse_confidence R H HR HH [t1]).
    + destruct (PyStr.split (name R)), (0 <? nearby_count R H); reflexivity.
    + rewrite EH, filter_app. cbn [filter].
      rewrite (proj2 (is_comparison_of R t1) Ht1).
      rewrite !filter_none; [reflexivity | |];
        intros t Ht; apply not_comparison, Hothers, in_or_app; auto.
    + simpl. lia.
Qed.

Lemma confidence_of_sparse_history_witness :
  valid_date (date R_netflix) = true
  /\ yields (get_recurring_transaction_confidence R_netflix [R_netflix])
            (Ok (NFloat 0.35))
  /\ yields (get_recurring_transaction_confidence R_netflix
               [R_netflix; T_netflix_14])
            (Ok (NFloat 0.55)).
Proof.
  split; [reflexivity |].
  assert (Hv : forall l, (forall t, In t l -> t = R_netflix \/ t = T_netflix_14) ->
                         forall t, In t l -> name t = name R_netflix ->
                                   valid_date (date t) = true).
  { intros l Hl t Ht _. destruct (Hl t Ht) as [-> | ->]; reflexivity. }
  split.
  - refine (proj1 (confidence_of_sparse_history R_netflix [R_netflix] eq_refl
                     (Hv _ _)) _).
    + intros t [<- | []]; auto.
    + intros t [<- | []] [_ Hd]. now apply Hd.
  - refine (proj2 (confidence_of_sparse_history R_netflix
                     [R_netflix; T_netflix_14] eq_refl (Hv _ _))
                  [R_netflix] T_netflix_14 [] eq_refl _ _).
    + intros t [<- | [<- | []]]; auto.
    + split; [reflexivity | discriminate].
    + intros t [<- | []] [_ Hd]. now apply Hd.
Defined.
